(** * The bridge server's relay core, embedded in Rocq

    A shallow embedding of packages/bridge-server/src: the message
    validator (validation.ts), the authentication and authorization gate
    (auth.ts), the connection registry (connection-registry.ts), the latency
    monitor (latency-monitor.ts), the message router (message-router.ts), the
    per-connection handlers and the heartbeat of the server (index.ts) and
    the client-side reconnection manager (reconnection.ts).

    The code is TypeScript running on a single-threaded event loop.  Every
    handler runs to completion, so a handler is a function from the state of
    the process to its next state; a JavaScript exception is an explicit
    outcome, and [try]/[catch] is a combinator on state transformers.  The
    runtime's values of type [any]/[unknown] are the type [JSValue]. *)

From Stdlib Require Import ZArith List String Ascii Bool Lia DecimalString.
Import ListNotations.
Local Open Scope string_scope.
Local Open Scope list_scope.
Local Open Scope Z_scope.

Set Implicit Arguments.
Set Warnings "-register-all".

Notation "a ^+ b" := (String.append a b) (at level 60, right associativity).

(** ** Outcomes of a JavaScript computation *)

(** A computation returns a value or throws.  The thrown value is kept as
    its message, which is what the code reads from it
    ([error instanceof Error ? error.message : String(error)]); the [stack]
    that the handlers of index.ts add to their log lines is not part of the
    model's log. *)
Inductive Outcome (A : Type) : Type :=
| Ok (a : A)
| Throw (e : string).
Arguments Ok {A} a.
Arguments Throw {A} e.

(** ** JavaScript values *)

Module JS.

(** The values a parsed message can hold, and the two a caller of the typed
    API can add to them ([undefined] and a BigInt).  Numbers are the integers
    among the doubles: every number the relay computes with is a count or a
    time in milliseconds.  Strings are byte strings. *)
Inductive JSValue : Type :=
| JUndefined
| JNull
| JBool (b : bool)
| JNum (n : Z)
| JBigInt (n : Z)
| JStr (s : string)
| JArr (items : list JSValue)
| JObj (props : list (string * JSValue)).

(** [typeof v] *)
Definition typeof (v : JSValue) : string :=
  match v with
  | JUndefined => "undefined"
  | JNull => "object"
  | JBool _ => "boolean"
  | JNum _ => "number"
  | JBigInt _ => "bigint"
  | JStr _ => "string"
  | JArr _ => "object"
  | JObj _ => "object"
  end.

(** ToBoolean: what [!v] and [if (v)] test. *)
Definition truthy (v : JSValue) : bool :=
  match v with
  | JUndefined | JNull => false
  | JBool b => b
  | JNum n | JBigInt n => negb (n =? 0)
  | JStr s => negb (String.eqb s EmptyString)
  | JArr _ | JObj _ => true
  end.

Definition is_undefined (v : JSValue) : bool :=
  match v with JUndefined => true | _ => false end.

(** [v === 'lit'] for a string literal. *)
Definition eq_str (v : JSValue) (lit : string) : bool :=
  match v with JStr s => String.eqb s lit | _ => false end.

(** [list.includes(v)] for an array of string literals. *)
Definition includes (l : list string) (v : JSValue) : bool :=
  existsb (eq_str v) l.

Fixpoint assoc (k : string) (props : list (string * JSValue)) : option JSValue :=
  match props with
  | [] => None
  | (k', v) :: rest => if String.eqb k k' then Some v else assoc k rest
  end.

(** [v.k]: reading a property of [null] or [undefined] throws a TypeError;
    an object gives the property or [undefined]; the other values have none
    of the properties the relay reads (payload, authToken, id, version, type,
    timestamp, source, command, args, success, eventType, data). *)
Definition get (v : JSValue) (k : string) : Outcome JSValue :=
  match v with
  | JUndefined | JNull => Throw ("Cannot read properties of null or undefined (reading '" ^+ k ^+ "')")
  | JObj props => Ok (match assoc k props with Some x => x | None => JUndefined end)
  | _ => Ok JUndefined
  end.

(** [v?.k] *)
Definition get_opt (v : JSValue) (k : string) : JSValue :=
  match get v k with Ok x => x | Throw _ => JUndefined end.

(** Decimal form of an integer, as [String(n)] prints it. *)
Definition Z_to_string (n : Z) : string := NilZero.string_of_int (Z.to_int n).

(** [String(v)], which is also what a template literal applies.  An object
    is converted by its [toString] method.  The objects here are data (what
    [JSON.parse] returned, or an object literal): one that has no property
    [toString] of its own inherits the method of [Object.prototype], which
    gives [[object Object]]; in one that has, the property is not a function,
    the conversion goes on to [valueOf], which gives back the object, and a
    TypeError is thrown.  An array is converted by [join], which converts
    every element except [null] and [undefined]. *)
Fixpoint to_string (v : JSValue) : Outcome string :=
  match v with
  | JUndefined => Ok "undefined"
  | JNull => Ok "null"
  | JBool true => Ok "true"
  | JBool false => Ok "false"
  | JNum n | JBigInt n => Ok (Z_to_string n)
  | JStr s => Ok s
  | JArr items =>
      match
        (fix each (xs : list JSValue) : Outcome (list string) :=
           match xs with
           | [] => Ok []
           | x :: rest =>
               match
                 match x with
                 | JUndefined | JNull => Ok EmptyString
                 | _ => to_string x
                 end
               with
               | Throw e => Throw e
               | Ok s =>
                   match each rest with
                   | Throw e => Throw e
                   | Ok parts => Ok (s :: parts)
                   end
               end
           end) items
      with
      | Throw e => Throw e
      | Ok parts => Ok (String.concat "," parts)
      end
  | JObj props =>
      match assoc "toString" props with
      | Some _ => Throw "Cannot convert object to primitive value"
      | None => Ok "[object Object]"
      end
  end.

(** Whether [String(v)] returns. *)
Definition renders (v : JSValue) : bool :=
  match to_string v with Ok _ => true | Throw _ => false end.

Definition dquote : string := String (ascii_of_nat 34) EmptyString.

Definition hex_digit (n : nat) : ascii :=
  ascii_of_nat (if Nat.ltb n 10 then 48 + n else 87 + n).

(** The escapes of [JSON.stringify]'s QuoteJSONString on a byte string. *)
Fixpoint escape (s : string) : string :=
  match s with
  | EmptyString => EmptyString
  | String c rest =>
      let n := nat_of_ascii c in
      (if Nat.eqb n 34 then "\" ^+ dquote
       else if Nat.eqb n 92 then "\\"
       else if Nat.eqb n 8 then "\b"
       else if Nat.eqb n 9 then "\t"
       else if Nat.eqb n 10 then "\n"
       else if Nat.eqb n 12 then "\f"
       else if Nat.eqb n 13 then "\r"
       else if Nat.ltb n 32 then
         "\u00" ^+ String (hex_digit (Nat.div n 16)) (String (hex_digit (Nat.modulo n 16)) EmptyString)
       else String c EmptyString) ^+ escape rest
  end.

Definition quote (s : string) : string := dquote ^+ escape s ^+ dquote.

(** [JSON.stringify v].  [Ok None] is the result [undefined] (a value that
    has no JSON text); a BigInt anywhere in the value throws. *)
Fixpoint stringify (v : JSValue) : Outcome (option string) :=
  match v with
  | JUndefined => Ok None
  | JNull => Ok (Some "null")
  | JBool true => Ok (Some "true")
  | JBool false => Ok (Some "false")
  | JNum n => Ok (Some (Z_to_string n))
  | JBigInt _ => Throw "Do not know how to serialize a BigInt"
  | JStr s => Ok (Some (quote s))
  | JArr items =>
      match
        (fix each (xs : list JSValue) : Outcome (list string) :=
           match xs with
           | [] => Ok []
           | x :: rest =>
               match stringify x with
               | Throw e => Throw e
               | Ok o =>
                   match each rest with
                   | Throw e => Throw e
                   | Ok parts =>
                       Ok (match o with Some s => s | None => "null" end :: parts)
                   end
               end
           end) items
      with
      | Throw e => Throw e
      | Ok parts => Ok (Some ("[" ^+ String.concat "," parts ^+ "]"))
      end
  | JObj props =>
      match
        (fix each (ps : list (string * JSValue)) : Outcome (list string) :=
           match ps with
           | [] => Ok []
           | (k, x) :: rest =>
               match stringify x with
               | Throw e => Throw e
               | Ok o =>
                   match each rest with
                   | Throw e => Throw e
                   | Ok parts =>
                       Ok (match o with
                           | Some s => (quote k ^+ ":" ^+ s) :: parts
                           | None => parts
                           end)
                   end
               end
           end) props
      with
      | Throw e => Throw e
      | Ok parts => Ok (Some ("{" ^+ String.concat "," parts ^+ "}"))
      end
  end.

End JS.
Import JS.

(** ** Insertion-ordered maps

    A JavaScript [Map] iterates in insertion order, and the code relies on
    it (the first key of the serialization cache is its oldest entry, the
    registry's values are the fan-out order), so a [Map] is an association
    list: [set] overwrites in place or appends. *)

Module JSMap.
Section Map.
Variables K V : Type.
Variable eqb : K -> K -> bool.

Definition t := list (K * V).

Fixpoint get (k : K) (m : t) : option V :=
  match m with
  | [] => None
  | (k', v) :: rest => if eqb k k' then Some v else get k rest
  end.

Definition has (k : K) (m : t) : bool :=
  match get k m with Some _ => true | None => false end.

Fixpoint set (k : K) (v : V) (m : t) : t :=
  match m with
  | [] => [(k, v)]
  | (k', v') :: rest =>
      if eqb k k' then (k', v) :: rest else (k', v') :: set k v rest
  end.

Definition delete (k : K) (m : t) : t :=
  filter (fun kv => negb (eqb k (fst kv))) m.

Definition keys (m : t) : list K := map fst m.
Definition values (m : t) : list V := map snd m.
Definition size (m : t) : Z := Z.of_nat (List.length m).
End Map.
End JSMap.

(** ** logger.ts *)

Inductive LogLevel : Type := LDebug | LInfo | LWarn | LError.

Definition LOG_LEVELS (l : LogLevel) : Z :=
  match l with LDebug => 0 | LInfo => 1 | LWarn => 2 | LError => 3 end.

(** A line of the console.  The source prints
    [[time] [LEVEL] message context]; the entry keeps the level, the message
    and the context object. *)
Record LogEntry : Type := {
  log_level : LogLevel;
  log_message : string;
  log_context : list (string * JSValue)
}.

Record Logger : Type := {
  level : LogLevel;
  console : list LogEntry
}.

Definition shouldLog (lg : Logger) (l : LogLevel) : bool :=
  LOG_LEVELS l >=? LOG_LEVELS (level lg).

Definition Logger_log (l : LogLevel) (message : string)
    (context : list (string * JSValue)) (lg : Logger) : Logger :=
  if shouldLog lg l
  then {| level := level lg;
          console := console lg ++ [{| log_level := l; log_message := message;
                                       log_context := context |}] |}
  else lg.

(** ** latency-monitor.ts *)

(** [minMs] starts at [Infinity], which is [None].  [avgMs] is the double
    [totalMs / count], recomputed by every update from the two fields kept
    here. *)
Record LatencyMetrics : Type := {
  count : Z;
  totalMs : Z;
  minMs : option Z;
  maxMs : Z;
  over100ms : Z
}.

Record LatencyStats : Type := {
  overall : LatencyMetrics;
  byType : JSMap.t string LatencyMetrics;
  lastReportTime : Z
}.

Definition latencyThreshold : Z := 100.

Definition createEmptyMetrics : LatencyMetrics :=
  {| count := 0; totalMs := 0; minMs := None; maxMs := 0; over100ms := 0 |}.

Definition updateMetrics (metrics : LatencyMetrics) (latencyMs : Z) : LatencyMetrics :=
  {| count := count metrics + 1;
     totalMs := totalMs metrics + latencyMs;
     minMs := Some (match minMs metrics with
                    | None => latencyMs
                    | Some m => Z.min m latencyMs
                    end);
     maxMs := Z.max (maxMs metrics) latencyMs;
     over100ms := if latencyMs >? latencyThreshold
                  then over100ms metrics + 1 else over100ms metrics |}.

(** The state change of [recordLatency]; its warning is logged by
    [recordLatency] below, which has the logger. *)
Definition recordLatency_stats (messageType : string) (latencyMs : Z)
    (stats : LatencyStats) : LatencyStats :=
  let byType1 :=
    if negb (JSMap.has String.eqb messageType (byType stats))
    then JSMap.set String.eqb messageType createEmptyMetrics (byType stats)
    else byType stats in
  let typeMetrics :=
    match JSMap.get String.eqb messageType byType1 with
    | Some m => m
    | None => createEmptyMetrics
    end in
  {| overall := updateMetrics (overall stats) latencyMs;
     byType := JSMap.set String.eqb messageType (updateMetrics typeMetrics latencyMs) byType1;
     lastReportTime := lastReportTime stats |}.

(** What [getStats().byType[messageType].count] reads, 0 when the type has
    no entry yet. *)
Definition count_of_type (messageType : string) (stats : LatencyStats) : Z :=
  match JSMap.get String.eqb messageType (byType stats) with
  | Some m => count m
  | None => 0
  end.

(** ** Sockets

    A [WebSocket] object of the ws library, as far as the relay uses it.
    [sent] holds the strings [send] has written to the connection, [pings]
    counts the calls of [ping], [terminated] records a call of [terminate],
    and [isAlive] is the flag the heartbeat keeps on the object. *)

Inductive ReadyState : Type := CONNECTING | OPEN | CLOSING | CLOSED.

Definition ReadyState_eqb (a b : ReadyState) : bool :=
  match a, b with
  | CONNECTING, CONNECTING | OPEN, OPEN | CLOSING, CLOSING | CLOSED, CLOSED => true
  | _, _ => false
  end.

Record Socket : Type := {
  readyState : ReadyState;
  sent : list string;
  isAlive : bool;
  pings : Z;
  terminated : bool
}.

(** A fresh accepted socket. *)
Definition new_socket : Socket :=
  {| readyState := OPEN; sent := []; isAlive := false; pings := 0; terminated := false |}.

(** ** shared/src/types.ts *)

Inductive MessageType : Type := TEvent | TCommand | TQuery | TResponse | TError.
Inductive MessageSource : Type := Mcp | Minecraft.

Definition MessageType_str (t : MessageType) : string :=
  match t with
  | TEvent => "event" | TCommand => "command" | TQuery => "query"
  | TResponse => "response" | TError => "error"
  end.

Definition MessageSource_str (s : MessageSource) : string :=
  match s with Mcp => "mcp" | Minecraft => "minecraft" end.

Definition MessageType_eqb (a b : MessageType) : bool :=
  String.eqb (MessageType_str a) (MessageType_str b).

Definition MessageSource_eqb (a b : MessageSource) : bool :=
  match a, b with Mcp, Mcp | Minecraft, Minecraft => true | _, _ => false end.

(** An object seen through [interface BridgeMessage].  The fields are what
    the code reads and writes through the interface; the two optional ones
    are [None] until a number is assigned to them.  [msg_props] are the own
    properties of the object as they were when it was given its type, in the
    order in which they are enumerated: the cast [as BridgeMessage] changes
    nothing of the object, which keeps the keys the interface does not name
    and the order of all of them.  An object written as a literal of the
    interface has [msg_props = []]. *)
Record BridgeMessage : Type := {
  msg_version : string;
  msg_type : MessageType;
  msg_id : string;
  msg_timestamp : Z;
  msg_source : MessageSource;
  msg_payload : JSValue;
  msg_receivedAt : option Z;
  msg_forwardedAt : option Z;
  msg_props : list (string * JSValue)
}.

Definition set_receivedAt (t : Z) (m : BridgeMessage) : BridgeMessage :=
  {| msg_version := msg_version m; msg_type := msg_type m; msg_id := msg_id m;
     msg_timestamp := msg_timestamp m; msg_source := msg_source m;
     msg_payload := msg_payload m;
     msg_receivedAt := Some t; msg_forwardedAt := msg_forwardedAt m;
     msg_props := msg_props m |}.

Definition set_forwardedAt (t : Z) (m : BridgeMessage) : BridgeMessage :=
  {| msg_version := msg_version m; msg_type := msg_type m; msg_id := msg_id m;
     msg_timestamp := msg_timestamp m; msg_source := msg_source m;
     msg_payload := msg_payload m;
     msg_receivedAt := msg_receivedAt m; msg_forwardedAt := Some t;
     msg_props := msg_props m |}.

(** [obj[k] = v]: a property the object has keeps its place, a new one is
    enumerated last. *)
Definition put (k : string) (v : JSValue) (props : list (string * JSValue))
    : list (string * JSValue) :=
  JSMap.set String.eqb k v props.

Definition put_opt (k : string) (o : option Z) (props : list (string * JSValue))
    : list (string * JSValue) :=
  match o with Some n => put k (JNum n) props | None => props end.

(** The object behind a [BridgeMessage]: its own properties, with the
    fields of the interface as the code has left them.  For a literal of the
    interface these are the keys of the interface, in its order. *)
Definition to_js (m : BridgeMessage) : JSValue :=
  JObj (put_opt "forwardedAt" (msg_forwardedAt m)
       (put_opt "receivedAt" (msg_receivedAt m)
       (put "payload" (msg_payload m)
       (put "source" (JStr (MessageSource_str (msg_source m)))
       (put "timestamp" (JNum (msg_timestamp m))
       (put "id" (JStr (msg_id m))
       (put "type" (JStr (MessageType_str (msg_type m)))
       (put "version" (JStr (msg_version m)) (msg_props m))))))))).

(** [JSON.stringify(message)] *)
Definition JSON_stringify (m : BridgeMessage) : Outcome string :=
  match stringify (to_js m) with
  | Ok (Some s) => Ok s
  | Ok None => Ok "undefined"
  | Throw e => Throw e
  end.

(** ** connection-registry.ts *)

Record ClientInfo : Type := {
  ci_id : string;
  ci_ws : nat;
  ci_type : MessageSource;
  ci_version : string;
  ci_connectedAt : Z
}.

(** ** config.ts *)

Record BridgeConfig : Type := {
  mcpAuthTokens : list string;
  minecraftAuthToken : string
}.

(** ** message-router.ts, the state *)

Record QueuedMessage : Type := {
  qm_message : BridgeMessage;
  qm_sourceClientId : string;
  qm_timestamp : Z
}.

Record RouterState : Type := {
  messageQueue : list QueuedMessage;
  maxQueueSize : Z;
  serializationCache : JSMap.t string string;
  maxCacheSize : Z
}.

(** ** index.ts, the state

    The variables a call of [handleConnection] closes over. *)
Record Connection : Type := {
  clientId : string;
  authenticated : bool;
  clientType : option MessageSource;
  clientVersion : JSValue
}.

(** ** The state of the process

    [clock] is the sequence of values [Date.now()] returns and [now_calls]
    how many of them were consumed.  [sockets] is the heap of socket objects,
    addressed by handle; [wss_clients] is [wss.clients]; [conns] gives, for
    a handle, the closure of the handlers [handleConnection] attached to that
    socket. *)
Record World : Type := {
  clock : nat -> Z;
  now_calls : nat;
  logger : Logger;
  sockets : JSMap.t nat Socket;
  registry : JSMap.t string ClientInfo;
  latency : LatencyStats;
  router : RouterState;
  config : BridgeConfig;
  authenticatedClients : JSMap.t nat MessageSource;
  wss_clients : list nat;
  conns : JSMap.t nat Connection
}.

Definition with_now_calls (n : nat) (w : World) : World :=
  {| clock := clock w; now_calls := n; logger := logger w; sockets := sockets w;
     registry := registry w; latency := latency w; router := router w;
     config := config w; authenticatedClients := authenticatedClients w;
     wss_clients := wss_clients w; conns := conns w |}.

Definition with_logger (l : Logger) (w : World) : World :=
  {| clock := clock w; now_calls := now_calls w; logger := l; sockets := sockets w;
     registry := registry w; latency := latency w; router := router w;
     config := config w; authenticatedClients := authenticatedClients w;
     wss_clients := wss_clients w; conns := conns w |}.

Definition with_sockets (s : JSMap.t nat Socket) (w : World) : World :=
  {| clock := clock w; now_calls := now_calls w; logger := logger w; sockets := s;
     registry := registry w; latency := latency w; router := router w;
     config := config w; authenticatedClients := authenticatedClients w;
     wss_clients := wss_clients w; conns := conns w |}.

Definition with_registry (r : JSMap.t string ClientInfo) (w : World) : World :=
  {| clock := clock w; now_calls := now_calls w; logger := logger w; sockets := sockets w;
     registry := r; latency := latency w; router := router w;
     config := config w; authenticatedClients := authenticatedClients w;
     wss_clients := wss_clients w; conns := conns w |}.

Definition with_latency (l : LatencyStats) (w : World) : World :=
  {| clock := clock w; now_calls := now_calls w; logger := logger w; sockets := sockets w;
     registry := registry w; latency := l; router := router w;
     config := config w; authenticatedClients := authenticatedClients w;
     wss_clients := wss_clients w; conns := conns w |}.

Definition with_router (r : RouterState) (w : World) : World :=
  {| clock := clock w; now_calls := now_calls w; logger := logger w; sockets := sockets w;
     registry := registry w; latency := latency w; router := r;
     config := config w; authenticatedClients := authenticatedClients w;
     wss_clients := wss_clients w; conns := conns w |}.

Definition with_authenticatedClients (a : JSMap.t nat MessageSource) (w : World) : World :=
  {| clock := clock w; now_calls := now_calls w; logger := logger w; sockets := sockets w;
     registry := registry w; latency := latency w; router := router w;
     config := config w; authenticatedClients := a;
     wss_clients := wss_clients w; conns := conns w |}.

Definition with_wss_clients (c : list nat) (w : World) : World :=
  {| clock := clock w; now_calls := now_calls w; logger := logger w; sockets := sockets w;
     registry := registry w; latency := latency w; router := router w;
     config := config w; authenticatedClients := authenticatedClients w;
     wss_clients := c; conns := conns w |}.

Definition with_conns (c : JSMap.t nat Connection) (w : World) : World :=
  {| clock := clock w; now_calls := now_calls w; logger := logger w; sockets := sockets w;
     registry := registry w; latency := latency w; router := router w;
     config := config w; authenticatedClients := authenticatedClients w;
     wss_clients := wss_clients w; conns := c |}.

Definition with_messageQueue (q : list QueuedMessage) (r : RouterState) : RouterState :=
  {| messageQueue := q; maxQueueSize := maxQueueSize r;
     serializationCache := serializationCache r; maxCacheSize := maxCacheSize r |}.

Definition with_serializationCache (c : JSMap.t string string) (r : RouterState) : RouterState :=
  {| messageQueue := messageQueue r; maxQueueSize := maxQueueSize r;
     serializationCache := c; maxCacheSize := maxCacheSize r |}.

(** ** Stateful computations that may throw *)

Definition M (A : Type) : Type := World -> Outcome A * World.

Definition ret {A : Type} (a : A) : M A := fun w => (Ok a, w).

Definition throw {A : Type} (e : string) : M A := fun w => (Throw e, w).

Definition bind {A B : Type} (c : M A) (k : A -> M B) : M B :=
  fun w =>
    match c w with
    | (Ok a, w') => k a w'
    | (Throw e, w') => (Throw e, w')
    end.

(** [try { body } catch (error) { handler }]: what [body] did to the state
    before it threw stays done. *)
Definition try_catch {A : Type} (body : M A) (handler : string -> M A) : M A :=
  fun w =>
    match body w with
    | (Ok a, w') => (Ok a, w')
    | (Throw e, w') => handler e w'
    end.

Definition lift {A : Type} (o : Outcome A) : M A := fun w => (o, w).

Definition modify (f : World -> World) : M unit := fun w => (Ok tt, f w).

Definition gets {A : Type} (f : World -> A) : M A := fun w => (Ok (f w), w).

Notation "x <- c ;; k" := (bind c (fun x => k))
  (at level 61, c at next level, right associativity).
Notation "c ;;; k" := (bind c (fun _ => k))
  (at level 61, right associativity).

(** [Date.now()] *)
Definition Date_now : M Z :=
  fun w => (Ok (clock w (now_calls w)), with_now_calls (S (now_calls w)) w).

Definition log (l : LogLevel) (message : string) (context : list (string * JSValue)) : M unit :=
  modify (fun w => with_logger (Logger_log l message context (logger w)) w).

(** ** The ws library's socket methods

    The library is the one that exports [WebSocketServer] (ws 8).  Its
    [send] throws while the socket is CONNECTING, writes the data when the
    socket is OPEN, and on a socket that is CLOSING or CLOSED returns without
    writing anything: the error goes to the callback of the call, and the
    relay passes none.  [close] starts the closing handshake and [terminate]
    destroys the connection; after either the library emits the socket's
    [close] event ([emit_close] below).  [ping] returns normally on an
    accepted socket.  A handle with no socket object behind it occurs in no
    state of the server; a call on it throws, as a call on [undefined]
    does. *)

Definition update_socket (h : nat) (f : Socket -> Socket) : M unit :=
  modify (fun w =>
    match JSMap.get Nat.eqb h (sockets w) with
    | Some s => with_sockets (JSMap.set Nat.eqb h (f s) (sockets w)) w
    | None => w
    end).

Definition with_readyState (r : ReadyState) (s : Socket) : Socket :=
  {| readyState := r; sent := sent s; isAlive := isAlive s; pings := pings s;
     terminated := terminated s |}.

Definition with_sent (l : list string) (s : Socket) : Socket :=
  {| readyState := readyState s; sent := l; isAlive := isAlive s; pings := pings s;
     terminated := terminated s |}.

Definition with_isAlive (b : bool) (s : Socket) : Socket :=
  {| readyState := readyState s; sent := sent s; isAlive := b; pings := pings s;
     terminated := terminated s |}.

Definition with_pings (n : Z) (s : Socket) : Socket :=
  {| readyState := readyState s; sent := sent s; isAlive := isAlive s; pings := n;
     terminated := terminated s |}.

Definition with_terminated (b : bool) (s : Socket) : Socket :=
  {| readyState := readyState s; sent := sent s; isAlive := isAlive s; pings := pings s;
     terminated := b |}.

(** Whether the socket is OPEN: what [send] is given is written to the
    connection. *)
Definition is_open (h : nat) (socks : JSMap.t nat Socket) : bool :=
  match JSMap.get Nat.eqb h socks with
  | Some s => ReadyState_eqb (readyState s) OPEN
  | None => false
  end.

Definition can_send (h : nat) (w : World) : bool := is_open h (sockets w).

(** What [send] on the socket throws, if it throws. *)
Definition send_error (h : nat) (w : World) : option string :=
  match JSMap.get Nat.eqb h (sockets w) with
  | Some s =>
      match readyState s with
      | CONNECTING => Some "WebSocket is not open: readyState 0 (CONNECTING)"
      | _ => None
      end
  | None => Some "Cannot read properties of undefined (reading 'send')"
  end.

(** Whether [send] on the socket returns. *)
Definition send_returns (h : nat) (w : World) : bool :=
  match send_error h w with Some _ => false | None => true end.

Definition ws_send (h : nat) (data : string) : M unit :=
  fun w =>
    match send_error h w with
    | Some e => (Throw e, w)
    | None =>
        if can_send h w
        then update_socket h (fun s => with_sent (sent s ++ [data]) s) w
        else (Ok tt, w)
    end.

Definition ws_close (h : nat) : M unit :=
  update_socket h (fun s =>
    match readyState s with
    | OPEN | CONNECTING => with_readyState CLOSING s
    | CLOSING | CLOSED => s
    end).

Definition ws_terminate (h : nat) : M unit :=
  update_socket h (fun s =>
    match readyState s with
    | CLOSED => s
    | _ => with_terminated true (with_readyState CLOSING s)
    end).

Definition ws_ping (h : nat) : M unit :=
  update_socket h (fun s => with_pings (pings s + 1) s).

Definition ws_set_isAlive (h : nat) (b : bool) : M unit :=
  update_socket h (with_isAlive b).

(** ** connection-registry.ts *)

Definition addClient (id : string) (ws : nat) (type : MessageSource) (version : string) : M unit :=
  now <- Date_now ;;
  modify (fun w => with_registry
    (JSMap.set String.eqb id
       {| ci_id := id; ci_ws := ws; ci_type := type; ci_version := version;
          ci_connectedAt := now |} (registry w)) w) ;;;
  log LInfo "Client registered"
    [("id", JStr id); ("type", JStr (MessageSource_str type)); ("version", JStr version)].

Definition removeClient (id : string) : M unit :=
  client <- gets (fun w => JSMap.get String.eqb id (registry w)) ;;
  match client with
  | Some c =>
      modify (fun w => with_registry (JSMap.delete String.eqb id (registry w)) w) ;;;
      log LInfo "Client unregistered"
        [("id", JStr id); ("type", JStr (MessageSource_str (ci_type c)))]
  | None => ret tt
  end.

Definition getMCPClients : M (list ClientInfo) :=
  gets (fun w => filter (fun c => MessageSource_eqb (ci_type c) Mcp)
                        (JSMap.values (registry w))).

Definition getMinecraftClients : M (list ClientInfo) :=
  gets (fun w => filter (fun c => MessageSource_eqb (ci_type c) Minecraft)
                        (JSMap.values (registry w))).

(** ** latency-monitor.ts, [recordLatency] *)

Definition recordLatency (messageType : string) (latencyMs : Z) : M unit :=
  modify (fun w => with_latency (recordLatency_stats messageType latencyMs (latency w)) w) ;;;
  if latencyMs >? latencyThreshold
  then log LWarn "Message forwarding exceeded latency threshold"
         [("messageType", JStr messageType); ("latencyMs", JNum latencyMs);
          ("thresholdMs", JNum latencyThreshold)]
  else ret tt.

(** ** message-router.ts *)

Definition queueMessage (message : BridgeMessage) (sourceClientId : string) : M unit :=
  q <- gets (fun w => messageQueue (router w)) ;;
  cap <- gets (fun w => maxQueueSize (router w)) ;;
  (if Z.of_nat (List.length q) >=? cap
   then
     (* this.messageQueue.shift() *)
     modify (fun w => with_router (with_messageQueue (tl (messageQueue (router w))) (router w)) w) ;;;
     len <- gets (fun w => Z.of_nat (List.length (messageQueue (router w)))) ;;
     log LWarn "Message queue overflow, oldest message dropped"
       [("droppedMessageId",
         match q with
         | removed :: _ => JStr (msg_id (qm_message removed))
         | [] => JUndefined
         end);
        ("queueSize", JNum len)]
   else ret tt) ;;;
  now <- Date_now ;;
  modify (fun w => with_router
    (with_messageQueue
       (messageQueue (router w) ++
        [{| qm_message := message; qm_sourceClientId := sourceClientId;
            qm_timestamp := now |}])
       (router w)) w).

(** The cache key [`${message.id}_${message.timestamp}`]. *)
Definition cacheKey (message : BridgeMessage) : string :=
  msg_id message ^+ "_" ^+ Z_to_string (msg_timestamp message).

Definition serializeMessage (message : BridgeMessage) : M string :=
  cache <- gets (fun w => serializationCache (router w)) ;;
  match JSMap.get String.eqb (cacheKey message) cache with
  | Some cached => ret cached
  | None =>
      serialized <- lift (JSON_stringify message) ;;
      cap <- gets (fun w => maxCacheSize (router w)) ;;
      (if JSMap.size cache >=? cap
       then
         match JSMap.keys cache with
         | firstKey :: _ =>
             modify (fun w => with_router
               (with_serializationCache
                  (JSMap.delete String.eqb firstKey (serializationCache (router w)))
                  (router w)) w)
         | [] => ret tt
         end
       else ret tt) ;;;
      modify (fun w => with_router
        (with_serializationCache
           (JSMap.set String.eqb (cacheKey message) serialized
              (serializationCache (router w)))
           (router w)) w) ;;;
      ret serialized
  end.

(** One turn of the loop [for (const dest of destinations)] of
    [routeMessage]: the [try] with its [catch], carrying [successCount]. *)
Definition forward_one (routeStart : Z) (message : BridgeMessage) (messageStr : string)
    (dest : ClientInfo) (successCount : Z) : M Z :=
  try_catch
    (ws_send (ci_ws dest) messageStr ;;;
     now <- Date_now ;;
     let forwardLatency := now - routeStart in
     recordLatency (MessageType_str (msg_type message)) forwardLatency ;;;
     log LDebug "Message forwarded"
       [("messageId", JStr (msg_id message));
        ("type", JStr (MessageType_str (msg_type message)));
        ("source", JStr (MessageSource_str (msg_source message)));
        ("destinationId", JStr (ci_id dest));
        ("latencyMs", JNum forwardLatency)] ;;;
     ret (successCount + 1))
    (fun error =>
     log LError "Failed to forward message to client"
       [("messageId", JStr (msg_id message));
        ("destinationId", JStr (ci_id dest));
        ("error", JStr error)] ;;;
     ret successCount).

(** The loop. *)
Fixpoint forward (routeStart : Z) (message : BridgeMessage) (messageStr : string)
    (destinations : list ClientInfo) (successCount : Z) : M Z :=
  match destinations with
  | [] => ret successCount
  | dest :: rest =>
      n <- forward_one routeStart message messageStr dest successCount ;;
      forward routeStart message messageStr rest n
  end.

(** [routeMessage] is declared [async] and awaits nothing: it runs to its
    end when called, and a throw is the rejection of the promise it returns.
    The result is the caller's message object as the call left it. *)
Definition routeMessage (message : BridgeMessage) (sourceClientId : string) : M BridgeMessage :=
  routeStart <- Date_now ;;
  try_catch
    (let message := set_receivedAt routeStart message in
     destinations <- match msg_source message with
                     | Mcp => getMinecraftClients
                     | Minecraft => getMCPClients
                     end ;;
     if Nat.eqb (List.length destinations) 0
     then
       queueMessage message sourceClientId ;;;
       len <- gets (fun w => Z.of_nat (List.length (messageQueue (router w)))) ;;
       log LWarn "No destination clients available, message queued"
         [("messageId", JStr (msg_id message));
          ("source", JStr (MessageSource_str (msg_source message)));
          ("queueSize", JNum len)] ;;;
       ret message
     else
       now <- Date_now ;;
       let message := set_forwardedAt now message in
       messageStr <- serializeMessage message ;;
       successCount <- forward routeStart message messageStr destinations 0 ;;
       (if successCount =? 0
        then queueMessage message sourceClientId
        else ret tt) ;;;
       ret message)
    (fun error =>
       log LError "Error routing message"
         [("messageId", JStr (msg_id message)); ("error", JStr error)] ;;;
       throw error).

(** [processQueue].  Each [routeMessage(...)] runs to its end inside the
    loop; the [.catch] callbacks of the rejected ones run once the loop is
    over, and only log. *)
Fixpoint processQueue_each (messagesToProcess : list QueuedMessage)
    : M (list (QueuedMessage * string)) :=
  match messagesToProcess with
  | [] => ret []
  | queued :: rest =>
      r <- try_catch
             (routeMessage (qm_message queued) (qm_sourceClientId queued) ;;; ret None)
             (fun error => ret (Some error)) ;;
      rs <- processQueue_each rest ;;
      ret (match r with Some error => (queued, error) :: rs | None => rs end)
  end.

Fixpoint processQueue_catch (rejected : list (QueuedMessage * string)) : M unit :=
  match rejected with
  | [] => ret tt
  | (queued, error) :: rest =>
      log LError "Error processing queued message"
        [("messageId", JStr (msg_id (qm_message queued))); ("error", JStr error)] ;;;
      processQueue_catch rest
  end.

Definition processQueue : M unit :=
  q <- gets (fun w => messageQueue (router w)) ;;
  if Nat.eqb (List.length q) 0
  then ret tt
  else
    log LInfo "Processing queued messages" [("count", JNum (Z.of_nat (List.length q)))] ;;;
    modify (fun w => with_router (with_messageQueue [] (router w)) w) ;;;
    rejected <- processQueue_each q ;;
    processQueue_catch rejected.

Definition getQueueSize (w : World) : Z := Z.of_nat (List.length (messageQueue (router w))).

(** [typeof v === t] *)
Definition is_type (v : JSValue) (t : string) : bool := String.eqb (typeof v) t.

(** ** auth.ts *)

Record AuthResult : Type := {
  success : bool;
  auth_clientType : option MessageSource;
  auth_error : option string
}.

Record AuthzResult : Type := {
  authorized : bool;
  reason : option string
}.

(** [authenticate] runs on the first message of a connection, before any
    validation: the message is whatever [JSON.parse] returned. *)
Definition authenticate (message : JSValue) (ws : nat) : M AuthResult :=
  payload <- lift (get message "payload") ;;
  let authToken := get_opt payload "authToken" in
  if negb (truthy authToken) || negb (is_type authToken "string")
  then
    log LWarn "Authentication failed: missing token" [] ;;;
    ret {| success := false; auth_clientType := None;
           auth_error := Some "Missing authentication token" |}
  else
    cfg <- gets config ;;
    if includes (mcpAuthTokens cfg) authToken
    then
      modify (fun w => with_authenticatedClients
                (JSMap.set Nat.eqb ws Mcp (authenticatedClients w)) w) ;;;
      ret {| success := true; auth_clientType := Some Mcp; auth_error := None |}
    else if eq_str authToken (minecraftAuthToken cfg)
    then
      modify (fun w => with_authenticatedClients
                (JSMap.set Nat.eqb ws Minecraft (authenticatedClients w)) w) ;;;
      ret {| success := true; auth_clientType := Some Minecraft; auth_error := None |}
    else
      log LWarn "Authentication failed: invalid token" [] ;;;
      ret {| success := false; auth_clientType := None;
             auth_error := Some "Invalid authentication token" |}.

Definition dangerousCommands : list string := ["stop"; "restart"; "op"; "deop"].

(** [dangerousCommands.some(cmd => command?.startsWith(cmd))]: [undefined]
    and [null] pass the [?.]; a value that is neither nullish nor a string
    has no [startsWith], and calling it throws. *)
Definition is_dangerous (command : JSValue) : Outcome bool :=
  match command with
  | JUndefined | JNull => Ok false
  | JStr c => Ok (existsb (fun cmd => String.prefix cmd c) dangerousCommands)
  | _ => Throw "command?.startsWith is not a function"
  end.

Definition authorize (clientType : MessageSource) (message : BridgeMessage) : M AuthzResult :=
  if (MessageType_eqb (msg_type message) TCommand || MessageType_eqb (msg_type message) TQuery)
     && negb (MessageSource_eqb clientType Mcp)
  then ret {| authorized := false;
              reason := Some "Only MCP clients can send commands and queries" |}
  else if MessageType_eqb (msg_type message) TEvent
          && negb (MessageSource_eqb clientType Minecraft)
  then ret {| authorized := false;
              reason := Some "Only Minecraft clients can send events" |}
  else if MessageType_eqb (msg_type message) TCommand
  then
    let command := get_opt (msg_payload message) "command" in
    dangerous <- lift (is_dangerous command) ;;
    if dangerous
    then
      log LWarn "Blocked dangerous command" [("command", command)] ;;;
      name <- lift (to_string command) ;;
      ret {| authorized := false;
             reason := Some ("Command '" ^+ name ^+ "' is not permitted") |}
    else ret {| authorized := true; reason := None |}
  else ret {| authorized := true; reason := None |}.

(** ** validation.ts *)

Record ValidationResult : Type := {
  valid : bool;
  errors : option (list string)
}.

Definition VALID_MESSAGE_TYPES : list string :=
  ["event"; "command"; "query"; "response"; "error"].
Definition VALID_MESSAGE_SOURCES : list string := ["mcp"; "minecraft"].

(** [errors.push(e)] when [cond] holds. *)
Definition push_if (cond : bool) (e : string) (errors : list string) : list string :=
  if cond then errors ++ [e] else errors.

(** The three type-specific blocks of [validateMessage]; each extends the
    array of errors found so far. *)
Definition validate_command (type payload : JSValue) (errors : list string) : list string :=
  if eq_str type "command" then
    if negb (truthy payload) || negb (is_type payload "object")
    then errors ++ ["Command message must have object payload"]
    else
      let command := get_opt payload "command" in
      let args := get_opt payload "args" in
      let errors := push_if (negb (truthy command) || negb (is_type command "string"))
                      "Command payload must have command field" errors in
      push_if (negb (truthy args) || negb (is_type args "object"))
        "Command payload must have args field" errors
  else errors.

Definition validate_response (type payload : JSValue) (errors : list string) : list string :=
  if eq_str type "response" then
    if negb (truthy payload) || negb (is_type payload "object")
    then errors ++ ["Response message must have object payload"]
    else
      push_if (negb (is_type (get_opt payload "success") "boolean"))
        "Response payload must have boolean success field" errors
  else errors.

Definition validate_event (type payload : JSValue) (errors : list string) : list string :=
  if eq_str type "event" then
    if negb (truthy payload) || negb (is_type payload "object")
    then errors ++ ["Event message must have object payload"]
    else
      let eventType := get_opt payload "eventType" in
      let timestamp := get_opt payload "timestamp" in
      let errors := push_if (negb (truthy eventType) || negb (is_type eventType "string"))
                      "Event payload must have eventType field" errors in
      let errors := push_if (negb (truthy timestamp) || negb (is_type timestamp "number"))
                      "Event payload must have timestamp field" errors in
      push_if (negb (truthy (get_opt payload "data")))
        "Event payload must have data field" errors
  else errors.

(** [errors.push(`${prefix}${v}`)] when [cond] holds.  The template
    literal is evaluated only then, and it throws when [v] has no string
    form. *)
Definition push_template_if (cond : bool) (prefix : string) (v : JSValue)
    (errors : list string) : Outcome (list string) :=
  if cond
  then match to_string v with
       | Ok s => Ok (errors ++ [prefix ^+ s])
       | Throw e => Throw e
       end
  else Ok errors.

(** The checks of the envelope fields. *)
Definition validate_envelope (version type id timestamp source payload : JSValue)
    : Outcome (list string) :=
  let errors := [] in
  let errors := push_if (negb (truthy version) || negb (is_type version "string"))
                  "Missing or invalid version field" errors in
  match push_template_if (negb (truthy type) || negb (includes VALID_MESSAGE_TYPES type))
          "Invalid message type: " type errors with
  | Throw e => Throw e
  | Ok errors =>
      let errors := push_if (negb (truthy id) || negb (is_type id "string"))
                      "Missing or invalid id field" errors in
      let errors := push_if (negb (truthy timestamp) || negb (is_type timestamp "number"))
                      "Missing or invalid timestamp field" errors in
      match push_template_if
              (negb (truthy source) || negb (includes VALID_MESSAGE_SOURCES source))
              "Invalid message source: " source errors with
      | Throw e => Throw e
      | Ok errors => Ok (push_if (is_undefined payload) "Missing payload field" errors)
      end
  end.

(** [validateMessage(message: any)].  Reading [message.version] throws when
    [message] is [null] or [undefined]; once that read has returned, no later
    read can throw.  The two template literals of the envelope checks throw
    on a [type] or a [source] that has no string form. *)
Definition validateMessage (message : JSValue) : Outcome ValidationResult :=
  match get message "version" with
  | Throw e => Throw e
  | Ok version =>
      let type := get_opt message "type" in
      let payload := get_opt message "payload" in
      match validate_envelope version type (get_opt message "id")
              (get_opt message "timestamp") (get_opt message "source") payload with
      | Throw e => Throw e
      | Ok errors =>
          let errors := validate_command type payload errors in
          let errors := validate_response type payload errors in
          let errors := validate_event type payload errors in
          Ok {| valid := Nat.eqb (List.length errors) 0;
                errors := if Nat.ltb 0 (List.length errors) then Some errors else None |}
      end
  end.

(** ** index.ts *)

Definition VERSION : string := "1.0.0".

(** The error codes of shared/src/types.ts that the server sends. *)
Definition AUTH_FAILED : string := "AUTH_FAILED".
Definition PERMISSION_DENIED : string := "PERMISSION_DENIED".
Definition SCHEMA_ERROR : string := "SCHEMA_ERROR".
Definition SERVER_ERROR : string := "SERVER_ERROR".

(** The object [sendError] serializes. *)
Definition errorMessage (messageId : JSValue) (now : Z) (code message : string) : JSValue :=
  JObj [("version", JStr VERSION);
        ("type", JStr "error");
        ("id", messageId);
        ("timestamp", JNum now);
        ("source", JStr "minecraft");
        ("payload", JObj [("success", JBool false);
                          ("error", JObj [("code", JStr code);
                                          ("message", JStr message)])])].

Definition stringify_text (v : JSValue) : Outcome string :=
  match stringify v with
  | Ok (Some s) => Ok s
  | Ok None => Ok "undefined"
  | Throw e => Throw e
  end.

Definition sendError (ws : nat) (messageId : JSValue) (code message : string) : M unit :=
  now <- Date_now ;;
  text <- lift (stringify_text (errorMessage messageId now code message)) ;;
  ws_send ws text.

(** The object [sendResponse] serializes. *)
Definition responseMessage (messageId : JSValue) (now : Z) (payload : JSValue) : JSValue :=
  JObj [("version", JStr VERSION);
        ("type", JStr "response");
        ("id", messageId);
        ("timestamp", JNum now);
        ("source", JStr "minecraft");
        ("payload", payload)].

Definition sendResponse (ws : nat) (messageId : JSValue) (payload : JSValue) : M unit :=
  now <- Date_now ;;
  text <- lift (stringify_text (responseMessage messageId now payload)) ;;
  ws_send ws text.

(** [s.split('.')[0]] *)
Fixpoint first_segment (s : string) : string :=
  match s with
  | EmptyString => EmptyString
  | String c rest =>
      if Ascii.eqb c "."%char then EmptyString else String c (first_segment rest)
  end.

(** [negotiateVersion(clientVersion)], its [compatible] field.  A value that
    is not a string has no [split]. *)
Definition negotiateVersion (clientVersion : JSValue) : Outcome bool :=
  match clientVersion with
  | JStr v => Ok (String.eqb (first_segment v) (first_segment VERSION))
  | _ => Throw "clientVersion.split is not a function"
  end.

(** The cast [as BridgeMessage] of a message that passed [validateMessage]:
    the typed view of the parsed object, which stays the object it was.  It
    is [None] on values the interface does not describe. *)
Definition parse_type (v : JSValue) : option MessageType :=
  if eq_str v "event" then Some TEvent
  else if eq_str v "command" then Some TCommand
  else if eq_str v "query" then Some TQuery
  else if eq_str v "response" then Some TResponse
  else if eq_str v "error" then Some TError
  else None.

Definition parse_source (v : JSValue) : option MessageSource :=
  if eq_str v "mcp" then Some Mcp
  else if eq_str v "minecraft" then Some Minecraft
  else None.

Definition num_opt (v : JSValue) : option Z :=
  match v with JNum n => Some n | _ => None end.

Definition as_BridgeMessage (v : JSValue) : option BridgeMessage :=
  match get_opt v "version", parse_type (get_opt v "type"), get_opt v "id",
        get_opt v "timestamp", parse_source (get_opt v "source") with
  | JStr version, Some type, JStr id, JNum timestamp, Some source =>
      Some {| msg_version := version; msg_type := type; msg_id := id;
              msg_timestamp := timestamp; msg_source := source;
              msg_payload := get_opt v "payload";
              msg_receivedAt := num_opt (get_opt v "receivedAt");
              msg_forwardedAt := num_opt (get_opt v "forwardedAt");
              msg_props := match v with JObj props => props | _ => [] end |}
  | _, _, _, _, _ => None
  end.

Definition with_authenticated (b : bool) (c : Connection) : Connection :=
  {| clientId := clientId c; authenticated := b; clientType := clientType c;
     clientVersion := clientVersion c |}.

Definition with_clientType (t : option MessageSource) (c : Connection) : Connection :=
  {| clientId := clientId c; authenticated := authenticated c; clientType := t;
     clientVersion := clientVersion c |}.

Definition with_clientVersion (v : JSValue) (c : Connection) : Connection :=
  {| clientId := clientId c; authenticated := authenticated c; clientType := clientType c;
     clientVersion := v |}.

(** Assignment to the closure variables of the connection on socket [ws]. *)
Definition update_conn (ws : nat) (f : Connection -> Connection) : M unit :=
  modify (fun w =>
    match JSMap.get Nat.eqb ws (conns w) with
    | Some c => with_conns (JSMap.set Nat.eqb ws (f c) (conns w)) w
    | None => w
    end).

Definition opt_str (o : option string) (default : string) : string :=
  match o with
  | Some s => if String.eqb s EmptyString then default else s
  | None => default
  end.

(** The body of the [try] of the [message] handler.  [parsed] is the result
    of [JSON.parse(data.toString())], [None] when it throws. *)
Definition message_handler_body (ws : nat) (c : Connection) (parsed : option JSValue) : M unit :=
  message <- lift (match parsed with
                   | Some v => Ok v
                   | None => Throw "Unexpected token in JSON"
                   end) ;;
  if negb (authenticated c)
  then
    authResult <- authenticate message ws ;;
    if negb (success authResult)
    then
      messageId <- lift (get message "id") ;;
      sendError ws messageId AUTH_FAILED (opt_str (auth_error authResult) "Authentication failed") ;;;
      ws_close ws
    else
      version <- lift (get message "version") ;;
      update_conn ws (fun c => with_clientVersion version
                                 (with_clientType (auth_clientType authResult)
                                    (with_authenticated true c))) ;;;
      compatible <- lift (negotiateVersion version) ;;
      (if negb compatible
       then log LWarn "Version mismatch"
              [("clientVersion", version); ("serverVersion", JStr VERSION);
               ("clientId", JStr (clientId c))]
       else ret tt) ;;;
      (* [authResult.clientType!] and the version, a string once
         [negotiateVersion] has returned *)
      match auth_clientType authResult, version with
      | Some type, JStr v =>
          addClient (clientId c) ws type v ;;;
          log LInfo "Client authenticated"
            [("clientId", JStr (clientId c)); ("clientType", JStr (MessageSource_str type));
             ("version", version)] ;;;
          messageId <- lift (get message "id") ;;
          sendResponse ws messageId
            (JObj [("success", JBool true); ("data", JObj [("version", JStr VERSION)])])
      | _, _ => throw "unreachable"
      end
  else
    validationResult <- lift (validateMessage message) ;;
    if negb (valid validationResult)
    then
      log LWarn "Message validation failed"
        [("clientId", JStr (clientId c));
         ("errors", match errors validationResult with
                    | Some es => JArr (map JStr es)
                    | None => JUndefined
                    end)] ;;;
      messageId <- lift (get message "id") ;;
      sendError ws messageId SCHEMA_ERROR
        (opt_str (option_map (String.concat ", ") (errors validationResult))
           "Invalid message schema")
    else
      (* [message] as a [BridgeMessage] and [clientType!]: both are defined
         here, see [validateMessage_typed] *)
      match as_BridgeMessage message, clientType c with
      | Some m, Some type =>
          proceed <-
            (if MessageType_eqb (msg_type m) TCommand
             then
               authzResult <- authorize type m ;;
               if negb (authorized authzResult)
               then
                 log LWarn "Command authorization failed"
                   [("clientId", JStr (clientId c));
                    ("clientType", JStr (MessageSource_str type));
                    ("command", get_opt (msg_payload m) "command")] ;;;
                 sendError ws (JStr (msg_id m)) PERMISSION_DENIED
                   (opt_str (reason authzResult) "Not authorized") ;;;
                 ret false
               else ret true
             else ret true) ;;
          if proceed
          then
            log LDebug "Message received for routing"
              [("messageId", JStr (msg_id m));
               ("type", JStr (MessageType_str (msg_type m)));
               ("source", JStr (MessageSource_str (msg_source m)));
               ("clientId", JStr (clientId c))] ;;;
            routeMessage m (clientId c) ;;;
            ret tt
          else ret tt
      | _, _ => throw "unreachable"
      end.

(** The [message] event of socket [ws]: the handler with its [catch]. *)
Definition on_message (ws : nat) (parsed : option JSValue) : M unit :=
  closure <- gets (fun w => JSMap.get Nat.eqb ws (conns w)) ;;
  match closure with
  | None => ret tt
  | Some c =>
      try_catch
        (message_handler_body ws c parsed)
        (fun error =>
           log LError "Error processing message"
             [("clientId", JStr (clientId c)); ("error", JStr error)] ;;;
           try_catch
             (message <- lift (match parsed with
                               | Some v => Ok v
                               | None => Throw "Unexpected token in JSON"
                               end) ;;
              id <- lift (get message "id") ;;
              let messageId := if truthy id then id else JStr "unknown" in
              sendError ws messageId SERVER_ERROR "Internal server error")
             (fun _ => ret tt))
  end.

(** The [close] handler of the connection. *)
Definition on_close (ws : nat) : M unit :=
  closure <- gets (fun w => JSMap.get Nat.eqb ws (conns w)) ;;
  match closure with
  | None => ret tt
  | Some c =>
      if authenticated c && negb (String.eqb (clientId c) EmptyString)
      then
        removeClient (clientId c) ;;;
        log LInfo "Client disconnected"
          [("clientId", JStr (clientId c));
           ("clientType", match clientType c with
                          | Some t => JStr (MessageSource_str t)
                          | None => JNull
                          end)]
      else ret tt
  end.

(** The [pong] handler of the connection. *)
Definition on_pong (ws : nat) : M unit := ws_set_isAlive ws true.

(** [handleConnection(ws, req)] for a socket the server has just accepted.
    [suffix] is [Math.random().toString(36).substr(2, 9)]. *)
Definition handleConnection (ws : nat) (suffix : string) : M unit :=
  now <- Date_now ;;
  let id := "client_" ^+ Z_to_string now ^+ "_" ^+ suffix in
  log LInfo "New connection attempt" [("clientId", JStr id)] ;;;
  modify (fun w => with_conns
    (JSMap.set Nat.eqb ws
       {| clientId := id; authenticated := false; clientType := None;
          clientVersion := JNull |} (conns w)) w) ;;;
  ws_set_isAlive ws true.

(** The library accepting a connection: the socket object is created and
    added to [wss.clients], and the [connection] event runs
    [handleConnection]. *)
Definition accept (ws : nat) (suffix : string) : M unit :=
  modify (fun w => with_wss_clients (wss_clients w ++ [ws])
                     (with_sockets (JSMap.set Nat.eqb ws new_socket (sockets w)) w)) ;;;
  handleConnection ws suffix.

(** The library closing a socket: it becomes CLOSED, leaves [wss.clients],
    and its [close] event runs the connection's handler. *)
Definition emit_close (ws : nat) : M unit :=
  update_socket ws (with_readyState CLOSED) ;;;
  modify (fun w => with_wss_clients
                     (filter (fun h => negb (Nat.eqb h ws)) (wss_clients w)) w) ;;;
  on_close ws.

(** [checkHeartbeats]: the [forEach] over [wss.clients]. *)
Fixpoint checkHeartbeats_each (clients : list nat) : M unit :=
  match clients with
  | [] => ret tt
  | ws :: rest =>
      alive <- gets (fun w => match JSMap.get Nat.eqb ws (sockets w) with
                              | Some s => isAlive s
                              | None => true
                              end) ;;
      (if negb alive
       then
         log LWarn "Client failed heartbeat check, terminating connection" [] ;;;
         ws_terminate ws
       else
         ws_set_isAlive ws false ;;;
         ws_ping ws) ;;;
      checkHeartbeats_each rest
  end.

Definition checkHeartbeats : M unit :=
  clients <- gets wss_clients ;;
  checkHeartbeats_each clients.

(** ** reconnection.ts

    The manager lives in a client process of the relay.  Its state is the
    fields of the object, the sockets it has created (each carries the
    handlers [attemptConnection] attached), and its pending timers.
    [scheduled] is the trace of the delays given to [setTimeout].  The
    callbacks [onConnect], [onMessage] and [onError] belong to the user of
    the manager and are outside the model, and so are the [message] and
    [error] events, whose handlers only log and call them. *)

Module Reconnection.

Record ReconnectionConfig : Type := {
  maxAttempts : Z;
  initialDelay : Z;
  maxDelay : Z
}.

Record Manager : Type := {
  url : string;
  url_ok : bool;  (* [new WebSocket(url)] returns; it throws on a malformed url *)
  config : ReconnectionConfig;
  logger : Logger;
  attempts : Z;
  reconnectTimeout : option nat;
  ws : option nat;
  socks : list ReadyState;
  timers : list (nat * Z);
  next_timer : nat;
  scheduled : list Z
}.

(** The object the constructor returns. *)
Definition new (url : string) (url_ok : bool) (config : ReconnectionConfig)
    (logger : Logger) : Manager :=
  {| url := url; url_ok := url_ok; config := config; logger := logger; attempts := 0;
     reconnectTimeout := None; ws := None; socks := []; timers := [];
     next_timer := 0; scheduled := [] |}.

Definition with_logger (l : Logger) (m : Manager) : Manager :=
  {| url := url m; url_ok := url_ok m; config := config m; logger := l; attempts := attempts m;
     reconnectTimeout := reconnectTimeout m; ws := ws m; socks := socks m;
     timers := timers m; next_timer := next_timer m; scheduled := scheduled m |}.

Definition with_attempts (a : Z) (m : Manager) : Manager :=
  {| url := url m; url_ok := url_ok m; config := config m; logger := logger m; attempts := a;
     reconnectTimeout := reconnectTimeout m; ws := ws m; socks := socks m;
     timers := timers m; next_timer := next_timer m; scheduled := scheduled m |}.

Definition with_socks (ws' : option nat) (s : list ReadyState) (m : Manager) : Manager :=
  {| url := url m; url_ok := url_ok m; config := config m; logger := logger m; attempts := attempts m;
     reconnectTimeout := reconnectTimeout m; ws := ws'; socks := s;
     timers := timers m; next_timer := next_timer m; scheduled := scheduled m |}.

Definition with_timers (t : list (nat * Z)) (m : Manager) : Manager :=
  {| url := url m; url_ok := url_ok m; config := config m; logger := logger m; attempts := attempts m;
     reconnectTimeout := reconnectTimeout m; ws := ws m; socks := socks m;
     timers := t; next_timer := next_timer m; scheduled := scheduled m |}.

Definition log (l : LogLevel) (message : string) (context : list (string * JSValue))
    (m : Manager) : Manager :=
  with_logger (Logger_log l message context (logger m)) m.

(** [this.reconnectTimeout = setTimeout(..., delay)] *)
Definition setTimeout (delay : Z) (m : Manager) : Manager :=
  {| url := url m; url_ok := url_ok m; config := config m; logger := logger m; attempts := attempts m;
     reconnectTimeout := Some (next_timer m); ws := ws m; socks := socks m;
     timers := timers m ++ [(next_timer m, delay)];
     next_timer := S (next_timer m); scheduled := scheduled m ++ [delay] |}.

(** [clearTimeout(t)]: a timer that has fired or was cleared is not in
    [timers], and clearing it does nothing. *)
Definition clearTimeout (t : nat) (m : Manager) : Manager :=
  with_timers (filter (fun td => negb (Nat.eqb (fst td) t)) (timers m)) m.

(** The delay of the next reconnection at counter [a]. *)
Definition backoff (c : ReconnectionConfig) (a : Z) : Z :=
  Z.min (initialDelay c * 2 ^ a) (maxDelay c).

Definition scheduleReconnection (m : Manager) : Manager :=
  if attempts m >=? maxAttempts (config m)
  then log LError "Max reconnection attempts reached"
         [("url", JStr (url m)); ("attempts", JNum (attempts m))] m
  else
    let delay := backoff (config m) (attempts m) in
    let m := with_attempts (attempts m + 1) m in
    let m := log LInfo "Scheduling reconnection"
               [("url", JStr (url m)); ("attempt", JNum (attempts m));
                ("delayMs", JNum delay)] m in
    setTimeout delay m.

Definition attemptConnection (m : Manager) : Manager :=
  let m := log LInfo "Attempting connection"
             [("url", JStr (url m)); ("attempt", JNum (attempts m + 1));
              ("maxAttempts", JNum (maxAttempts (config m)))] m in
  if url_ok m
  then with_socks (Some (List.length (socks m))) (socks m ++ [CONNECTING]) m
  else
    scheduleReconnection
      (log LError "Connection attempt failed"
         [("url", JStr (url m)); ("error", JStr "Invalid URL")] m).

Definition connect (m : Manager) : Manager := attemptConnection m.

Fixpoint set_nth (i : nat) (r : ReadyState) (l : list ReadyState) : list ReadyState :=
  match l, i with
  | [], _ => []
  | _ :: rest, O => r :: rest
  | x :: rest, S i' => x :: set_nth i' r rest
  end.

Definition disconnect (m : Manager) : Manager :=
  let m := match reconnectTimeout m with
           | Some t => clearTimeout t m
           | None => m
           end in
  let m := match ws m with
           | Some i =>
               (* this.ws.close() *)
               match nth_error (socks m) i with
               | Some OPEN | Some CONNECTING => with_socks (ws m) (set_nth i CLOSING (socks m)) m
               | _ => m
               end
           | None => m
           end in
  log LInfo "Disconnected" [("url", JStr (url m))] m.

(** What the event loop delivers to the manager, and what its user calls. *)
Inductive Event : Type :=
| EvOpen (i : nat)      (* socket [i] emits [open] *)
| EvClose (i : nat)     (* socket [i] emits [close] *)
| EvTimer (t : nat)     (* the timer [t] fires *)
| CallConnect
| CallDisconnect.

(** One turn of the event loop; [None] when the event cannot happen in the
    state (a socket opens once, from CONNECTING; it closes once; a timer
    fires only while pending, and is no longer pending once it has
    fired). *)
Definition step (m : Manager) (e : Event) : option Manager :=
  match e with
  | EvOpen i =>
      match nth_error (socks m) i with
      | Some CONNECTING =>
          let m := with_socks (ws m) (set_nth i OPEN (socks m)) m in
          let m := log LInfo "Connection established" [("url", JStr (url m))] m in
          Some (with_attempts 0 m)
      | _ => None
      end
  | EvClose i =>
      match nth_error (socks m) i with
      | Some CLOSED | None => None
      | Some _ =>
          let m := with_socks (ws m) (set_nth i CLOSED (socks m)) m in
          let m := log LWarn "Connection closed" [("url", JStr (url m))] m in
          Some (scheduleReconnection m)
      end
  | EvTimer t =>
      if existsb (fun td => Nat.eqb (fst td) t) (timers m)
      then Some (attemptConnection (clearTimeout t m))
      else None
  | CallConnect => Some (connect m)
  | CallDisconnect => Some (disconnect m)
  end.

Fixpoint run (m : Manager) (es : list Event) : option Manager :=
  match es with
  | [] => Some m
  | e :: rest =>
      match step m e with
      | Some m' => run m' rest
      | None => None
      end
  end.

(** The configuration of the specification's scenario, with a cap the
    five delays stay under. *)
Definition five_attempts : ReconnectionConfig :=
  {| maxAttempts := 5; initialDelay := 1000; maxDelay := 30000 |}.

(** A manager whose connection is established: [connect] was called and
    the socket has opened. *)
Definition connected (c : ReconnectionConfig) : Manager :=
  match run (new "ws://localhost:8080" true c {| level := LInfo; console := [] |})
          [CallConnect; EvOpen 0] with
  | Some m => m
  | None => new "ws://localhost:8080" true c {| level := LInfo; console := [] |}
  end.

(** The connection drops and none of the reconnections opens. *)
Definition retries_fail : list Event :=
  [EvClose 0; EvTimer 0; EvClose 1; EvTimer 1; EvClose 2; EvTimer 2;
   EvClose 3; EvTimer 3; EvClose 4; EvTimer 4; EvClose 5].

Definition all_closed (m : Manager) : bool :=
  forallb (fun r => ReadyState_eqb r CLOSED) (socks m).

End Reconnection.

(** ** Worlds and runs used to state the properties *)

(** [new LatencyMonitor(logger)], [new MessageRouter(registry, logger,
    latencyMonitor, maxQueueSize)] and the other objects a server process
    starts from. *)
Definition new_MessageRouter (maxQueueSize : Z) : RouterState :=
  {| messageQueue := []; maxQueueSize := maxQueueSize;
     serializationCache := []; maxCacheSize := 100 |}.

Definition new_World (clock : nat -> Z) (level : LogLevel) (cfg : BridgeConfig)
    (maxQueueSize : Z) : World :=
  {| clock := clock; now_calls := 1;
     logger := {| level := level; console := [] |};
     sockets := []; registry := [];
     latency := {| overall := createEmptyMetrics; byType := [];
                   lastReportTime := clock O |};
     router := new_MessageRouter maxQueueSize;
     config := cfg; authenticatedClients := []; wss_clients := []; conns := [] |}.

(** The state a computation leaves. *)
Definition exec {A : Type} (c : M A) (w : World) : World := snd (c w).

(** The destination set [routeMessage] computes for a source. *)
Definition destinations (source : MessageSource) (w : World) : list ClientInfo :=
  filter (fun c => MessageSource_eqb (ci_type c)
                     (match source with Mcp => Minecraft | Minecraft => Mcp end))
         (JSMap.values (registry w)).

(** A sequence of [routeMessage] calls. *)
Fixpoint route_seq (calls : list (BridgeMessage * string)) (w : World) : World :=
  match calls with
  | [] => w
  | (message, sourceClientId) :: rest =>
      route_seq rest (exec (routeMessage message sourceClientId) w)
  end.

(** The [close] events of a list of sockets, delivered in order. *)
Fixpoint emit_closes (hs : list nat) (w : World) : World :=
  match hs with
  | [] => w
  | h :: rest => emit_closes rest (exec (emit_close h) w)
  end.

(** The values [JSON.parse] can return: no [undefined] and no BigInt
    anywhere. *)
Fixpoint is_json (v : JSValue) : bool :=
  match v with
  | JUndefined | JBigInt _ => false
  | JNull | JBool _ | JNum _ | JStr _ => true
  | JArr items =>
      (fix all (xs : list JSValue) : bool :=
         match xs with
         | [] => true
         | x :: rest => is_json x && all rest
         end) items
  | JObj props =>
      (fix all (ps : list (string * JSValue)) : bool :=
         match ps with
         | [] => true
         | (_, x) :: rest => is_json x && all rest
         end) props
  end.

(** The credential [authenticate] reads from a first message. *)
Definition credential (message : JSValue) : JSValue :=
  get_opt (get_opt message "payload") "authToken".

(** The credential is absent, is not a string, or matches no configured
    token set. *)
Definition bad_credential (cfg : BridgeConfig) (message : JSValue) : Prop :=
  credential message = JUndefined
  \/ is_type (credential message) "string" = false
  \/ (includes (mcpAuthTokens cfg) (credential message) = false
      /\ eq_str (credential message) (minecraftAuthToken cfg) = false).

(** A test bed: a clock that advances by one millisecond per reading, and
    the token sets of the integration tests. *)
Definition test_clock (n : nat) : Z := Z.of_nat n + 1700000000000.

Definition test_config : BridgeConfig :=
  {| mcpAuthTokens := ["test-mcp-token-123"];
     minecraftAuthToken := "test-minecraft-token-456" |}.

Definition auth_message (id source token : string) : JSValue :=
  JObj [("version", JStr "1.0.0"); ("type", JStr "command"); ("id", JStr id);
        ("timestamp", JNum 1700000000000); ("source", JStr source);
        ("payload", JObj [("authToken", JStr token)])].

(** A server with one authenticated MCP client on socket 0 and one
    authenticated Minecraft client on socket 1. *)
Definition two_clients : World :=
  exec (on_message 1 (Some (auth_message "auth-2" "minecraft" "test-minecraft-token-456")))
    (exec (accept 1 "bbbbbbbbb")
       (exec (on_message 0 (Some (auth_message "auth-1" "mcp" "test-mcp-token-123")))
          (exec (accept 0 "aaaaaaaaa")
             (new_World test_clock LDebug test_config 1000)))).

(** ** Notions used to state the properties *)

(** The strings a socket has been sent. *)
Definition sent_of (h : nat) (w : World) : list string :=
  match JSMap.get Nat.eqb h (sockets w) with
  | Some s => sent s
  | None => []
  end.

(** Serializing once per call, with no cache: what the specification asks
    of an implementation. *)
Definition serialize_once (message : BridgeMessage) : Outcome string :=
  JSON_stringify message.

(** The open destinations: those the string is written to. *)
Definition open_destinations (dests : list ClientInfo) (w : World) : list ClientInfo :=
  filter (fun d => can_send (ci_ws d) w) dests.

(** The catch of [routeMessage]. *)
Definition routing_error (message : BridgeMessage) (e : string) (w : World) : World :=
  with_logger
    (Logger_log LError "Error routing message"
       [("messageId", JStr (msg_id message)); ("error", JStr e)] (logger w)) w.

(** The last [n] elements of a list. *)
Definition lastn {A : Type} (n : nat) (l : list A) : list A :=
  skipn (List.length l - n) l.

(** The queue [queueMessage] leaves. *)
Definition enqueue (cap : Z) (q : list QueuedMessage) (e : QueuedMessage) : list QueuedMessage :=
  (if Z.of_nat (List.length q) >=? cap then tl q else q) ++ [e].

(** A queue entry made by a call [routeMessage(message, sourceClientId)]:
    the caller's message with its [receivedAt] stamp, and the caller's id. *)
Definition queued_from (q : QueuedMessage) (call : BridgeMessage * string) : Prop :=
  qm_sourceClientId q = snd call
  /\ exists t, qm_message q = set_receivedAt t (fst call).

(** What a tick does to one socket. *)
Definition tick_socket (s : Socket) : Socket :=
  if negb (isAlive s)
  then match readyState s with
       | CLOSED => s
       | _ => with_terminated true (with_readyState CLOSING s)
       end
  else with_pings (pings s + 1) (with_isAlive false s).

Fixpoint distinct (l : list nat) : bool :=
  match l with
  | [] => true
  | x :: rest => negb (existsb (Nat.eqb x) rest) && distinct rest
  end.

(** The sockets of [wss.clients] whose flag is [false]. *)
Definition dead_clients (w : World) : list nat :=
  filter (fun h => match JSMap.get Nat.eqb h (sockets w) with
                   | Some s => negb (isAlive s)
                   | None => false
                   end) (wss_clients w).

(** The [message] events of a list of messages on one socket. *)
Fixpoint deliver (ws : nat) (messages : list JSValue) (w : World) : World :=
  match messages with
  | [] => w
  | v :: rest => deliver ws rest (exec (on_message ws (Some v)) w)
  end.

(** ** The runs of the server

    What the event loop delivers to the server.  A connection is accepted on
    a socket object that is new, and the id generated for it
    ([Date.now()] and [Math.random()]) is taken to differ from the ids of
    the connections made so far. *)
Inductive ServerEvent : Type :=
| OnConnection (ws : nat) (suffix : string)
| OnMessage (ws : nat) (parsed : option JSValue)
| OnClose (ws : nat)
| OnPong (ws : nat)
| OnHeartbeat
| OnProcessQueue.

Definition dispatch (e : ServerEvent) : M unit :=
  match e with
  | OnConnection ws suffix => accept ws suffix
  | OnMessage ws parsed => on_message ws parsed
  | OnClose ws => emit_close ws
  | OnPong ws => on_pong ws
  | OnHeartbeat => checkHeartbeats
  | OnProcessQueue => processQueue
  end.

(** The id [handleConnection] is about to generate. *)
Definition next_clientId (suffix : string) (w : World) : string :=
  "client_" ^+ Z_to_string (clock w (now_calls w)) ^+ "_" ^+ suffix.

Definition enabled (e : ServerEvent) (w : World) : bool :=
  match e with
  | OnConnection ws suffix =>
      negb (JSMap.has Nat.eqb ws (sockets w))
      && negb (JSMap.has Nat.eqb ws (conns w))
      && forallb (fun hc => negb (String.eqb (clientId (snd hc)) (next_clientId suffix w)))
                 (conns w)
  | _ => true
  end.

(** The states of a server process: the one [new BridgeServer(config)]
    builds, and those the events lead to. *)
Inductive reachable : World -> Prop :=
| reachable_start (clock : nat -> Z) (level : LogLevel) (cfg : BridgeConfig)
    (maxQueueSize : Z) :
    reachable (new_World clock level cfg maxQueueSize)
| reachable_step (w : World) (e : ServerEvent) :
    reachable w -> enabled e w = true -> reachable (exec (dispatch e) w).

(** A socket that has not closed. *)
Definition is_live (h : nat) (socks : JSMap.t nat Socket) : bool :=
  match JSMap.get Nat.eqb h socks with
  | Some s => negb (ReadyState_eqb (readyState s) CLOSED)
  | None => false
  end.

(** What holds of every state of the server: [wss.clients] is a set of
    sockets that have not closed, the connections have ids, different
    connections have different ids, and every id in the registry is the id
    of an authenticated connection. *)
Record server_invariant (w : World) : Prop := {
  inv_distinct : distinct (wss_clients w) = true;
  inv_live : forall h, In h (wss_clients w) -> is_live h (sockets w) = true;
  inv_ids : forall h c, JSMap.get Nat.eqb h (conns w) = Some c ->
                        clientId c <> EmptyString;
  inv_unique : forall h h' c c',
      JSMap.get Nat.eqb h (conns w) = Some c ->
      JSMap.get Nat.eqb h' (conns w) = Some c' ->
      clientId c = clientId c' -> h = h';
  inv_registered : forall id,
      JSMap.has String.eqb id (registry w) = true ->
      exists h c, JSMap.get Nat.eqb h (conns w) = Some c
                  /\ clientId c = id /\ authenticated c = true
}.

(** What a step of a handler may change when it neither accepts, nor
    registers, nor closes: no connection, no registry entry, no member of
    [wss.clients], and no socket is closed or forgotten. *)
Record inert_step (w w' : World) : Prop := {
  inert_conns : conns w' = conns w;
  inert_registry : registry w' = registry w;
  inert_clients : wss_clients w' = wss_clients w;
  inert_live : forall h, is_live h (sockets w) = true -> is_live h (sockets w') = true
}.

Definition inert {A : Type} (c : M A) : Prop := forall w, inert_step w (exec c w).

(** [c] takes a state where [P] holds to a state where [Q] holds, when it
    returns and when it throws. *)
Definition leads {A : Type} (P : World -> Prop) (c : M A) (Q : World -> Prop) : Prop :=
  forall w, P w -> Q (exec c w).

(** The invariant, with a connection on socket [ws] whose id is [id] and,
    when [auth] is set, whose flag [authenticated] is set. *)
Definition connection_is (ws : nat) (id : string) (auth : bool) (w : World) : Prop :=
  server_invariant w
  /\ exists c, JSMap.get Nat.eqb ws (conns w) = Some c
               /\ clientId c = id /\ (auth = true -> authenticated c = true).

(** ** validation.ts, [validateVersion]

    The test of [/^\d+\.\d+\.\d+$/]: a run of digits, a dot, a run of
    digits, a dot, a run of digits, and the end of the string.  A digit is
    never a dot, so the longest run of digits is the only one after which a
    dot can match. *)

Definition is_digit (c : ascii) : bool :=
  Nat.leb 48 (nat_of_ascii c) && Nat.leb (nat_of_ascii c) 57.

Fixpoint skip_digits (s : string) : string :=
  match s with
  | EmptyString => EmptyString
  | String c rest => if is_digit c then skip_digits rest else s
  end.

(** [\d+] at the head of [s]: what follows the digits. *)
Definition match_digits (s : string) : option string :=
  match s with
  | EmptyString => None
  | String c rest => if is_digit c then Some (skip_digits rest) else None
  end.

(** [\.] at the head of [s]. *)
Definition match_dot (s : string) : option string :=
  match s with
  | EmptyString => None
  | String c rest => if Ascii.eqb c "."%char then Some rest else None
  end.

Definition validateVersion (version : string) : bool :=
  match match_digits version with
  | None => false
  | Some s1 =>
      match match_dot s1 with
      | None => false
      | Some s2 =>
          match match_digits s2 with
          | None => false
          | Some s3 =>
              match match_dot s3 with
              | None => false
              | Some s4 =>
                  match match_digits s4 with
                  | None => false
                  | Some s5 => String.eqb s5 EmptyString
                  end
              end
          end
      end
  end.

(** A string of one or more decimal digits. *)
Fixpoint all_digits (s : string) : bool :=
  match s with
  | EmptyString => true
  | String c rest => is_digit c && all_digits rest
  end.

Definition numeral (s : string) : bool :=
  negb (String.eqb s EmptyString) && all_digits s.

(** ** auth.ts, the map of authenticated sockets *)

Module AuthManager.

Definition getClientType (ws : nat) : M (option MessageSource) :=
  gets (fun w => JSMap.get Nat.eqb ws (authenticatedClients w)).

Definition removeClient (ws : nat) : M unit :=
  modify (fun w => with_authenticatedClients
                     (JSMap.delete Nat.eqb ws (authenticatedClients w)) w).

End AuthManager.

(** The capability matrix of [authorize]: which role may send which type
    of message. *)
Definition may_send (clientType : MessageSource) (type : MessageType) : bool :=
  match type with
  | TCommand | TQuery => MessageSource_eqb clientType Mcp
  | TEvent => MessageSource_eqb clientType Minecraft
  | TResponse | TError => true
  end.

(** ** Notions used to state the further properties *)

(** How many times a call of [routeMessage] sends to socket [h]: once for
    every open destination whose socket it is. *)
Definition deliveries (h : nat) (dests : list ClientInfo) (w : World) : nat :=
  List.length (filter (fun d => Nat.eqb (ci_ws d) h) (open_destinations dests w)).

(** The call [routeMessage(queued.message, queued.sourceClientId)] that
    [processQueue] makes for an entry. *)
Definition call_of (q : QueuedMessage) : BridgeMessage * string :=
  (qm_message q, qm_sourceClientId q).

(** [c] relates every state to the state it leaves, when it returns and
    when it throws. *)
Definition respects {A : Type} (R : World -> World -> Prop) (c : M A) : Prop :=
  forall w, R w (exec c w).

(** No socket leaves the map of authenticated sockets. *)
Definition auth_grows (w w' : World) : Prop :=
  forall ws, JSMap.has Nat.eqb ws (authenticatedClients w) = true ->
             JSMap.has Nat.eqb ws (authenticatedClients w') = true.

(** The bounds of the router's two stores: the serialization cache holds
    at most [maxCacheSize] entries and the queue at most [maxQueueSize]
    messages (one, when that is less than one). *)
Definition bounded (w : World) : Prop :=
  maxCacheSize (router w) = 100
  /\ JSMap.size (serializationCache (router w)) <= 100
  /\ Z.of_nat (List.length (messageQueue (router w)))
     <= Z.max 1 (maxQueueSize (router w)).

Definition keeps_bounded (w w' : World) : Prop := bounded w -> bounded w'.

(** A run of the server: the events of a list, handled in order. *)
Fixpoint run_events (es : list ServerEvent) (w : World) : World :=
  match es with
  | [] => w
  | e :: rest => run_events rest (exec (dispatch e) w)
  end.

(** ** connection-registry.ts, the two other readers *)

Definition getClient (id : string) : M (option ClientInfo) :=
  gets (fun w => JSMap.get String.eqb id (registry w)).

Definition getAllClients : M (list ClientInfo) :=
  gets (fun w => JSMap.values (registry w)).

(** The registry agrees with the connections: an entry is filed under its
    own id, no two entries have the same id, and an entry's socket is the
    socket of an authenticated connection that has the entry's id and
    role. *)
Record registry_consistent (w : World) : Prop := {
  reg_keyed : forall id ci,
      JSMap.get String.eqb id (registry w) = Some ci -> ci_id ci = id;
  reg_owned : forall id ci,
      JSMap.get String.eqb id (registry w) = Some ci ->
      exists c, JSMap.get Nat.eqb (ci_ws ci) (conns w) = Some c
                /\ clientId c = id /\ authenticated c = true
                /\ clientType c = Some (ci_type ci);
  reg_distinct : NoDup (JSMap.keys (registry w))
}.

(** [registry_consistent], with the connection on socket [ws]: [c] as the
    handler found it, or that connection authenticated with role [role]. *)
Definition before_registration (ws : nat) (c : Connection) (w : World) : Prop :=
  registry_consistent w /\ JSMap.get Nat.eqb ws (conns w) = Some c.

Definition ready_to_register (ws : nat) (id : string) (role : option MessageSource)
    (w : World) : Prop :=
  registry_consistent w
  /\ exists c, JSMap.get Nat.eqb ws (conns w) = Some c
               /\ clientId c = id /\ authenticated c = true /\ clientType c = role.

(** ** latency-monitor.ts, the report

    The report prints two kinds of numbers that are not integers: the
    rounded ratios [Math.round((a / b) * k) / d] (the average latency and
    the share of slow messages) and [Infinity], the minimum of no latency.
    The model takes them as given: [round_ratio a b k d] and [Infinity] are
    the values the logger receives.  [typeStats] lists the types in the
    order of the map. *)

Section Report.

Variable round_ratio : Z -> Z -> Z -> Z -> JSValue.
Variable Infinity : JSValue.

Definition resetStats : M unit :=
  modify (fun w => with_latency
                     {| overall := createEmptyMetrics; byType := [];
                        lastReportTime := lastReportTime (latency w) |} w).

Definition reportStats : M unit :=
  now <- Date_now ;;
  stats <- gets latency ;;
  let timeSinceLastReport := now - lastReportTime stats in
  if count (overall stats) =? 0
  then log LDebug "No messages forwarded since last report" []
  else
    log LInfo "Latency statistics report"
      [("reportPeriodMs", JNum timeSinceLastReport);
       ("overall",
        JObj [("messagesForwarded", JNum (count (overall stats)));
              ("avgLatencyMs",
               round_ratio (totalMs (overall stats)) (count (overall stats)) 100 100);
              ("minLatencyMs", match minMs (overall stats) with
                               | Some m => JNum m
                               | None => Infinity
                               end);
              ("maxLatencyMs", JNum (maxMs (overall stats)));
              ("over100ms", JNum (over100ms (overall stats)));
              ("percentOver100ms",
               round_ratio (over100ms (overall stats)) (count (overall stats))
                 10000 100)])] ;;;
    let typeStats :=
      map (fun tm : string * LatencyMetrics =>
             (fst tm,
              JObj [("count", JNum (count (snd tm)));
                    ("avgMs", round_ratio (totalMs (snd tm)) (count (snd tm)) 100 100);
                    ("maxMs", JNum (maxMs (snd tm)));
                    ("over100ms", JNum (over100ms (snd tm)))]))
          (byType stats) in
    (if Nat.ltb 0 (List.length typeStats)
     then log LInfo "Latency by message type" typeStats
     else ret tt) ;;;
    resetStats ;;;
    modify (fun w => with_latency
                       {| overall := overall (latency w); byType := byType (latency w);
                          lastReportTime := now |} w).

(** The calls a user of the monitor makes. *)
Inductive MonitorCall : Type :=
| CallRecordLatency (messageType : string) (latencyMs : Z)
| CallReportStats.

Fixpoint monitor_run (calls : list MonitorCall) : M unit :=
  match calls with
  | [] => ret tt
  | CallRecordLatency messageType latencyMs :: rest =>
      recordLatency messageType latencyMs ;;; monitor_run rest
  | CallReportStats :: rest => reportStats ;;; monitor_run rest
  end.

End Report.

(** The latencies recorded since the last report, oldest first. *)
Fixpoint pending (calls : list MonitorCall) (acc : list (string * Z)) : list (string * Z) :=
  match calls with
  | [] => acc
  | CallRecordLatency messageType latencyMs :: rest =>
      pending rest (acc ++ [(messageType, latencyMs)])
  | CallReportStats :: rest => pending rest []
  end.

(** A run of [recordLatency] calls, on the statistics alone. *)
Definition record_all (records : list (string * Z)) (stats : LatencyStats) : LatencyStats :=
  fold_left (fun s r => recordLatency_stats (fst r) (snd r) s) records stats.

(** The statistics of a new monitor, or of one that has just reported. *)
Definition no_stats (t : Z) : LatencyStats :=
  {| overall := createEmptyMetrics; byType := []; lastReportTime := t |}.

(** ** message-router.ts, what a call leaves *)

(** The destinations whose [send] returns: the successes the loop of
    [routeMessage] counts. *)
Definition reached (dests : list ClientInfo) (w : World) : list ClientInfo :=
  filter (fun d => send_returns (ci_ws d) w) dests.

(** The lines of the console that carry a given message. *)
Definition lines_about (message : string) (lg : Logger) : list LogEntry :=
  filter (fun e => String.eqb (log_message e) message) (console lg).

(** The line the loop of [routeMessage] logs for a destination whose
    [send] threw [e], and the lines of a destination set: one for every
    destination whose [send] throws, in the order of the set. *)
Definition forward_failure (message : BridgeMessage) (dest : ClientInfo) (e : string)
    : LogEntry :=
  {| log_level := LError; log_message := "Failed to forward message to client";
     log_context := [("messageId", JStr (msg_id message));
                     ("destinationId", JStr (ci_id dest));
                     ("error", JStr e)] |}.

Definition forward_failures (message : BridgeMessage) (dests : list ClientInfo)
    (w : World) : list LogEntry :=
  flat_map (fun d => match send_error (ci_ws d) w with
                     | Some e => [forward_failure message d e]
                     | None => []
                     end) dests.

(** The latencies a loop records when [n] of its sends return: the clock
    is read once after each of them. *)
Definition loop_latencies (type : string) (routeStart : Z) (w : World) (n : nat)
    : list (string * Z) :=
  map (fun j => (type, clock w (now_calls w + j)%nat - routeStart)) (seq 0 n).

(** The latencies a call of [routeMessage] in state [w] records when [n]
    of its sends return.  The call reads the clock for [routeStart], then for
    [forwardedAt], and then once after every [send] that returned: the j-th
    latency is that reading less [routeStart]. *)
Definition forward_latencies (type : string) (w : World) (n : nat) : list (string * Z) :=
  map (fun j => (type, clock w (now_calls w + 2 + j)%nat - clock w (now_calls w)))
      (seq 0 n).

(** What a turn of the loop of [routeMessage] leaves as it was. *)
Record turn_frame (w w' : World) : Prop := {
  turn_clock : clock w' = clock w;
  turn_send_error : forall h, send_error h w' = send_error h w;
  turn_can_send : forall h, can_send h w' = can_send h w;
  turn_registry : registry w' = registry w;
  turn_router : router w' = router w;
  turn_routing_errors :
    lines_about "Error routing message" (logger w')
    = lines_about "Error routing message" (logger w)
}.

(** The calls [processQueue] makes for the entries of the queue, in order:
    the entries whose call was rejected, each with the error, and the state
    the calls leave. *)
Fixpoint reroute (entries : list QueuedMessage) (w : World)
    : list (QueuedMessage * string) * World :=
  match entries with
  | [] => ([], w)
  | queued :: rest =>
      match routeMessage (qm_message queued) (qm_sourceClientId queued) w with
      | (Ok _, w1) => reroute rest w1
      | (Throw e, w1) =>
          let (rejected, w2) := reroute rest w1 in ((queued, e) :: rejected, w2)
      end
  end.

(** The line [processQueue] logs for a rejected call. *)
Definition rejection_line (queued : QueuedMessage) (e : string) : LogEntry :=
  {| log_level := LError; log_message := "Error processing queued message";
     log_context := [("messageId", JStr (msg_id (qm_message queued)));
                     ("error", JStr e)] |}.

(** ** reconnection.ts, what holds along every run *)

(** The counter is within its limit and every delay handed to
    [setTimeout] is within the configured bounds. *)
Definition within_bounds (c : Reconnection.ReconnectionConfig) (m : Reconnection.Manager)
    : Prop :=
  Reconnection.config m = c
  /\ 0 <= Reconnection.attempts m <= Reconnection.maxAttempts c
  /\ Forall (fun d => Z.min (Reconnection.initialDelay c) (Reconnection.maxDelay c) <= d
                      /\ d <= Reconnection.maxDelay c)
            (Reconnection.scheduled m).


(** ** Concrete servers and messages *)

Definition mcp_client_id : string := "client_1700000000001_aaaaaaaaa".

(** A server with one connection accepted on socket 0 and not yet
    authenticated. *)
Definition one_connection : World :=
  exec (accept 0 "aaaaaaaaa") (new_World test_clock LDebug test_config 1000).

Definition fresh_connection : Connection :=
  {| clientId := mcp_client_id; authenticated := false; clientType := None;
     clientVersion := JNull |}.

(** The connection after a first message with a token that is in no
    configured set, and after a second message, with a token of the MCP
    set, that arrives before the socket has closed. *)
Definition rejected_once : World :=
  exec (on_message 0 (Some (auth_message "auth-1" "mcp" "bad-token"))) one_connection.

Definition accepted_after_rejection : World :=
  exec (on_message 0 (Some (auth_message "auth-2" "mcp" "test-mcp-token-123")))
    rejected_once.

(** A server with a second Minecraft client, on socket 2. *)
Definition three_clients : World :=
  exec (on_message 2 (Some (auth_message "auth-3" "minecraft" "test-minecraft-token-456")))
    (exec (accept 2 "ccccccccc") two_clients).

(** A server on which the MCP client has answered the last ping and the
    Minecraft client has not. *)
Definition one_pong_missing : World :=
  exec (on_pong 0) (exec checkHeartbeats two_clients).

(** The event of the integration test 'should reject events from MCP
    client', and a query sent by the Minecraft client. *)
Definition event_from_mcp : JSValue :=
  JObj [("version", JStr "1.0.0"); ("type", JStr "event"); ("id", JStr "event-1");
        ("timestamp", JNum 1700000000100); ("source", JStr "mcp");
        ("payload", JObj [("eventType", JStr "player_join");
                          ("timestamp", JNum 1700000000100);
                          ("data", JObj [("player", JStr "Hacker")])])].

Definition query_from_minecraft : JSValue :=
  JObj [("version", JStr "1.0.0"); ("type", JStr "query"); ("id", JStr "query-1");
        ("timestamp", JNum 1700000000100); ("source", JStr "minecraft");
        ("payload", JObj [("query", JStr "get_online_players"); ("args", JObj [])])].

(** The command of the integration test 'should reject commands from
    Minecraft client'. *)
Definition command_from_minecraft : JSValue :=
  JObj [("version", JStr "1.0.0"); ("type", JStr "command"); ("id", JStr "cmd-9");
        ("timestamp", JNum 1700000000100); ("source", JStr "minecraft");
        ("payload", JObj [("command", JStr "execute_command");
                          ("args", JObj [("command", JStr "say Unauthorized")])])].

(** Two commands of the MCP client that carry the same [id] and
    [timestamp] and differ in their payload. *)
Definition say (text : string) : BridgeMessage :=
  {| msg_version := "1.0.0"; msg_type := TCommand; msg_id := "cmd-1";
     msg_timestamp := 1700000000100; msg_source := Mcp;
     msg_payload := JObj [("command", JStr "say"); ("args", JObj [("text", JStr text)])];
     msg_receivedAt := None; msg_forwardedAt := None; msg_props := [] |}.

(** A command whose payload holds a BigInt, which [JSON.stringify] does not
    serialize. *)
Definition say_bigint : BridgeMessage :=
  {| msg_version := "1.0.0"; msg_type := TCommand; msg_id := "cmd-2";
     msg_timestamp := 1700000000100; msg_source := Mcp;
     msg_payload := JObj [("command", JStr "give"); ("args", JObj [("amount", JBigInt 64)])];
     msg_receivedAt := None; msg_forwardedAt := None; msg_props := [] |}.

(** The third scenario of the specification: capacity 2 and the messages
    [m1], [m2], [m3] with nobody to receive them. *)
Definition event_with_id (id : string) : BridgeMessage * string :=
  ({| msg_version := "1.0.0"; msg_type := TEvent; msg_id := id;
      msg_timestamp := 1700000000100; msg_source := Minecraft;
      msg_payload := JObj []; msg_receivedAt := None; msg_forwardedAt := None;
      msg_props := [] |},
   "client_1").

Definition three_events : list (BridgeMessage * string) :=
  [event_with_id "m1"; event_with_id "m2"; event_with_id "m3"].

Definition capacity_two : World := new_World test_clock LDebug test_config 2.

(** The server with three clients, after the heartbeat has terminated the
    first Minecraft client and before the [close] event of its socket: the
    client is still registered and its socket is CLOSING. *)
Definition one_closing : World :=
  exec (ws_terminate 1) three_clients.

(** The server with three clients, the socket of the first Minecraft client
    being in the state no accepted socket is in, CONNECTING: its [send]
    throws. *)
Definition one_still_connecting : World :=
  exec (update_socket 1 (with_readyState CONNECTING)) three_clients.

(** An event whose keys are not in the order of the interface, with a key
    the interface does not name and a [forwardedAt] of the client's own. *)
Definition reordered_event : JSValue :=
  JObj [("id", JStr "event-2"); ("trace", JStr "t-1"); ("forwardedAt", JNum 1);
        ("type", JStr "event"); ("version", JStr "1.0.0");
        ("timestamp", JNum 1700000000100); ("source", JStr "minecraft");
        ("payload", JObj [("eventType", JStr "player_join");
                          ("timestamp", JNum 1700000000100);
                          ("data", JObj [])])].

(** A message with the envelope [timestamp] 0 whose [type] is an object
    that has a property [toString]: the text
    [{"version":"1.0.0","type":{"toString":1},"id":"m1","timestamp":0,
    "source":"mcp","payload":{}}], parsed. *)
Definition zero_timestamp_no_type : JSValue :=
  JObj [("version", JStr "1.0.0"); ("type", JObj [("toString", JNum 1)]);
        ("id", JStr "m1"); ("timestamp", JNum 0); ("source", JStr "mcp");
        ("payload", JObj [])].

Unset Implicit Arguments.

(** * Properties *)

(** ** JavaScript values *)

Example stringify_skips_undefined :
  stringify (JObj [("a", JNum 1); ("b", JUndefined); ("c", JArr [JStr "x"; JUndefined])])
  = Ok (Some ("{" ^+ dquote ^+ "a" ^+ dquote ^+ ":1," ^+ dquote ^+ "c" ^+ dquote
              ^+ ":[" ^+ dquote ^+ "x" ^+ dquote ^+ ",null]}")).
Proof. reflexivity. Qed.

Example stringify_rejects_bigint :
  stringify (JObj [("amount", JArr [JBigInt 64])])
  = Throw "Do not know how to serialize a BigInt".
Proof. reflexivity. Qed.

Example template_literal :
  to_string JUndefined = Ok "undefined"
  /\ to_string (JArr [JNum 1; JNull; JStr "x"; JArr [JBool true; JUndefined]]) = Ok "1,,x,true,"
  /\ to_string (JObj [("type", JStr "event")]) = Ok "[object Object]"
  /\ to_string (JObj [("toString", JNum 1)])
     = Throw "Cannot convert object to primitive value"
  /\ to_string (JArr [JStr "x"; JObj [("toString", JNull)]])
     = Throw "Cannot convert object to primitive value"
  /\ cacheKey (say "hello") = "cmd-1_1700000000100".
Proof. repeat split. Qed.

(** ** validation.ts *)

Section Validation.

Lemma push_if_keeps (cond : bool) (e x : string) (errors : list string) :
  In x errors -> In x (push_if cond e errors).
Proof.
  unfold push_if. destruct cond; [|easy].
  intros H. apply in_or_app. now left.
Qed.

Lemma push_if_adds (e : string) (errors : list string) :
  In e (push_if true e errors).
Proof. unfold push_if. apply in_or_app. right. now left. Qed.

Lemma push_template_if_keeps (cond : bool) (prefix x : string) (v : JSValue)
    (errors errors' : list string) :
  push_template_if cond prefix v errors = Ok errors' -> In x errors -> In x errors'.
Proof.
  unfold push_template_if. destruct cond.
  - destruct (to_string v); [|discriminate].
    intros E H. injection E as <-. apply in_or_app. now left.
  - intros E H. now injection E as <-.
Qed.

Lemma push_template_if_adds (prefix : string) (v : JSValue) (errors errors' : list string) :
  push_template_if true prefix v errors = Ok errors' ->
  exists s, to_string v = Ok s /\ In (prefix ^+ s) errors'.
Proof.
  unfold push_template_if. destruct (to_string v) as [s|]; [|discriminate].
  intros E. injection E as <-. exists s. split; [reflexivity|].
  apply in_or_app. right. now left.
Qed.

(** A value that is one of the strings of a list has a string form. *)
Lemma includes_renders (l : list string) (v : JSValue) :
  includes l v = true -> renders v = true.
Proof.
  unfold includes. intros H. apply existsb_exists in H. destruct H as (x & _ & H).
  destruct v; cbn in H; try discriminate. reflexivity.
Qed.

(** The template literal of an envelope check is evaluated only on a value
    that failed the check, and returns exactly when that value has a string
    form. *)
Lemma push_template_if_returns (l : list string) (prefix : string) (v : JSValue)
    (errors : list string) :
  (exists errors', push_template_if (negb (truthy v) || negb (includes l v)) prefix v errors
                   = Ok errors')
  <-> renders v = true.
Proof.
  unfold push_template_if, renders.
  destruct (negb (truthy v) || negb (includes l v)) eqn:C.
  - destruct (to_string v); split; try reflexivity; try discriminate.
    + intros _. eexists. reflexivity.
    + intros [? H]. discriminate.
  - split; [|intros _; eexists; reflexivity]. intros _.
    apply orb_false_elim in C. destruct C as [_ C]. apply negb_false_iff in C.
    exact (includes_renders l v C).
Qed.

(** The envelope checks return exactly when [type] and [source] have a
    string form. *)
Lemma validate_envelope_returns (version type id timestamp source payload : JSValue) :
  (exists errors, validate_envelope version type id timestamp source payload = Ok errors)
  <-> renders type = true /\ renders source = true.
Proof.
  unfold validate_envelope. cbv zeta.
  set (e0 := push_if _ "Missing or invalid version field" []).
  split.
  - intros [errors H].
    destruct (push_template_if _ "Invalid message type: " type e0) as [e1|] eqn:E1;
      [|discriminate].
    destruct (push_template_if _ "Invalid message source: " source _) as [e2|] eqn:E2;
      [|discriminate].
    split.
    + apply (push_template_if_returns VALID_MESSAGE_TYPES "Invalid message type: " type e0).
      now exists e1.
    + eapply (push_template_if_returns VALID_MESSAGE_SOURCES). eexists. exact E2.
  - intros [Ht Hs].
    apply (push_template_if_returns VALID_MESSAGE_TYPES "Invalid message type: " type e0)
      in Ht.
    destruct Ht as [e1 E1]. rewrite E1.
    match goal with
    | |- context [push_template_if ?c ?p source ?e] =>
        destruct (proj2 (push_template_if_returns VALID_MESSAGE_SOURCES p source e) Hs)
          as [e2 E2]
    end.
    rewrite E2. eexists. reflexivity.
Qed.

Lemma validate_command_keeps (type payload : JSValue) (x : string) (errors : list string) :
  In x errors -> In x (validate_command type payload errors).
Proof.
  intros H. unfold validate_command.
  destruct (eq_str type "command"); [|exact H].
  destruct (negb (truthy payload) || negb (is_type payload "object")).
  - apply in_or_app. now left.
  - now do 2 apply push_if_keeps.
Qed.

Lemma validate_response_keeps (type payload : JSValue) (x : string) (errors : list string) :
  In x errors -> In x (validate_response type payload errors).
Proof.
  intros H. unfold validate_response.
  destruct (eq_str type "response"); [|exact H].
  destruct (negb (truthy payload) || negb (is_type payload "object")).
  - apply in_or_app. now left.
  - now apply push_if_keeps.
Qed.

Lemma validate_event_keeps (type payload : JSValue) (x : string) (errors : list string) :
  In x errors -> In x (validate_event type payload errors).
Proof.
  intros H. unfold validate_event.
  destruct (eq_str type "event"); [|exact H].
  destruct (negb (truthy payload) || negb (is_type payload "object")).
  - apply in_or_app. now left.
  - now do 3 apply push_if_keeps.
Qed.

(** The envelope checks report a [timestamp] that is falsy or not a
    number. *)
Lemma validate_envelope_timestamp (version type id timestamp source payload : JSValue)
    (errors : list string) :
  validate_envelope version type id timestamp source payload = Ok errors ->
  negb (truthy timestamp) || negb (is_type timestamp "number") = true ->
  In "Missing or invalid timestamp field" errors.
Proof.
  unfold validate_envelope. cbv zeta. intros H C. rewrite C in H.
  destruct (push_template_if _ "Invalid message type: " type _) as [e1|]; [|discriminate].
  destruct (push_template_if _ "Invalid message source: " source _) as [e2|] eqn:E2;
    [|discriminate].
  inversion H. apply push_if_keeps.
  apply (push_template_if_keeps _ _ _ _ _ _ E2). apply push_if_adds.
Qed.

(** An error found makes the result invalid and is reported. *)
Lemma validateMessage_reports (message version : JSValue) (envelope : list string)
    (x : string) :
  get message "version" = Ok version ->
  validate_envelope version (get_opt message "type") (get_opt message "id")
    (get_opt message "timestamp") (get_opt message "source") (get_opt message "payload")
  = Ok envelope ->
  In x (validate_event (get_opt message "type") (get_opt message "payload")
          (validate_response (get_opt message "type") (get_opt message "payload")
             (validate_command (get_opt message "type") (get_opt message "payload")
                envelope))) ->
  exists r es, validateMessage message = Ok r /\ valid r = false
               /\ errors r = Some es /\ In x es.
Proof.
  intros Hv He Hin. unfold validateMessage. rewrite Hv, He.
  set (es := validate_event _ _ _) in *.
  eexists. exists es. split; [reflexivity|]. cbn.
  destruct es as [|e0 es']; [destruct Hin|].
  cbn. repeat split; trivial.
Qed.

(** A message that has a [timestamp] is not [null] or [undefined], so its
    [version] can be read. *)
Lemma get_opt_defined (message : JSValue) (k : string) (v : JSValue) :
  get_opt message k = v -> v <> JUndefined ->
  forall k', get message k' = Ok (get_opt message k').
Proof.
  intros H Hv k'. unfold get_opt in *.
  destruct message; cbn in *; try reflexivity; congruence.
Qed.

(** The envelope checks find nothing only when every test passed. *)
Lemma validate_envelope_clean (version type id timestamp source payload : JSValue) :
  validate_envelope version type id timestamp source payload = Ok [] ->
  (truthy version = true /\ is_type version "string" = true)
  /\ includes VALID_MESSAGE_TYPES type = true
  /\ (truthy id = true /\ is_type id "string" = true)
  /\ (truthy timestamp = true /\ is_type timestamp "number" = true)
  /\ includes VALID_MESSAGE_SOURCES source = true
  /\ is_undefined payload = false.
Proof.
  unfold validate_envelope. cbv zeta. intros H.
  assert (clean : forall (e : string) rest, rest = [] -> In e rest -> False).
  { intros e rest ->. intros []. }
  destruct (push_template_if _ "Invalid message type: " type _) as [e1|] eqn:E1;
    [|discriminate].
  destruct (push_template_if _ "Invalid message source: " source _) as [e2|] eqn:E2;
    [|discriminate].
  inversion H as [H6]. clear H.
  assert (C6 : is_undefined payload = false).
  { destruct (is_undefined payload); [|reflexivity].
    exfalso. eapply clean; [exact H6|]. apply push_if_adds. }
  rewrite C6 in H6. cbn [push_if] in H6. subst e2.
  assert (C5 : negb (truthy source) || negb (includes VALID_MESSAGE_SOURCES source) = false).
  { destruct (negb (truthy source) || negb (includes VALID_MESSAGE_SOURCES source));
      [|reflexivity].
    exfalso. apply push_template_if_adds in E2. destruct E2 as (s & _ & E2). destruct E2. }
  rewrite C5 in E2. cbn [push_template_if] in E2. inversion E2 as [H4]. clear E2.
  assert (C4 : negb (truthy timestamp) || negb (is_type timestamp "number") = false).
  { destruct (negb (truthy timestamp) || negb (is_type timestamp "number"));
      [|reflexivity].
    exfalso. eapply clean; [exact H4|]. apply push_if_adds. }
  rewrite C4 in H4. cbn [push_if] in H4.
  assert (C3 : negb (truthy id) || negb (is_type id "string") = false).
  { destruct (negb (truthy id) || negb (is_type id "string")); [|reflexivity].
    exfalso. eapply clean; [exact H4|]. apply push_if_adds. }
  rewrite C3 in H4. cbn [push_if] in H4. subst e1.
  assert (C2 : negb (truthy type) || negb (includes VALID_MESSAGE_TYPES type) = false).
  { destruct (negb (truthy type) || negb (includes VALID_MESSAGE_TYPES type));
      [|reflexivity].
    exfalso. apply push_template_if_adds in E1. destruct E1 as (s & _ & E1). destruct E1. }
  rewrite C2 in E1. cbn [push_template_if] in E1. inversion E1 as [H1]. clear E1.
  assert (C1 : negb (truthy version) || negb (is_type version "string") = false).
  { destruct (negb (truthy version) || negb (is_type version "string")); [|reflexivity].
    exfalso. eapply clean; [exact H1|]. apply push_if_adds. }
  apply orb_false_elim in C1, C2, C3, C4, C5.
  rewrite !negb_false_iff in C1, C2, C3, C4, C5.
  destruct C2 as [_ C2]. destruct C5 as [_ C5]. repeat split; tauto.
Qed.

(** The errors of a result that is valid: none, from the envelope on. *)
Lemma validateMessage_valid (message : JSValue) (r : ValidationResult) :
  validateMessage message = Ok r -> valid r = true ->
  exists version,
    get message "version" = Ok version
    /\ validate_envelope version (get_opt message "type") (get_opt message "id")
         (get_opt message "timestamp") (get_opt message "source")
         (get_opt message "payload") = Ok []
    /\ validate_command (get_opt message "type") (get_opt message "payload") [] = []
    /\ validate_response (get_opt message "type") (get_opt message "payload") [] = []
    /\ validate_event (get_opt message "type") (get_opt message "payload") [] = []
    /\ errors r = None.
Proof.
  unfold validateMessage.
  destruct (get message "version") as [version|e] eqn:Hv; [|discriminate].
  destruct (validate_envelope _ _ _ _ _ _) as [envelope|e] eqn:He; [|discriminate].
  intros H Hvalid. inversion H as [Hr]. subst r. cbn [valid errors] in *.
  set (type := get_opt message "type") in *.
  set (payload := get_opt message "payload") in *.
  assert (Hnil : validate_event type payload
                   (validate_response type payload
                      (validate_command type payload envelope)) = []).
  { destruct (validate_event _ _ _); [reflexivity|discriminate]. }
  rewrite Hnil.
  assert (Henv : envelope = []).
  { destruct envelope as [|x rest]; [reflexivity|].
    assert (Hin : In x (x :: rest)) by now left.
    apply (validate_command_keeps type payload) in Hin.
    apply (validate_response_keeps type payload) in Hin.
    apply (validate_event_keeps type payload) in Hin.
    rewrite Hnil in Hin. destruct Hin. }
  subst envelope.
  assert (Hc : validate_command type payload [] = []).
  { destruct (validate_command type payload []) as [|x rest]; [reflexivity|].
    assert (Hin : In x (x :: rest)) by now left.
    apply (validate_response_keeps type payload) in Hin.
    apply (validate_event_keeps type payload) in Hin.
    rewrite Hnil in Hin. destruct Hin. }
  rewrite Hc in Hnil.
  assert (Hr : validate_response type payload [] = []).
  { destruct (validate_response type payload []) as [|x rest]; [reflexivity|].
    assert (Hin : In x (x :: rest)) by now left.
    apply (validate_event_keeps type payload) in Hin.
    rewrite Hnil in Hin. destruct Hin. }
  rewrite Hr in Hnil.
  exists version. repeat split; assumption.
Qed.

(** A message that passed [validateMessage] has the shape of the interface:
    the cast [as BridgeMessage] of the handler is defined on it. *)
Lemma validateMessage_typed (message : JSValue) (r : ValidationResult) :
  validateMessage message = Ok r -> valid r = true ->
  exists m, as_BridgeMessage message = Some m.
Proof.
  intros H Hvalid.
  destruct (validateMessage_valid message r H Hvalid) as (version & Hv & Henv & _).
  assert (Hversion : version = get_opt message "version").
  { unfold get_opt. now rewrite Hv. }
  apply validate_envelope_clean in Henv.
  destruct Henv as ((V1 & V2) & T & (I1 & I2) & (S1 & S2) & Src & _).
  unfold as_BridgeMessage. rewrite <- Hversion.
  destruct version; try discriminate.
  destruct (get_opt message "id"); try discriminate.
  destruct (get_opt message "timestamp"); try discriminate.
  assert (Pt : exists t, parse_type (get_opt message "type") = Some t).
  { unfold includes, VALID_MESSAGE_TYPES in T. cbn [existsb] in T. unfold parse_type.
    destruct (eq_str (get_opt message "type") "event"); [now eexists|].
    destruct (eq_str (get_opt message "type") "command"); [now eexists|].
    destruct (eq_str (get_opt message "type") "query"); [now eexists|].
    destruct (eq_str (get_opt message "type") "response"); [now eexists|].
    destruct (eq_str (get_opt message "type") "error"); [now eexists|].
    discriminate. }
  assert (Ps : exists t, parse_source (get_opt message "source") = Some t).
  { unfold includes, VALID_MESSAGE_SOURCES in Src. cbn [existsb] in Src. unfold parse_source.
    destruct (eq_str (get_opt message "source") "mcp"); [now eexists|].
    destruct (eq_str (get_opt message "source") "minecraft"); [now eexists|].
    discriminate. }
  destruct Pt as [t Pt]. destruct Ps as [src Ps]. rewrite Pt, Ps.
  eexists. reflexivity.
Qed.

Lemma get_defined (v : JSValue) (k : string) :
  v <> JNull -> v <> JUndefined -> get v k = Ok (get_opt v k).
Proof. intros Hn Hu. unfold get_opt. destruct v; try reflexivity; congruence. Qed.

(** When [validateMessage] throws, and when not. *)
Lemma validateMessage_returns (message : JSValue) :
  (exists r, validateMessage message = Ok r)
  <-> message <> JNull /\ message <> JUndefined
      /\ renders (get_opt message "type") = true
      /\ renders (get_opt message "source") = true.
Proof.
  unfold validateMessage. split.
  - intros [r H].
    destruct (get message "version") as [version|] eqn:Hv; [|discriminate].
    destruct (validate_envelope _ _ _ _ _ _) as [envelope|] eqn:He; [|discriminate].
    assert (R : renders (get_opt message "type") = true
                /\ renders (get_opt message "source") = true).
    { eapply validate_envelope_returns. eexists. exact He. }
    destruct message; cbn in Hv; try discriminate; (split; [discriminate|]);
      (split; [discriminate|]); exact R.
  - intros (Hn & Hu & Ht & Hs).
    rewrite (get_defined message "version" Hn Hu).
    destruct (proj2 (validate_envelope_returns (get_opt message "version")
                       (get_opt message "type") (get_opt message "id")
                       (get_opt message "timestamp") (get_opt message "source")
                       (get_opt message "payload")) (conj Ht Hs)) as [envelope He].
    rewrite He. eexists. reflexivity.
Qed.

(** Which values have a string form: every value that is not an object or
    an array; an object that has no property [toString] of its own; an array
    whose elements have one. *)
Lemma renders_array (items : list JSValue) :
  renders (JArr items) = forallb renders items.
Proof.
  unfold renders at 1. cbn [to_string].
  induction items as [|x rest IH]; [reflexivity|].
  cbn [forallb].
  destruct (match x with
            | JUndefined | JNull => Ok EmptyString
            | _ => to_string x
            end) as [s|e] eqn:Ex.
  - assert (Rx : renders x = true).
    { unfold renders. destruct x; try reflexivity; now rewrite Ex. }
    rewrite Rx. cbn [andb].
    match goal with
    | |- context [match ?t with Ok parts => Ok (s :: parts) | Throw e => Throw e end] =>
        destruct t as [parts|e] eqn:Er
    end.
    + rewrite <- IH. reflexivity.
    + rewrite <- IH. reflexivity.
  - assert (Rx : renders x = false).
    { unfold renders. destruct x; try discriminate; now rewrite Ex. }
    rewrite Rx. reflexivity.
Qed.

End Validation.

(** C10, as the code has it.  A message whose envelope [timestamp] is the
    number 0, and whose [type] and [source] have a string form, is invalid,
    and the result carries the error 'Missing or invalid timestamp field';
    an event message whose payload [timestamp] is the number 0, and whose
    [source] has a string form, is invalid, and the result carries the error
    'Event payload must have timestamp field'.  The test
    [!message.timestamp] takes the number 0 for an absent field.  When the
    [type] or the [source] has no string form, the template literal of its
    error throws, and [validateMessage] returns no result at all. *)
Theorem validateMessage_zero_timestamp (message : JSValue) :
  (get_opt message "timestamp" = JNum 0 ->
   renders (get_opt message "type") = true ->
   renders (get_opt message "source") = true ->
   exists r es, validateMessage message = Ok r /\ valid r = false
                /\ errors r = Some es
                /\ In "Missing or invalid timestamp field" es)
  /\
  (eq_str (get_opt message "type") "event" = true ->
   get_opt (get_opt message "payload") "timestamp" = JNum 0 ->
   renders (get_opt message "source") = true ->
   exists r es, validateMessage message = Ok r /\ valid r = false
                /\ errors r = Some es
                /\ In "Event payload must have timestamp field" es)
  /\
  (renders (get_opt message "type") = false
   \/ renders (get_opt message "source") = false ->
   exists e, validateMessage message = Throw e).
Proof.
  split; [|split].
  - intros Hts Rt Rs.
    destruct (proj2 (validate_envelope_returns (get_opt message "version")
                       (get_opt message "type") (get_opt message "id")
                       (get_opt message "timestamp") (get_opt message "source")
                       (get_opt message "payload")) (conj Rt Rs)) as [envelope He].
    apply validateMessage_reports
      with (version := get_opt message "version") (envelope := envelope).
    + apply (get_opt_defined message "timestamp" _ Hts). discriminate.
    + exact He.
    + apply validate_event_keeps, validate_response_keeps, validate_command_keeps.
      apply (validate_envelope_timestamp _ _ _ _ _ _ _ He).
      rewrite Hts. reflexivity.
  - intros Hty Hpts Rs.
    assert (Rt : renders (get_opt message "type") = true).
    { destruct (get_opt message "type"); try discriminate. reflexivity. }
    destruct (proj2 (validate_envelope_returns (get_opt message "version")
                       (get_opt message "type") (get_opt message "id")
                       (get_opt message "timestamp") (get_opt message "source")
                       (get_opt message "payload")) (conj Rt Rs)) as [envelope He].
    assert (Hp : exists props, get_opt message "payload" = JObj props).
    { destruct (get_opt message "payload"); cbn in Hpts; try discriminate.
      now eexists. }
    destruct Hp as [props Hp].
    apply validateMessage_reports
      with (version := get_opt message "version") (envelope := envelope).
    + apply (get_opt_defined message "payload" _ Hp). discriminate.
    + exact He.
    + unfold validate_event at 1. rewrite Hty, Hp in *.
      cbn [truthy is_type typeof String.eqb negb orb].
      replace (negb (truthy (JObj props)) || negb (is_type (JObj props) "object"))
        with false by reflexivity.
      rewrite Hpts. cbn [truthy Z.eqb negb orb].
      apply push_if_keeps, push_if_adds.
  - intros H.
    destruct (validateMessage message) as [r|e] eqn:E; [|now exists e].
    assert (R : exists r, validateMessage message = Ok r) by now exists r.
    apply validateMessage_returns in R. destruct R as (_ & _ & Rt & Rs).
    destruct H; congruence.
Qed.

Lemma validateMessage_zero_timestamp_witness :
  (exists r es,
     validateMessage (JObj [("version", JStr "1.0.0"); ("type", JStr "query");
                            ("id", JStr "q1"); ("timestamp", JNum 0);
                            ("source", JStr "mcp"); ("payload", JObj [])]) = Ok r
     /\ valid r = false /\ errors r = Some es
     /\ In "Missing or invalid timestamp field" es)
  /\
  (exists r es,
     validateMessage (JObj [("version", JStr "1.0.0"); ("type", JStr "event");
                            ("id", JStr "e1"); ("timestamp", JNum 1700000000000);
                            ("source", JStr "minecraft");
                            ("payload", JObj [("eventType", JStr "player_join");
                                              ("timestamp", JNum 0);
                                              ("data", JObj [])])]) = Ok r
     /\ valid r = false /\ errors r = Some es
     /\ In "Event payload must have timestamp field" es)
  /\
  (exists e, validateMessage zero_timestamp_no_type = Throw e).
Proof.
  split; [|split].
  - apply (proj1 (validateMessage_zero_timestamp _)); reflexivity.
  - apply (proj1 (proj2 (validateMessage_zero_timestamp _))); reflexivity.
  - apply (proj2 (proj2 (validateMessage_zero_timestamp zero_timestamp_no_type))).
    left. reflexivity.
Defined.

(** C10 as stated fails: this message has the envelope [timestamp] 0, and
    [validateMessage] throws on it instead of returning an invalid
    result. *)
Lemma zero_timestamp_without_result :
  is_json zero_timestamp_no_type = true
  /\ get_opt zero_timestamp_no_type "timestamp" = JNum 0
  /\ validateMessage zero_timestamp_no_type
     = Throw "Cannot convert object to primitive value"
  /\ forall r, validateMessage zero_timestamp_no_type <> Ok r.
Proof.
  repeat split. intros r. discriminate.
Qed.

(** ** reconnection.ts *)

Module ReconnectionFacts.
Import Reconnection.

(** What [scheduleReconnection] does below the limit. *)
Lemma scheduleReconnection_below (m : Manager) :
  attempts m < maxAttempts (config m) ->
  let m' := scheduleReconnection m in
  attempts m' = attempts m + 1
  /\ scheduled m' = scheduled m ++ [backoff (config m) (attempts m)]
  /\ timers m' = timers m ++ [(next_timer m, backoff (config m) (attempts m))]
  /\ reconnectTimeout m' = Some (next_timer m)
  /\ socks m' = socks m.
Proof.
  intros H. unfold scheduleReconnection.
  destruct (attempts m >=? maxAttempts (config m)) eqn:E; [lia|].
  cbn. repeat split.
Qed.

(** What it does at the limit: nothing but a log entry. *)
Lemma scheduleReconnection_at_limit (m : Manager) :
  attempts m >= maxAttempts (config m) ->
  let m' := scheduleReconnection m in
  attempts m' = attempts m /\ scheduled m' = scheduled m
  /\ timers m' = timers m /\ socks m' = socks m.
Proof.
  intros H. unfold scheduleReconnection.
  destruct (attempts m >=? maxAttempts (config m)) eqn:E; [|lia].
  cbn. repeat split.
Qed.

Lemma closed_socket_is_silent (m : Manager) (i : nat) :
  all_closed m = true ->
  step m (EvOpen i) = None /\ step m (EvClose i) = None.
Proof.
  unfold all_closed. intros H. cbn.
  destruct (nth_error (socks m) i) as [r|] eqn:E; [|now split].
  apply nth_error_In in E.
  rewrite forallb_forall in H. specialize (H r E).
  destruct r; cbn in H; try discriminate. now split.
Qed.

End ReconnectionFacts.

(** C9. A [close] event at counter [a] below [maxAttempts] schedules one
    reconnection after [min(initialDelay * 2^a, maxDelay)] and makes the
    counter [a + 1]; at or above [maxAttempts] it schedules nothing and
    leaves the counter; an [open] event makes the counter 0.  With
    [maxAttempts = 5], [initialDelay = 1000] and [maxDelay] at least 16000,
    a connection that drops and whose reconnections all fail has exactly the
    five delays 1000, 2000, 4000, 8000, 16000 scheduled; after them no timer
    is pending and every socket is closed, so no event can reach the manager
    any more. *)
Theorem close_schedules_backoff :
  (forall (m : Reconnection.Manager) (i : nat) (r : ReadyState),
     nth_error (Reconnection.socks m) i = Some r -> r <> CLOSED ->
     exists m', Reconnection.step m (Reconnection.EvClose i) = Some m'
       /\ (Reconnection.attempts m < Reconnection.maxAttempts (Reconnection.config m) ->
           Reconnection.attempts m' = Reconnection.attempts m + 1
           /\ Reconnection.scheduled m' =
                Reconnection.scheduled m ++
                [Z.min (Reconnection.initialDelay (Reconnection.config m)
                        * 2 ^ Reconnection.attempts m)
                       (Reconnection.maxDelay (Reconnection.config m))]
           /\ Reconnection.timers m' =
                Reconnection.timers m ++
                [(Reconnection.next_timer m,
                  Z.min (Reconnection.initialDelay (Reconnection.config m)
                         * 2 ^ Reconnection.attempts m)
                        (Reconnection.maxDelay (Reconnection.config m)))])
       /\ (Reconnection.attempts m >= Reconnection.maxAttempts (Reconnection.config m) ->
           Reconnection.attempts m' = Reconnection.attempts m
           /\ Reconnection.scheduled m' = Reconnection.scheduled m
           /\ Reconnection.timers m' = Reconnection.timers m))
  /\
  (forall (m : Reconnection.Manager) (i : nat),
     nth_error (Reconnection.socks m) i = Some CONNECTING ->
     exists m', Reconnection.step m (Reconnection.EvOpen i) = Some m'
                /\ Reconnection.attempts m' = 0)
  /\
  (forall maxDelay : Z,
     16000 <= maxDelay ->
     let c := {| Reconnection.maxAttempts := 5; Reconnection.initialDelay := 1000;
                 Reconnection.maxDelay := maxDelay |} in
     exists m', Reconnection.run (Reconnection.connected c)
                  Reconnection.retries_fail = Some m'
       /\ Reconnection.scheduled m' = [1000; 2000; 4000; 8000; 16000]
       /\ Reconnection.attempts m' = 5
       /\ Reconnection.timers m' = []
       /\ (forall i, Reconnection.step m' (Reconnection.EvOpen i) = None
                     /\ Reconnection.step m' (Reconnection.EvClose i) = None
                     /\ Reconnection.step m' (Reconnection.EvTimer i) = None)).
Proof.
  split; [|split].
  - intros m i r Hi Hr. cbn. rewrite Hi.
    set (m1 := Reconnection.log LWarn "Connection closed"
                 [("url", JStr (Reconnection.url m))]
                 (Reconnection.with_socks (Reconnection.ws m)
                    (Reconnection.set_nth i CLOSED (Reconnection.socks m)) m)).
    exists (Reconnection.scheduleReconnection m1).
    split; [destruct r; try reflexivity; congruence|].
    split; intros H.
    + destruct (ReconnectionFacts.scheduleReconnection_below m1 H) as (A & B & C & _).
      repeat split; assumption.
    + destruct (ReconnectionFacts.scheduleReconnection_at_limit m1 H) as (A & B & C & _).
      repeat split; assumption.
  - intros m i Hi. cbn. rewrite Hi. eexists. split; reflexivity.
  - intros maxDelay H c.
    eexists. split.
    + cbv - [Z.min]. reflexivity.
    + cbv - [Z.min]. rewrite !Z.min_l by lia.
      split; [reflexivity|]. split; [reflexivity|]. split; [reflexivity|].
      intros i.
      do 7 (try destruct i as [|i]); repeat split; reflexivity.
Qed.

Lemma close_schedules_backoff_witness :
  (exists m',
     Reconnection.step (Reconnection.connected Reconnection.five_attempts) (Reconnection.EvClose 0) = Some m'
     /\ Reconnection.attempts m' = 1
     /\ Reconnection.scheduled m' = [1000]
     /\ Reconnection.timers m' = [(0%nat, 1000)])
  /\
  (exists m',
     Reconnection.step
       (Reconnection.connect
          (Reconnection.new "ws://localhost:8080" true Reconnection.five_attempts
             {| level := LInfo; console := [] |}))
       (Reconnection.EvOpen 0) = Some m'
     /\ Reconnection.attempts m' = 0)
  /\
  (exists m',
     Reconnection.run (Reconnection.connected Reconnection.five_attempts) Reconnection.retries_fail = Some m'
     /\ Reconnection.scheduled m' = [1000; 2000; 4000; 8000; 16000]
     /\ Reconnection.attempts m' = 5
     /\ Reconnection.timers m' = []
     /\ (forall i, Reconnection.step m' (Reconnection.EvOpen i) = None
                   /\ Reconnection.step m' (Reconnection.EvClose i) = None
                   /\ Reconnection.step m' (Reconnection.EvTimer i) = None)).
Proof.
  destruct close_schedules_backoff as (Hclose & Hopen & Hrun).
  split; [|split].
  - destruct (Hclose (Reconnection.connected Reconnection.five_attempts) 0%nat OPEN eq_refl) as (m' & Hs & Hlow & _).
    + discriminate.
    + exists m'. split; [exact Hs|].
      destruct Hlow as (A & B & C); [reflexivity|].
      repeat split; assumption.
  - apply Hopen. reflexivity.
  - apply (Hrun 30000). lia.
Defined.

(** A conjunction of equations between closed terms, each settled by
    evaluating both sides. *)
Ltac by_evaluation :=
  repeat (lazymatch goal with
          | |- _ /\ _ => split; [vm_compute; reflexivity|]
          end);
  vm_compute; reflexivity.

(** C4. [disconnect()] on an established connection is not final in the
    code: it closes the socket, the socket's [close] handler is still
    attached, and when the [close] event arrives it schedules a reconnection
    (here after 1000 ms), whose timer then opens a new socket.  A timer
    already pending when [disconnect()] is called is cancelled. *)
Theorem disconnect_then_close_reconnects :
  (exists m1 m2 m3,
     Reconnection.step (Reconnection.connected Reconnection.five_attempts) Reconnection.CallDisconnect = Some m1
     /\ Reconnection.timers m1 = []
     /\ Reconnection.step m1 (Reconnection.EvClose 0) = Some m2
     /\ Reconnection.timers m2 = [(0%nat, 1000)]
     /\ Reconnection.step m2 (Reconnection.EvTimer 0) = Some m3
     /\ Reconnection.socks m3 = [CLOSED; CONNECTING])
  /\
  (exists m1 m2,
     Reconnection.step (Reconnection.connected Reconnection.five_attempts) (Reconnection.EvClose 0) = Some m1
     /\ Reconnection.timers m1 = [(0%nat, 1000)]
     /\ Reconnection.step m1 Reconnection.CallDisconnect = Some m2
     /\ Reconnection.timers m2 = []).
Proof.
  split.
  - do 3 eexists. by_evaluation.
  - do 2 eexists. by_evaluation.
Qed.

(** ** The relay on concrete runs *)

(** C3. The handler asks [authorize] only about messages of type
    [command].  A schema-valid event sent by the authenticated MCP client is
    not answered with an error and is forwarded to the Minecraft client,
    and a schema-valid query sent by the authenticated Minecraft client is
    forwarded to the MCP client, although [authorize] denies both.  A
    command sent by the Minecraft client is answered with PERMISSION_DENIED
    and forwarded to nobody. *)
Theorem event_and_query_skip_authorization :
  (exists m r text,
     validateMessage event_from_mcp = Ok {| valid := true; errors := None |}
     /\ as_BridgeMessage event_from_mcp = Some m
     /\ fst (authorize Mcp m two_clients) = Ok r /\ authorized r = false
     /\ sent_of 0 (exec (on_message 0 (Some event_from_mcp)) two_clients)
        = sent_of 0 two_clients
     /\ sent_of 1 (exec (on_message 0 (Some event_from_mcp)) two_clients)
        = sent_of 1 two_clients ++ [text]
     /\ JSON_stringify (set_forwardedAt 1700000000008 (set_receivedAt 1700000000007 m))
        = Ok text)
  /\
  (exists m r text,
     validateMessage query_from_minecraft = Ok {| valid := true; errors := None |}
     /\ as_BridgeMessage query_from_minecraft = Some m
     /\ fst (authorize Minecraft m two_clients) = Ok r /\ authorized r = false
     /\ sent_of 1 (exec (on_message 1 (Some query_from_minecraft)) two_clients)
        = sent_of 1 two_clients
     /\ sent_of 0 (exec (on_message 1 (Some query_from_minecraft)) two_clients)
        = sent_of 0 two_clients ++ [text]
     /\ JSON_stringify (set_forwardedAt 1700000000008 (set_receivedAt 1700000000007 m))
        = Ok text)
  /\
  (exists text,
     validateMessage command_from_minecraft = Ok {| valid := true; errors := None |}
     /\ sent_of 0 (exec (on_message 1 (Some command_from_minecraft)) two_clients)
        = sent_of 0 two_clients
     /\ sent_of 1 (exec (on_message 1 (Some command_from_minecraft)) two_clients)
        = sent_of 1 two_clients ++ [text]
     /\ stringify_text
          (errorMessage (JStr "cmd-9") 1700000000007 PERMISSION_DENIED
             "Only MCP clients can send commands and queries") = Ok text
     /\ messageQueue (router (exec (on_message 1 (Some command_from_minecraft)) two_clients))
        = []).
Proof.
  split; [|split].
  - do 3 eexists; by_evaluation.
  - do 3 eexists; by_evaluation.
  - eexists; by_evaluation.
Qed.

(** C5. The cache is looked up by [id] and [timestamp] only.  The second
    of two calls whose messages share both sends the string cached by the
    first: the destination receives the first message twice, and never the
    serialization of the second message as stamped by its own call. *)
Theorem serialization_cache_returns_stale_string :
  exists first second s1 s2,
    fst (routeMessage (say "hello") mcp_client_id two_clients) = Ok first
    /\ fst (routeMessage (say "goodbye") mcp_client_id
              (exec (routeMessage (say "hello") mcp_client_id) two_clients)) = Ok second
    /\ JSON_stringify first = Ok s1
    /\ serialize_once second = Ok s2
    /\ sent_of 1 (exec (routeMessage (say "goodbye") mcp_client_id)
                    (exec (routeMessage (say "hello") mcp_client_id) two_clients))
       = sent_of 1 two_clients ++ [s1; s1]
    /\ s1 <> s2.
Proof.
  do 4 eexists.
  do 5 (split; [vm_compute; reflexivity|]).
  intros E. apply String.eqb_eq in E. vm_compute in E. discriminate E.
Qed.

(** ** Insertion-ordered maps *)

Section JSMapFacts.
Variables K V : Type.
Variable eqb : K -> K -> bool.
Hypothesis eqb_spec : forall a b, eqb a b = true <-> a = b.

Lemma eqb_refl (k : K) : eqb k k = true.
Proof. now apply eqb_spec. Qed.

Lemma eqb_neq (a b : K) : a <> b -> eqb a b = false.
Proof.
  intros H. destruct (eqb a b) eqn:E; [|reflexivity].
  apply eqb_spec in E. contradiction.
Qed.

Lemma get_set_same (k : K) (v : V) (m : JSMap.t K V) :
  JSMap.get eqb k (JSMap.set eqb k v m) = Some v.
Proof.
  induction m as [|[k' v'] m IH]; cbn.
  - now rewrite eqb_refl.
  - destruct (eqb k k') eqn:E; cbn; rewrite E; [reflexivity|exact IH].
Qed.

Lemma get_set_other (k k' : K) (v : V) (m : JSMap.t K V) :
  k <> k' -> JSMap.get eqb k (JSMap.set eqb k' v m) = JSMap.get eqb k m.
Proof.
  intros H. induction m as [|[k0 v0] m IH]; cbn.
  - now rewrite (eqb_neq _ _ H).
  - destruct (eqb k' k0) eqn:E; cbn.
    + apply eqb_spec in E. subst k0. now rewrite (eqb_neq _ _ H).
    + destruct (eqb k k0); [reflexivity|exact IH].
Qed.

Lemma get_delete_same (k : K) (m : JSMap.t K V) :
  JSMap.get eqb k (JSMap.delete eqb k m) = None.
Proof.
  induction m as [|[k' v'] m IH]; cbn; [reflexivity|].
  destruct (eqb k k') eqn:E; cbn; [exact IH|]. now rewrite E.
Qed.

Lemma get_delete_none (k k' : K) (m : JSMap.t K V) :
  JSMap.get eqb k m = None -> JSMap.get eqb k (JSMap.delete eqb k' m) = None.
Proof.
  induction m as [|[k0 v0] m IH]; cbn; [reflexivity|].
  destruct (eqb k k0) eqn:E; [discriminate|]. intros H.
  destruct (eqb k' k0); cbn; [now apply IH|]. rewrite E. now apply IH.
Qed.
End JSMapFacts.

Lemma Nat_eqb_spec (a b : nat) : Nat.eqb a b = true <-> a = b.
Proof. apply Nat.eqb_eq. Qed.

Lemma String_eqb_spec (a b : string) : String.eqb a b = true <-> a = b.
Proof. apply String.eqb_eq. Qed.

(** ** message-router.ts: the queue *)

Section Queue.

Lemma queueMessage_spec (message : BridgeMessage) (src : string) (w : World) :
  exists w',
    queueMessage message src w = (Ok tt, w')
    /\ messageQueue (router w') =
         enqueue (maxQueueSize (router w)) (messageQueue (router w))
           {| qm_message := message; qm_sourceClientId := src;
              qm_timestamp := clock w (now_calls w) |}
    /\ maxQueueSize (router w') = maxQueueSize (router w)
    /\ registry w' = registry w
    /\ sockets w' = sockets w
    /\ latency w' = latency w
    /\ clock w' = clock w
    /\ now_calls w' = S (now_calls w).
Proof.
  unfold queueMessage, enqueue, bind, gets, modify, log, Date_now, ret.
  destruct (Z.of_nat (List.length (messageQueue (router w))) >=? maxQueueSize (router w));
    cbn; eexists; repeat split.
Qed.

Lemma routeMessage_no_destinations (message : BridgeMessage) (src : string) (w : World) :
  destinations (msg_source message) w = [] ->
  exists w',
    routeMessage message src w
      = (Ok (set_receivedAt (clock w (now_calls w)) message), w')
    /\ messageQueue (router w') =
         enqueue (maxQueueSize (router w)) (messageQueue (router w))
           {| qm_message := set_receivedAt (clock w (now_calls w)) message;
              qm_sourceClientId := src;
              qm_timestamp := clock w (S (now_calls w)) |}
    /\ maxQueueSize (router w') = maxQueueSize (router w)
    /\ registry w' = registry w
    /\ sockets w' = sockets w
    /\ latency w' = latency w.
Proof.
  intros Hd.
  destruct (queueMessage_spec (set_receivedAt (clock w (now_calls w)) message) src
              (with_now_calls (S (now_calls w)) w))
    as (w1 & Hq & Hqueue & Hcap & Hreg & Hsock & Hlat & _).
  unfold routeMessage, bind, try_catch, Date_now.
  assert (Hdest :
    (match msg_source (set_receivedAt (clock w (now_calls w)) message) with
     | Mcp => getMinecraftClients
     | Minecraft => getMCPClients
     end) (with_now_calls (S (now_calls w)) w)
    = (Ok [], with_now_calls (S (now_calls w)) w)).
  { unfold destinations in Hd. cbn [msg_source set_receivedAt].
    destruct (msg_source message);
      unfold getMinecraftClients, getMCPClients, gets;
      cbn [registry with_now_calls]; now rewrite Hd. }
  rewrite Hdest. cbn [List.length Nat.eqb].
  rewrite Hq. unfold gets, log, modify, ret. cbn.
  eexists. split; [reflexivity|]. cbn.
  repeat split; assumption.
Qed.

Lemma skipn_S_tl {A : Type} (k : nat) (l : list A) : skipn (S k) l = tl (skipn k l).
Proof.
  revert l. induction k as [|k IH]; intros l.
  - now destruct l.
  - destruct l as [|x l]; [reflexivity|]. cbn [skipn]. apply IH.
Qed.

Lemma In_firstn {A : Type} (k : nat) (l : list A) (x : A) :
  In x (firstn k l) -> In x l.
Proof.
  revert l. induction k as [|k IH]; intros [|y l]; cbn; try tauto.
  intros [H|H]; [now left|right; now apply IH].
Qed.

Lemma lastn_length {A : Type} (n : nat) (l : list A) :
  List.length (lastn n l) = Nat.min n (List.length l).
Proof. unfold lastn. rewrite length_skipn. lia. Qed.

(** Letting one more element into a window of size [n]. *)
Lemma lastn_snoc_full {A : Type} (n : nat) (l : list A) (x : A) :
  (1 <= n <= List.length l)%nat ->
  lastn n (l ++ [x]) = tl (lastn n l) ++ [x].
Proof.
  intros H. unfold lastn. rewrite length_app. cbn [List.length].
  replace (List.length l + 1 - n)%nat with (S (List.length l - n)) by lia.
  rewrite skipn_S_tl, skipn_app.
  replace (List.length l - n - List.length l)%nat with O by lia. cbn [skipn].
  assert (E : (List.length l - n < List.length l)%nat) by lia.
  remember (List.length l - n)%nat as k. clear Heqk H.
  revert k E. induction l as [|y l IH]; intros k E; [cbn in E; lia|].
  destruct k as [|k]; [reflexivity|]. cbn [skipn]. apply IH. cbn in E. lia.
Qed.

Lemma lastn_snoc_room {A : Type} (n : nat) (l : list A) (x : A) :
  (List.length l < n)%nat ->
  lastn n (l ++ [x]) = lastn n l ++ [x].
Proof.
  intros H. unfold lastn. rewrite length_app. cbn [List.length].
  replace (List.length l + 1 - n)%nat with O by lia.
  replace (List.length l - n)%nat with O by lia. reflexivity.
Qed.

Lemma lastn_all {A : Type} (n : nat) (l : list A) :
  (List.length l <= n)%nat -> lastn n l = l.
Proof.
  intros H. unfold lastn.
  replace (List.length l - n)%nat with O by lia. reflexivity.
Qed.

Lemma lastn_app {A : Type} (n : nat) (l1 l2 : list A) :
  (n <= List.length l2)%nat -> lastn n (l1 ++ l2) = lastn n l2.
Proof.
  intros H. unfold lastn. rewrite length_app, skipn_app.
  replace (List.length l1 + List.length l2 - n)%nat
    with (List.length l1 + (List.length l2 - n))%nat by lia.
  rewrite skipn_all2 by lia. cbn [app]. f_equal. lia.
Qed.

(** [queueMessage] slides a window of size [n] over the list of all the
    entries ever enqueued. *)
Lemma enqueue_window (n : nat) (hist : list QueuedMessage) (e : QueuedMessage) :
  (1 <= n)%nat ->
  enqueue (Z.of_nat n) (lastn n hist) e = lastn n (hist ++ [e]).
Proof.
  intros Hn. unfold enqueue. rewrite lastn_length.
  destruct (Z.of_nat (Nat.min n (List.length hist)) >=? Z.of_nat n) eqn:E.
  - apply Z.geb_le in E. rewrite lastn_snoc_full by lia. reflexivity.
  - rewrite Z.geb_leb in E. apply Z.leb_gt in E.
    rewrite lastn_snoc_room by lia. reflexivity.
Qed.

(** The window along a run of calls that find no destination: every call
    adds one entry, made from its message and its caller. *)
Lemma route_seq_window (n : nat) (calls : list (BridgeMessage * string)) :
  (1 <= n)%nat ->
  forall (hist : list QueuedMessage) (w : World),
    maxQueueSize (router w) = Z.of_nat n ->
    (forall call, In call calls -> destinations (msg_source (fst call)) w = []) ->
    messageQueue (router w) = lastn n hist ->
    exists entries,
      Forall2 queued_from entries calls
      /\ messageQueue (router (route_seq calls w)) = lastn n (hist ++ entries).
Proof.
  intros Hn.
  induction calls as [|[message src] calls IH]; intros hist w Hcap Hnone Hq.
  - exists []. split; [constructor|]. cbn. now rewrite app_nil_r.
  - cbn [route_seq].
    destruct (routeMessage_no_destinations message src w)
      as (w' & Hr & Hqueue & Hcap' & Hreg & _).
    { apply (Hnone (message, src)). now left. }
    unfold exec. rewrite Hr. cbn [snd].
    rewrite Hq, Hcap, enqueue_window in Hqueue by exact Hn.
    assert (Hnone' : forall call, In call calls ->
                       destinations (msg_source (fst call)) w' = []).
    { intros call Hin. unfold destinations. rewrite Hreg.
      apply (Hnone call). now right. }
    destruct (IH _ w' (eq_trans Hcap' Hcap) Hnone' Hqueue)
      as (entries & Hent & Hfinal).
    exists ({| qm_message := set_receivedAt (clock w (now_calls w)) message;
               qm_sourceClientId := src;
               qm_timestamp := clock w (S (now_calls w)) |} :: entries).
    split.
    + constructor; [|exact Hent]. split; [reflexivity|]. now eexists.
    + rewrite Hfinal, <- app_assoc. reflexivity.
Qed.

End Queue.

(** C6. With capacity [N >= 1] and a queue no longer than [N], after
    [N + 1] calls of [routeMessage] that find no destination the queue holds
    the entries of the last [N] calls in the order of the calls (whatever
    was queued before, and the first call's entry, are gone), and after
    every prefix of the calls the queue is no longer than [N]. *)
Theorem queue_keeps_newest (N : Z) (calls : list (BridgeMessage * string)) (w : World) :
  1 <= N ->
  maxQueueSize (router w) = N ->
  Z.of_nat (List.length (messageQueue (router w))) <= N ->
  (forall call, In call calls -> destinations (msg_source (fst call)) w = []) ->
  Z.of_nat (List.length calls) = N + 1 ->
  Forall2 queued_from (messageQueue (router (route_seq calls w))) (tl calls)
  /\ map (fun q => msg_id (qm_message q)) (messageQueue (router (route_seq calls w)))
     = map (fun call => msg_id (fst call)) (tl calls)
  /\ forall k,
       Z.of_nat (List.length (messageQueue (router (route_seq (firstn k calls) w)))) <= N.
Proof.
  intros HN Hcap Hlen0 Hnone Hlen.
  assert (Hn : (1 <= Z.to_nat N)%nat) by lia.
  assert (Hcap' : maxQueueSize (router w) = Z.of_nat (Z.to_nat N)) by lia.
  assert (Hq0 : messageQueue (router w) = lastn (Z.to_nat N) (messageQueue (router w)))
    by (symmetry; apply lastn_all; lia).
  assert (Hall : Forall2 queued_from (messageQueue (router (route_seq calls w))) (tl calls)).
  { destruct (route_seq_window (Z.to_nat N) calls Hn _ w Hcap' Hnone Hq0)
      as (entries & Hent & Hfinal).
    pose proof (Forall2_length Hent) as L.
    rewrite Hfinal, lastn_app by lia.
    unfold lastn. replace (List.length entries - Z.to_nat N)%nat with 1%nat by lia.
    destruct Hent; [constructor|assumption]. }
  split; [exact Hall|]. split.
  - clear - Hall. induction Hall as [|q call qs cs [_ [t Hm]] _ IH]; [reflexivity|].
    cbn. rewrite IH, Hm. reflexivity.
  - intros k.
    destruct (route_seq_window (Z.to_nat N) (firstn k calls) Hn _ w Hcap'
                (fun call H => Hnone call (In_firstn k calls call H)) Hq0)
      as (entries & _ & Hfinal).
    rewrite Hfinal, lastn_length. lia.
Qed.

Lemma queue_keeps_newest_witness :
  Forall2 queued_from (messageQueue (router (route_seq three_events capacity_two)))
    (tl three_events)
  /\ map (fun q => msg_id (qm_message q))
         (messageQueue (router (route_seq three_events capacity_two)))
     = ["m2"; "m3"]
  /\ forall k,
       Z.of_nat (List.length
                   (messageQueue (router (route_seq (firstn k three_events) capacity_two))))
       <= 2.
Proof.
  apply (queue_keeps_newest 2 three_events capacity_two);
    [lia | reflexivity | cbn; lia | reflexivity | reflexivity].
Defined.

(** ** message-router.ts: fan-out *)

Section Routing.

Lemma shouldLog_error (lg : Logger) : shouldLog lg LError = true.
Proof. unfold shouldLog. destruct (level lg); reflexivity. Qed.

(** A line with another message is not among the lines about [about]. *)
Lemma lines_about_log_other (about : string) (l : LogLevel) (message : string)
    (context : list (string * JSValue)) (lg : Logger) :
  String.eqb message about = false ->
  lines_about about (Logger_log l message context lg) = lines_about about lg.
Proof.
  intros H. unfold Logger_log, lines_about. destruct (shouldLog lg l); [|reflexivity].
  cbn [console]. rewrite filter_app. cbn [filter log_message]. rewrite H.
  apply app_nil_r.
Qed.

(** A line logged at level error is always printed. *)
Lemma lines_about_log_error (about : string) (context : list (string * JSValue))
    (lg : Logger) :
  lines_about about (Logger_log LError about context lg)
  = lines_about about lg
    ++ [{| log_level := LError; log_message := about; log_context := context |}].
Proof.
  unfold Logger_log, lines_about. rewrite shouldLog_error.
  cbn [console]. rewrite filter_app. cbn [filter log_message].
  now rewrite String.eqb_refl.
Qed.

Lemma count_recordLatency (ty : string) (latencyMs : Z) (stats : LatencyStats) :
  count_of_type ty (recordLatency_stats ty latencyMs stats) = count_of_type ty stats + 1.
Proof.
  unfold count_of_type, recordLatency_stats, JSMap.has. cbn [byType].
  destruct (JSMap.get String.eqb ty (byType stats)) as [m|] eqn:E; cbn [negb].
  - rewrite E. rewrite (@get_set_same _ _ _ String_eqb_spec). reflexivity.
  - rewrite !(@get_set_same _ _ _ String_eqb_spec). reflexivity.
Qed.

(** Recordings of one type raise the count of the type by their number. *)
Lemma count_record_all_type (ty : string) (latencies : list Z) (stats : LatencyStats) :
  count_of_type ty (record_all (map (fun l => (ty, l)) latencies) stats)
  = count_of_type ty stats + Z.of_nat (List.length latencies).
Proof.
  revert stats. induction latencies as [|l rest IH]; intros stats; [cbn; lia|].
  change (record_all (map (fun l => (ty, l)) (l :: rest)) stats)
    with (record_all (map (fun l => (ty, l)) rest) (recordLatency_stats ty l stats)).
  rewrite IH, count_recordLatency. cbn [List.length]. lia.
Qed.

(** Replacing a socket by one in the same [readyState] changes no answer
    of [is_open] and no outcome of [send]. *)
Lemma is_open_set (h h' : nat) (s s' : Socket) (socks : JSMap.t nat Socket) :
  JSMap.get Nat.eqb h socks = Some s ->
  readyState s' = readyState s ->
  is_open h' (JSMap.set Nat.eqb h s' socks) = is_open h' socks.
Proof.
  intros E R. unfold is_open.
  destruct (Nat.eq_dec h' h) as [->|Hne].
  - rewrite (@get_set_same _ _ _ Nat_eqb_spec), E, R. reflexivity.
  - rewrite (@get_set_other _ _ _ Nat_eqb_spec) by assumption. reflexivity.
Qed.

Lemma send_error_set (h h' : nat) (s s' : Socket) (w : World) :
  JSMap.get Nat.eqb h (sockets w) = Some s ->
  readyState s' = readyState s ->
  send_error h' (with_sockets (JSMap.set Nat.eqb h s' (sockets w)) w) = send_error h' w.
Proof.
  intros E R. unfold send_error. cbn [sockets with_sockets].
  destruct (Nat.eq_dec h' h) as [->|Hne].
  - rewrite (@get_set_same _ _ _ Nat_eqb_spec), E, R. reflexivity.
  - rewrite (@get_set_other _ _ _ Nat_eqb_spec) by assumption. reflexivity.
Qed.

(** What [send] does: it throws, or it returns having written the data to
    an OPEN socket and nothing to another. *)
Lemma ws_send_spec (h : nat) (data : string) (w : World) :
  match send_error h w with
  | Some e => ws_send h data w = (Throw e, w)
  | None =>
      exists w',
        ws_send h data w = (Ok tt, w')
        /\ (forall h', sent_of h' w'
                       = sent_of h' w
                         ++ (if can_send h w && Nat.eqb h h' then [data] else []))
        /\ (forall h', send_error h' w' = send_error h' w)
        /\ (forall h', can_send h' w' = can_send h' w)
        /\ (forall h', h' <> h ->
              JSMap.get Nat.eqb h' (sockets w') = JSMap.get Nat.eqb h' (sockets w))
        /\ w' = with_sockets (sockets w') w
  end.
Proof.
  unfold ws_send. destruct (send_error h w) as [e|] eqn:Se; [reflexivity|].
  destruct (can_send h w) eqn:Hs.
  - unfold can_send, is_open in Hs. unfold update_socket, modify.
    destruct (JSMap.get Nat.eqb h (sockets w)) as [s|] eqn:E; [|discriminate].
    eexists. split; [reflexivity|].
    split; [|split; [|split; [|split]]].
    + intros h'. unfold sent_of. cbn [sockets with_sockets andb].
      destruct (Nat.eqb h h') eqn:Eh.
      * apply Nat.eqb_eq in Eh. subst h'.
        now rewrite (@get_set_same _ _ _ Nat_eqb_spec), E.
      * apply Nat.eqb_neq in Eh.
        rewrite (@get_set_other _ _ _ Nat_eqb_spec) by congruence.
        now rewrite app_nil_r.
    + intros h'. now apply send_error_set with (s := s).
    + intros h'. unfold can_send. cbn [sockets with_sockets].
      now apply is_open_set with (s := s).
    + intros h' Hne. cbn [sockets with_sockets].
      now rewrite (@get_set_other _ _ _ Nat_eqb_spec).
    + reflexivity.
  - exists w. split; [reflexivity|].
    split; [intros h'; cbn [andb]; now rewrite app_nil_r|].
    repeat split. now destruct w.
Qed.

Lemma reached_ext (dests : list ClientInfo) (w w' : World) :
  (forall h, send_error h w' = send_error h w) ->
  reached dests w' = reached dests w.
Proof.
  intros H. unfold reached, send_returns. apply filter_ext. intros d. now rewrite H.
Qed.

Lemma forward_failures_ext (message : BridgeMessage) (dests : list ClientInfo)
    (w w' : World) :
  (forall h, send_error h w' = send_error h w) ->
  forward_failures message dests w' = forward_failures message dests w.
Proof.
  intros H. unfold forward_failures. apply flat_map_ext. intros d. now rewrite H.
Qed.

Lemma open_destinations_ext (dests : list ClientInfo) (w w' : World) :
  (forall h, can_send h w' = can_send h w) ->
  open_destinations dests w' = open_destinations dests w.
Proof.
  intros H. unfold open_destinations. apply filter_ext. intros d. apply H.
Qed.

Lemma forward_unfold (routeStart : Z) (message : BridgeMessage) (messageStr : string)
    (dest : ClientInfo) (rest : list ClientInfo) (n : Z) :
  forward routeStart message messageStr (dest :: rest) n
  = bind (forward_one routeStart message messageStr dest n)
         (fun k => forward routeStart message messageStr rest k).
Proof. reflexivity. Qed.

(** A turn never throws.  When the [send] returns it counts one success,
    reads the clock once and records the latency read; when the [send]
    throws it counts and records nothing, and logs the failure with the ids
    of the message and of the destination. *)
Lemma forward_one_spec (routeStart : Z) (message : BridgeMessage) (messageStr : string)
    (dest : ClientInfo) (n : Z) (w : World) :
  exists w',
    forward_one routeStart message messageStr dest n w
      = (Ok (n + (if send_returns (ci_ws dest) w then 1 else 0)), w')
    /\ latency w'
       = (if send_returns (ci_ws dest) w
          then recordLatency_stats (MessageType_str (msg_type message))
                 (clock w (now_calls w) - routeStart) (latency w)
          else latency w)
    /\ now_calls w' = (if send_returns (ci_ws dest) w then S (now_calls w) else now_calls w)
    /\ (forall h, sent_of h w'
                  = sent_of h w
                    ++ (if can_send (ci_ws dest) w && Nat.eqb (ci_ws dest) h
                        then [messageStr] else []))
    /\ lines_about "Failed to forward message to client" (logger w')
       = lines_about "Failed to forward message to client" (logger w)
         ++ forward_failures message [dest] w
    /\ turn_frame w w'.
Proof.
  unfold forward_one, try_catch, bind, send_returns, forward_failures.
  cbn [flat_map]. rewrite app_nil_r.
  pose proof (ws_send_spec (ci_ws dest) messageStr w) as Hsend.
  destruct (send_error (ci_ws dest) w) as [e|] eqn:Se.
  - rewrite Hsend. unfold log, modify, ret. eexists. split; [now rewrite Z.add_0_r|].
    cbn [latency now_calls with_logger logger].
    split; [reflexivity|]. split; [reflexivity|].
    split.
    { intros h. unfold sent_of, can_send, is_open, send_error in *.
      cbn [sockets with_logger].
      destruct (JSMap.get Nat.eqb (ci_ws dest) (sockets w)) as [s|]; [|now rewrite app_nil_r].
      destruct (readyState s); try discriminate. cbn. now rewrite app_nil_r. }
    split; [apply lines_about_log_error|].
    constructor; try reflexivity.
    cbn [logger with_logger]. now apply lines_about_log_other.
  - destruct Hsend as (w1 & Hs & Hsent & Herr & Hcan & _ & Hw1). rewrite Hs.
    unfold Date_now, recordLatency, bind, modify, log, ret.
    rewrite Hw1.
    cbn [now_calls clock with_sockets with_now_calls latency with_latency logger].
    set (lat := clock w (now_calls w) - routeStart).
    assert (F : forall u, sockets u = sockets w1 ->
                  (forall h, send_error h u = send_error h w)
                  /\ (forall h, can_send h u = can_send h w)
                  /\ (forall h, sent_of h u
                                = sent_of h w
                                  ++ (if can_send (ci_ws dest) w && Nat.eqb (ci_ws dest) h
                                      then [messageStr] else []))).
    { intros u Hu. split; [|split]; intros h.
      - rewrite <- Herr. unfold send_error. now rewrite Hu.
      - rewrite <- Hcan. unfold can_send. now rewrite Hu.
      - rewrite <- Hsent. unfold sent_of. now rewrite Hu. }
    destruct (lat >? latencyThreshold); unfold modify; eexists;
      (split; [reflexivity|]);
      cbn [latency now_calls clock registry router logger sockets
           with_latency with_logger with_now_calls with_sockets];
      (split; [reflexivity|]); (split; [reflexivity|]);
      (split; [apply F; reflexivity|]);
      (split; [rewrite ?lines_about_log_other by reflexivity; now rewrite app_nil_r|]);
      (constructor;
       [reflexivity | apply F; reflexivity | apply F; reflexivity
       | reflexivity | reflexivity
       | cbn [logger with_logger];
         rewrite ?lines_about_log_other by reflexivity; reflexivity]).
Qed.

Lemma turn_frame_trans (w1 w2 w3 : World) :
  turn_frame w1 w2 -> turn_frame w2 w3 -> turn_frame w1 w3.
Proof.
  intros [A1 A2 A3 A4 A5 A6] [B1 B2 B3 B4 B5 B6].
  constructor;
    [congruence | intros h; now rewrite B2, A2 | intros h; now rewrite B3, A3
    | congruence | congruence | congruence].
Qed.

Lemma deliveries_cons (h : nat) (dest : ClientInfo) (rest : list ClientInfo) (w : World) :
  deliveries h (dest :: rest) w
  = ((if can_send (ci_ws dest) w && Nat.eqb (ci_ws dest) h then 1 else 0)
     + deliveries h rest w)%nat.
Proof.
  unfold deliveries, open_destinations. cbn [filter].
  destruct (can_send (ci_ws dest) w); cbn [filter andb]; [|reflexivity].
  destruct (Nat.eqb (ci_ws dest) h); reflexivity.
Qed.

Lemma loop_latencies_S (type : string) (routeStart : Z) (w w1 : World) (n : nat) :
  clock w1 = clock w -> now_calls w1 = S (now_calls w) ->
  loop_latencies type routeStart w (S n)
  = (type, clock w (now_calls w) - routeStart) :: loop_latencies type routeStart w1 n.
Proof.
  intros Hc Hn. unfold loop_latencies. cbn [seq map]. rewrite Nat.add_0_r. f_equal.
  rewrite <- seq_shift, map_map. apply map_ext. intros j.
  rewrite Hc, Hn. do 3 f_equal. lia.
Qed.

(** The loop never throws.  It counts the destinations whose [send]
    returns and records one latency for each of them; the string is written
    to the open ones; every failure is logged. *)
Lemma forward_spec (routeStart : Z) (message : BridgeMessage) (messageStr : string)
    (dests : list ClientInfo) (n : Z) (w : World) :
  exists w',
    forward routeStart message messageStr dests n w
      = (Ok (n + Z.of_nat (List.length (reached dests w))), w')
    /\ latency w'
       = record_all (loop_latencies (MessageType_str (msg_type message)) routeStart w
                       (List.length (reached dests w))) (latency w)
    /\ now_calls w' = (now_calls w + List.length (reached dests w))%nat
    /\ (forall h, sent_of h w' = sent_of h w ++ repeat messageStr (deliveries h dests w))
    /\ lines_about "Failed to forward message to client" (logger w')
       = lines_about "Failed to forward message to client" (logger w)
         ++ forward_failures message dests w
    /\ turn_frame w w'.
Proof.
  revert n w. induction dests as [|dest rest IH]; intros n w.
  - eexists. cbn. rewrite Z.add_0_r, Nat.add_0_r, !app_nil_r.
    repeat split; intros; now rewrite app_nil_r.
  - rewrite forward_unfold. unfold bind.
    destruct (forward_one_spec routeStart message messageStr dest n w)
      as (w1 & H1 & L1 & N1 & S1 & F1 & T1).
    rewrite H1.
    destruct (IH (n + (if send_returns (ci_ws dest) w then 1 else 0)) w1)
      as (w2 & H2 & L2 & N2 & S2 & F2 & T2).
    rewrite H2. exists w2.
    rewrite (reached_ext rest w w1 (turn_send_error T1)) in *.
    rewrite (forward_failures_ext message rest w w1 (turn_send_error T1)) in F2.
    assert (D : forall h, deliveries h rest w1 = deliveries h rest w).
    { intros h. unfold deliveries.
      now rewrite (open_destinations_ext rest w w1 (turn_can_send T1)). }
    assert (R : reached (dest :: rest) w
                = (if send_returns (ci_ws dest) w then [dest] else []) ++ reached rest w).
    { unfold reached. cbn [filter]. now destruct (send_returns (ci_ws dest) w). }
    rewrite R.
    pose proof (turn_clock T1) as C1.
    remember (send_returns (ci_ws dest) w) as sr eqn:Sr.
    split; [|split; [|split; [|split; [|split]]]].
    + f_equal. f_equal. rewrite length_app.
      destruct sr; cbn [List.length]; lia.
    + rewrite L2, L1. destruct sr; cbn [app List.length].
      * rewrite (loop_latencies_S _ _ w w1) by assumption. reflexivity.
      * unfold loop_latencies. now rewrite N1, C1.
    + rewrite N2, N1, length_app.
      destruct sr; cbn [List.length]; lia.
    + intros h. rewrite S2, S1, D, deliveries_cons, <- app_assoc. f_equal.
      destruct (can_send (ci_ws dest) w && Nat.eqb (ci_ws dest) h); reflexivity.
    + rewrite F2, F1, <- app_assoc. f_equal.
      unfold forward_failures. cbn [flat_map]. now rewrite app_nil_r.
    + exact (turn_frame_trans _ _ _ T1 T2).
Qed.

Lemma lookup_destinations (message : BridgeMessage) (w : World) :
  (match msg_source message with
   | Mcp => getMinecraftClients
   | Minecraft => getMCPClients
   end) w = (Ok (destinations (msg_source message) w), w).
Proof. unfold destinations. now destruct (msg_source message). Qed.

(** [serializeMessage] touches the cache and nothing else, and throws only
    what [JSON.stringify] throws, leaving the state as it was. *)
Lemma serializeMessage_frame (message : BridgeMessage) (w : World)
    (o : Outcome string) (w' : World) :
  serializeMessage message w = (o, w') ->
  latency w' = latency w /\ sockets w' = sockets w /\ registry w' = registry w
  /\ logger w' = logger w /\ clock w' = clock w /\ now_calls w' = now_calls w
  /\ messageQueue (router w') = messageQueue (router w)
  /\ maxQueueSize (router w') = maxQueueSize (router w)
  /\ (forall e, o = Throw e -> w' = w /\ JSON_stringify message = Throw e).
Proof.
  unfold serializeMessage, bind, gets, lift, modify, ret.
  destruct (JSMap.get String.eqb (cacheKey message) (serializationCache (router w))).
  - intros H. inversion H. repeat split; discriminate.
  - destruct (JSON_stringify message) as [str|e].
    + destruct (JSMap.size (serializationCache (router w)) >=? maxCacheSize (router w));
        [destruct (JSMap.keys (serializationCache (router w)))|];
        unfold modify, ret; intros H; inversion H; cbn; repeat split; discriminate.
    + intros H. inversion H. repeat split; congruence.
Qed.

(** [serializeMessage] agrees with [serialize_once] when the cache has no
    entry under the key of the message; on a hit it returns the entry. *)
Lemma serializeMessage_miss_or_hit (message : BridgeMessage) (w : World) :
  match JSMap.get String.eqb (cacheKey message) (serializationCache (router w)) with
  | None => fst (serializeMessage message w) = serialize_once message
  | Some cached => fst (serializeMessage message w) = Ok cached
  end.
Proof.
  unfold serializeMessage, serialize_once, bind, gets, lift.
  destruct (JSMap.get String.eqb (cacheKey message) (serializationCache (router w)));
    [reflexivity|].
  destruct (JSON_stringify message); [|reflexivity].
  destruct (JSMap.size (serializationCache (router w)) >=? maxCacheSize (router w));
    [destruct (JSMap.keys (serializationCache (router w)))|]; reflexivity.
Qed.

(** [routeMessage] on a destination set that is not empty, step by step. *)
Lemma routeMessage_some_destinations (message : BridgeMessage) (src : string) (w : World)
    (d : ClientInfo) (ds : list ClientInfo) :
  destinations (msg_source message) w = d :: ds ->
  routeMessage message src w =
  let stamped := set_forwardedAt (clock w (S (now_calls w)))
                   (set_receivedAt (clock w (now_calls w)) message) in
  match serializeMessage stamped (with_now_calls (S (S (now_calls w))) w) with
  | (Throw e, w2) => (Throw e, routing_error message e w2)
  | (Ok str, w2) =>
      match forward (clock w (now_calls w)) stamped str (d :: ds) 0 w2 with
      | (Throw e, w3) => (Throw e, routing_error message e w3)
      | (Ok n, w3) =>
          if n =? 0
          then match queueMessage stamped src w3 with
               | (Ok _, w4) => (Ok stamped, w4)
               | (Throw e, w4) => (Throw e, routing_error message e w4)
               end
          else (Ok stamped, w3)
      end
  end.
Proof.
  intros Hd. unfold destinations in Hd.
  unfold routeMessage, bind, try_catch, Date_now.
  cbn [msg_source set_receivedAt].
  assert (L : (match msg_source message with
               | Mcp => getMinecraftClients
               | Minecraft => getMCPClients
               end) (with_now_calls (S (now_calls w)) w)
              = (Ok (d :: ds), with_now_calls (S (now_calls w)) w)).
  { rewrite lookup_destinations. unfold destinations.
    cbn [registry with_now_calls]. now rewrite Hd. }
  rewrite L. cbn [List.length Nat.eqb]. cbv zeta. unfold with_now_calls.
  cbn [clock now_calls logger sockets registry latency router config
       authenticatedClients wss_clients conns].
  match goal with
  | |- context [serializeMessage ?m ?u] => destruct (serializeMessage m u) as [[str|e] w2]
  end; [|reflexivity].
  match goal with
  | |- context [forward ?a ?b ?c ?l ?k ?u] => destruct (forward a b c l k u) as [[n|e] w3]
  end; [|reflexivity].
  destruct (n =? 0); [|reflexivity].
  match goal with
  | |- context [queueMessage ?a ?b ?u] => destruct (queueMessage a b u) as [[[]|e] w4]
  end; reflexivity.
Qed.

(** [queueMessage] logs nothing but the overflow of the queue. *)
Lemma queueMessage_lines (about : string) (message : BridgeMessage) (src : string)
    (w : World) :
  String.eqb "Message queue overflow, oldest message dropped" about = false ->
  lines_about about (logger (exec (queueMessage message src) w))
  = lines_about about (logger w).
Proof.
  intros H. unfold exec, queueMessage, bind, gets, modify, log, Date_now, ret.
  destruct (Z.of_nat (List.length (messageQueue (router w))) >=? maxQueueSize (router w));
    cbn [snd logger with_router with_now_calls with_logger]; [|reflexivity].
  now apply lines_about_log_other.
Qed.

(** A call that finds no destination logs the queueing, and the overflow
    of the queue if any, and nothing else. *)
Lemma routeMessage_no_destinations_lines (message : BridgeMessage) (src : string)
    (w : World) :
  destinations (msg_source message) w = [] ->
  forall about,
    String.eqb "Message queue overflow, oldest message dropped" about = false ->
    String.eqb "No destination clients available, message queued" about = false ->
    lines_about about (logger (exec (routeMessage message src) w))
    = lines_about about (logger w).
Proof.
  intros Hd about H1 H2.
  unfold exec, routeMessage, bind, try_catch, Date_now.
  assert (Hdest :
    (match msg_source (set_receivedAt (clock w (now_calls w)) message) with
     | Mcp => getMinecraftClients
     | Minecraft => getMCPClients
     end) (with_now_calls (S (now_calls w)) w)
    = (Ok [], with_now_calls (S (now_calls w)) w)).
  { unfold destinations in Hd. cbn [msg_source set_receivedAt].
    destruct (msg_source message);
      unfold getMinecraftClients, getMCPClients, gets;
      cbn [registry with_now_calls]; now rewrite Hd. }
  rewrite Hdest. cbn [List.length Nat.eqb].
  pose proof (queueMessage_lines about (set_receivedAt (clock w (now_calls w)) message)
                src (with_now_calls (S (now_calls w)) w) H1) as Q.
  unfold exec in Q.
  destruct (queueMessage (set_receivedAt (clock w (now_calls w)) message) src
              (with_now_calls (S (now_calls w)) w)) as [[[]|e] w1] eqn:Hq.
  - unfold gets, log, modify, ret. cbn [snd logger with_logger] in *.
    rewrite lines_about_log_other by exact H2. exact Q.
  - destruct (queueMessage_spec (set_receivedAt (clock w (now_calls w)) message) src
                (with_now_calls (S (now_calls w)) w)) as (w2 & Hq2 & _).
    rewrite Hq2 in Hq. discriminate.
Qed.

(** The two ways [routeMessage] ends.  It returns, having recorded one
    latency for every destination whose [send] returned and logged every
    [send] that threw; or serialization threw, in which case nothing was
    sent, recorded or queued, the error was logged with the id of the
    message, and the same error is thrown to the caller. *)
Lemma routeMessage_cases (message : BridgeMessage) (src : string) (w : World) :
  let stamped := set_forwardedAt (clock w (S (now_calls w)))
                   (set_receivedAt (clock w (now_calls w)) message) in
  let dests := destinations (msg_source message) w in
  (exists m' w',
     routeMessage message src w = (Ok m', w')
     /\ latency w'
        = record_all (forward_latencies (MessageType_str (msg_type message)) w
                        (List.length (reached dests w))) (latency w)
     /\ lines_about "Failed to forward message to client" (logger w')
        = lines_about "Failed to forward message to client" (logger w)
          ++ forward_failures message dests w
     /\ lines_about "Error routing message" (logger w')
        = lines_about "Error routing message" (logger w)
     /\ (dests = []
         \/ (exists cached, JSMap.get String.eqb (cacheKey message)
                              (serializationCache (router w)) = Some cached)
         \/ exists str, JSON_stringify stamped = Ok str))
  \/
  (exists e w',
     routeMessage message src w = (Throw e, w')
     /\ dests <> []
     /\ JSMap.get String.eqb (cacheKey message) (serializationCache (router w)) = None
     /\ JSON_stringify stamped = Throw e
     /\ console (logger w')
        = console (logger w)
          ++ [{| log_level := LError; log_message := "Error routing message";
                 log_context := [("messageId", JStr (msg_id message));
                                 ("error", JStr e)] |}]
     /\ latency w' = latency w /\ sockets w' = sockets w
     /\ messageQueue (router w') = messageQueue (router w)).
Proof.
  intros stamped dests. subst dests.
  destruct (destinations (msg_source message) w) as [|d ds] eqn:Hd.
  - left. unfold forward_failures, reached. cbn [filter flat_map List.length].
    rewrite !app_nil_r.
    destruct (routeMessage_no_destinations message src w Hd)
      as (w' & Hr & _ & _ & _ & _ & Hlat).
    pose proof (routeMessage_no_destinations_lines message src w Hd) as Hlines.
    unfold exec in Hlines. rewrite Hr in Hlines. cbn [snd] in Hlines.
    do 2 eexists. split; [exact Hr|]. rewrite Hlat.
    split; [reflexivity|].
    split; [apply Hlines; reflexivity|]. split; [apply Hlines; reflexivity|]. now left.
  - rewrite (routeMessage_some_destinations message src w d ds Hd). cbv zeta.
    fold stamped.
    pose proof (serializeMessage_miss_or_hit stamped
                  (with_now_calls (S (S (now_calls w))) w)) as Hcache.
    change (cacheKey stamped) with (cacheKey message) in Hcache.
    cbn [router with_now_calls] in Hcache.
    destruct (serializeMessage stamped (with_now_calls (S (S (now_calls w))) w))
      as [[str|e] w2] eqn:Es;
      destruct (serializeMessage_frame _ _ _ _ Es)
        as (Flat & Fsock & Freg & Flog & Fclock & Fnow & Fq & _ & Fthrow).
    + left.
      assert (Herr : forall h, send_error h w2 = send_error h w).
      { intros h. unfold send_error. now rewrite Fsock. }
      destruct (forward_spec (clock w (now_calls w)) stamped str (d :: ds) 0 w2)
        as (w3 & Hf & Hlat & Hnow & _ & Hfail & T).
      rewrite Hf.
      change (msg_type stamped) with (msg_type message) in Hlat.
      rewrite (reached_ext (d :: ds) w w2 Herr) in *.
      rewrite (forward_failures_ext stamped (d :: ds) w w2 Herr) in Hfail.
      assert (Hlat' : latency w3
                      = record_all
                          (forward_latencies (MessageType_str (msg_type message)) w
                             (List.length (reached (d :: ds) w))) (latency w)).
      { rewrite Hlat, Flat. cbn [latency with_now_calls]. f_equal.
        unfold loop_latencies, forward_latencies. apply map_ext. intros j.
        rewrite Fclock, Fnow. cbn [clock now_calls with_now_calls].
        do 3 f_equal. lia. }
      assert (Hserial : (exists cached,
                           JSMap.get String.eqb (cacheKey message)
                             (serializationCache (router w)) = Some cached)
                        \/ exists s, JSON_stringify stamped = Ok s).
      { destruct (JSMap.get String.eqb (cacheKey message) (serializationCache (router w)))
          as [cached|]; [left; now exists cached|].
        right. exists str. rewrite ?Es in Hcache. cbn [fst] in Hcache.
        unfold serialize_once in Hcache. now rewrite <- Hcache. }
      rewrite Flog in Hfail. cbn [logger with_now_calls] in Hfail.
      pose proof (turn_routing_errors T) as Hrout.
      rewrite Flog in Hrout. cbn [logger with_now_calls] in Hrout.
      destruct (0 + Z.of_nat (List.length (reached (d :: ds) w)) =? 0).
      * destruct (queueMessage_spec stamped src w3)
          as (w4 & Hq & _ & _ & _ & _ & Hlat4 & _).
        pose proof (queueMessage_lines "Failed to forward message to client"
                      stamped src w3 eq_refl) as Q1.
        pose proof (queueMessage_lines "Error routing message"
                      stamped src w3 eq_refl) as Q2.
        unfold exec in Q1, Q2. rewrite Hq in *. cbn [snd] in Q1, Q2.
        do 2 eexists. split; [reflexivity|].
        split; [now rewrite Hlat4|].
        split; [now rewrite Q1|]. split; [now rewrite Q2|]. now right.
      * do 2 eexists. split; [reflexivity|].
        split; [exact Hlat'|]. split; [exact Hfail|]. split; [exact Hrout|]. now right.
    + right. destruct (Fthrow e eq_refl) as [-> Hjson].
      do 2 eexists. split; [reflexivity|].
      split; [discriminate|].
      split.
      { rewrite ?Es in Hcache.
        destruct (JSMap.get String.eqb (cacheKey message) (serializationCache (router w)));
          [discriminate|reflexivity]. }
      split; [exact Hjson|].
      unfold routing_error. cbn. unfold Logger_log. rewrite shouldLog_error. cbn.
      repeat split.
Qed.

End Routing.

(** C1, as the code has it.  An error raised while routing ends in one of
    two ways.  The failure of a [send] is caught inside the loop and logged
    at level error with the ids of the message and of the destination; it
    never reaches the caller.  The only other error, the one
    [JSON.stringify] throws on the stamped message (when there is a
    destination and the cache has no entry under the key of the message), is
    caught, logged at level error with the id of the message, and thrown
    again to the caller: the promise [routeMessage] returns is rejected. *)
Theorem routeMessage_logs_and_rethrows (message : BridgeMessage) (src : string)
    (w : World) :
  let stamped := set_forwardedAt (clock w (S (now_calls w)))
                   (set_receivedAt (clock w (now_calls w)) message) in
  let dests := destinations (msg_source message) w in
  (forall e w',
     routeMessage message src w = (Throw e, w') ->
     JSON_stringify stamped = Throw e
     /\ console (logger w')
        = console (logger w)
          ++ [{| log_level := LError; log_message := "Error routing message";
                 log_context := [("messageId", JStr (msg_id message));
                                 ("error", JStr e)] |}])
  /\
  (forall m' w',
     routeMessage message src w = (Ok m', w') ->
     lines_about "Failed to forward message to client" (logger w')
     = lines_about "Failed to forward message to client" (logger w)
       ++ forward_failures message dests w
     /\ lines_about "Error routing message" (logger w')
        = lines_about "Error routing message" (logger w))
  /\
  ((exists e w', routeMessage message src w = (Throw e, w'))
   <-> dests <> []
       /\ JSMap.get String.eqb (cacheKey message) (serializationCache (router w)) = None
       /\ exists e, JSON_stringify stamped = Throw e).
Proof.
  intros stamped dests. subst stamped dests.
  pose proof (routeMessage_cases message src w) as C. cbv zeta in C.
  destruct C as [(m1 & w1 & H1 & _ & Hfail & Hrout & Hwhy)
                | (e1 & w1 & H1 & Hd & Hmiss & Hjson & Hlog & _)].
  - split; [|split].
    + intros e w' H. rewrite H in H1. discriminate.
    + intros m' w' H. rewrite H in H1. inversion H1. subst. now split.
    + split.
      * intros (e & w' & H). rewrite H in H1. discriminate.
      * intros (Hd & Hmiss & e & Hjson).
        destruct Hwhy as [E | [[cached E] | [str E]]]; congruence.
  - split; [|split].
    + intros e w' H. rewrite H in H1. inversion H1. subst. now split.
    + intros m' w' H. rewrite H in H1. discriminate.
    + split; [intros _|intros _; now exists e1, w1].
      split; [exact Hd|]. split; [exact Hmiss|]. now exists e1.
Qed.

Lemma routeMessage_logs_and_rethrows_witness :
  (JSON_stringify
     (set_forwardedAt (clock two_clients (S (now_calls two_clients)))
        (set_receivedAt (clock two_clients (now_calls two_clients)) say_bigint))
   = Throw "Do not know how to serialize a BigInt"
   /\ console (logger (exec (routeMessage say_bigint mcp_client_id) two_clients))
      = console (logger two_clients)
        ++ [{| log_level := LError; log_message := "Error routing message";
               log_context := [("messageId", JStr "cmd-2");
                               ("error", JStr "Do not know how to serialize a BigInt")] |}])
  /\
  (lines_about "Failed to forward message to client"
     (logger (exec (routeMessage (say "hello") mcp_client_id) one_still_connecting))
   = lines_about "Failed to forward message to client" (logger one_still_connecting)
     ++ forward_failures (say "hello") (destinations Mcp one_still_connecting)
          one_still_connecting
   /\ lines_about "Error routing message"
        (logger (exec (routeMessage (say "hello") mcp_client_id) one_still_connecting))
      = lines_about "Error routing message" (logger one_still_connecting)).
Proof.
  split.
  - apply (proj1 (routeMessage_logs_and_rethrows say_bigint mcp_client_id two_clients)
             "Do not know how to serialize a BigInt"
             (exec (routeMessage say_bigint mcp_client_id) two_clients)).
    vm_compute. reflexivity.
  - apply (proj1 (proj2 (routeMessage_logs_and_rethrows (say "hello") mcp_client_id
                           one_still_connecting))
             (set_forwardedAt (clock one_still_connecting (S (now_calls one_still_connecting)))
                (set_receivedAt (clock one_still_connecting (now_calls one_still_connecting))
                   (say "hello")))
             (exec (routeMessage (say "hello") mcp_client_id) one_still_connecting)).
    vm_compute. reflexivity.
Defined.

(** C1 as stated fails: a call of [routeMessage] whose serialization throws
    ends by throwing to its caller. *)
Lemma routeMessage_propagates :
  destinations (msg_source say_bigint) two_clients <> []
  /\ fst (routeMessage say_bigint mcp_client_id two_clients)
     = Throw "Do not know how to serialize a BigInt".
Proof.
  split; [vm_compute; discriminate | vm_compute; reflexivity].
Qed.

(** The failure line of the run above: the destination on the socket that
    is still CONNECTING, with the error [send] threw. *)
Example send_failure_is_logged :
  forward_failures (say "hello") (destinations Mcp one_still_connecting)
    one_still_connecting
  = [{| log_level := LError; log_message := "Failed to forward message to client";
        log_context := [("messageId", JStr "cmd-1");
                        ("destinationId", JStr "client_1700000000004_bbbbbbbbb");
                        ("error",
                         JStr "WebSocket is not open: readyState 0 (CONNECTING)")] |}]
  /\ sent_of 2 (exec (routeMessage (say "hello") mcp_client_id) one_still_connecting)
     <> sent_of 2 one_still_connecting.
Proof.
  split; [vm_compute; reflexivity|]. vm_compute. discriminate.
Qed.

(** C2, as the code has it.  A call of [routeMessage] that returns has
    recorded one latency for every destination whose [send] returned, under
    the type of the message: the latency of the j-th is the reading of the
    clock made after that [send], less the reading [routeStart] made when the
    call began.  So the count of the type has risen by the number of these
    destinations. *)
Theorem routeMessage_records_each_success (message : BridgeMessage) (src : string)
    (w : World) (m' : BridgeMessage) (w' : World) :
  routeMessage message src w = (Ok m', w') ->
  let type := MessageType_str (msg_type message) in
  let succeeded := reached (destinations (msg_source message) w) w in
  latency w' = record_all (forward_latencies type w (List.length succeeded)) (latency w)
  /\ count_of_type type (latency w')
     = count_of_type type (latency w) + Z.of_nat (List.length succeeded).
Proof.
  intros H type succeeded. subst succeeded.
  pose proof (routeMessage_cases message src w) as C. cbv zeta in C.
  destruct C as [(m1 & w1 & H1 & Hlat & _) | (e1 & w1 & H1 & _)];
    rewrite H in H1; inversion H1; subst m1 w1.
  fold type in Hlat. split; [exact Hlat|].
  rewrite Hlat. unfold forward_latencies.
  rewrite <- (map_map (fun j => clock w (now_calls w + 2 + j)%nat - clock w (now_calls w))
                (fun l => (type, l))).
  rewrite count_record_all_type, length_map, length_seq. reflexivity.
Qed.

Lemma routeMessage_records_each_success_witness :
  latency (exec (routeMessage (say "hello") mcp_client_id) three_clients)
  = record_all
      (forward_latencies "command" three_clients
         (List.length (reached (destinations Mcp three_clients) three_clients)))
      (latency three_clients)
  /\ count_of_type "command"
       (latency (exec (routeMessage (say "hello") mcp_client_id) three_clients))
     = count_of_type "command" (latency three_clients)
       + Z.of_nat (List.length (reached (destinations Mcp three_clients) three_clients)).
Proof.
  apply (routeMessage_records_each_success (say "hello") mcp_client_id three_clients
           (set_forwardedAt 1700000000011 (set_receivedAt 1700000000010 (say "hello")))
           (exec (routeMessage (say "hello") mcp_client_id) three_clients)).
  vm_compute. reflexivity.
Defined.

(** C2 as stated fails: one call with two destinations, both sends
    succeeding, raises the count of the type by two; the two latencies
    recorded are two readings of the clock, 2 ms and 3 ms after
    [routeStart]. *)
Lemma one_call_counts_every_destination :
  List.length (destinations (msg_source (say "hello")) three_clients) = 2%nat
  /\ List.length (sent_of 1 (exec (routeMessage (say "hello") mcp_client_id) three_clients))
     = S (List.length (sent_of 1 three_clients))
  /\ List.length (sent_of 2 (exec (routeMessage (say "hello") mcp_client_id) three_clients))
     = S (List.length (sent_of 2 three_clients))
  /\ count_of_type "command" (latency three_clients) = 0
  /\ count_of_type "command"
       (latency (exec (routeMessage (say "hello") mcp_client_id) three_clients)) = 2
  /\ count_of_type "command"
       (latency (exec (routeMessage (say "hello") mcp_client_id) three_clients))
     <> count_of_type "command" (latency three_clients) + 1
  /\ forward_latencies "command" three_clients 2 = [("command", 2); ("command", 3)].
Proof.
  do 6 (split; [vm_compute; reflexivity || (vm_compute; discriminate)|]).
  vm_compute. reflexivity.
Qed.

(** ** index.ts: the heartbeat *)

Section Heartbeat.

Lemma distinct_head (x : nat) (rest : list nat) :
  distinct (x :: rest) = true -> ~ In x rest /\ distinct rest = true.
Proof.
  cbn. intros H. apply andb_prop in H. destruct H as [H1 H2]. split; [|exact H2].
  intros Hin. apply negb_true_iff in H1.
  assert (E : existsb (Nat.eqb x) rest = true).
  { apply existsb_exists. exists x. split; [exact Hin|apply Nat.eqb_refl]. }
  congruence.
Qed.

Lemma get_In {K V : Type} (eqb : K -> K -> bool)
    (eqb_spec : forall a b, eqb a b = true <-> a = b)
    (k : K) (v : V) (m : JSMap.t K V) :
  JSMap.get eqb k m = Some v -> In (k, v) m.
Proof.
  induction m as [|[k' v'] m IH]; cbn; [discriminate|].
  destruct (eqb k k') eqn:E.
  - apply eqb_spec in E. intros H. inversion H. subst. now left.
  - intros H. right. now apply IH.
Qed.

(** One turn of the [forEach] of [checkHeartbeats]. *)
Lemma checkHeartbeats_one (h : nat) (rest : list nat) (w : World) :
  exists w1,
    checkHeartbeats_each (h :: rest) w = checkHeartbeats_each rest w1
    /\ registry w1 = registry w /\ conns w1 = conns w /\ wss_clients w1 = wss_clients w
    /\ JSMap.get Nat.eqb h (sockets w1)
       = option_map tick_socket (JSMap.get Nat.eqb h (sockets w))
    /\ (forall h', h' <> h ->
          JSMap.get Nat.eqb h' (sockets w1) = JSMap.get Nat.eqb h' (sockets w)).
Proof.
  cbn [checkHeartbeats_each].
  unfold bind, gets, log, modify, ws_terminate, ws_set_isAlive, ws_ping, update_socket, modify.
  unfold tick_socket.
  destruct (JSMap.get Nat.eqb h (sockets w)) as [s|] eqn:E.
  - destruct (isAlive s) eqn:A; cbn [negb].
    + cbn [sockets with_sockets]. rewrite E.
      cbn [sockets with_sockets].
      rewrite (get_set_same nat Socket Nat.eqb Nat_eqb_spec).
      eexists. split; [reflexivity|]. cbn.
      rewrite (get_set_same nat Socket Nat.eqb Nat_eqb_spec).
      repeat split; [now rewrite A|].
      intros h' Hne.
      now rewrite !(get_set_other nat Socket Nat.eqb Nat_eqb_spec) by assumption.
    + cbn [sockets with_sockets with_logger]. rewrite E.
      eexists. split; [reflexivity|]. cbn.
      rewrite (get_set_same nat Socket Nat.eqb Nat_eqb_spec).
      repeat split.
      * rewrite A. now destruct (readyState s).
      * intros h' Hne.
        now rewrite (get_set_other nat Socket Nat.eqb Nat_eqb_spec) by assumption.
  - cbn [negb]. cbn [sockets with_sockets]. rewrite E.
    cbn [sockets with_sockets]. rewrite E.
    eexists. split; [reflexivity|]. cbn. rewrite E. repeat split.
Qed.

(** The whole [forEach]: every socket of the set gets its turn, and nothing
    else changes. *)
Lemma checkHeartbeats_each_spec (hs : list nat) :
  distinct hs = true ->
  forall w, exists w',
    checkHeartbeats_each hs w = (Ok tt, w')
    /\ registry w' = registry w /\ conns w' = conns w /\ wss_clients w' = wss_clients w
    /\ (forall h, In h hs ->
          JSMap.get Nat.eqb h (sockets w')
          = option_map tick_socket (JSMap.get Nat.eqb h (sockets w)))
    /\ (forall h, ~ In h hs ->
          JSMap.get Nat.eqb h (sockets w') = JSMap.get Nat.eqb h (sockets w)).
Proof.
  induction hs as [|h rest IH]; intros D w.
  - eexists. split; [reflexivity|]. repeat split. intros h [].
  - apply distinct_head in D. destruct D as [Hnotin D].
    destruct (checkHeartbeats_one h rest w) as (w1 & E1 & R1 & C1 & W1 & G1 & O1).
    destruct (IH D w1) as (w' & E2 & R2 & C2 & W2 & G2 & O2).
    exists w'. rewrite E1, E2.
    split; [reflexivity|]. split; [congruence|]. split; [congruence|].
    split; [congruence|]. split.
    + intros h' [->|Hin].
      * rewrite (O2 h' Hnotin). exact G1.
      * rewrite (G2 h' Hin). rewrite O1; [reflexivity|].
        intros ->. contradiction.
    + intros h' Hn. rewrite O2 by (intros Hin; apply Hn; now right).
      apply O1. intros ->. apply Hn. now left.
Qed.

(** The [close] event of a socket: the socket leaves [wss.clients], the
    registry loses the id of its connection if that was authenticated, and
    loses nothing else and gains nothing. *)
Lemma emit_close_spec (h : nat) (w : World) :
  exists w',
    emit_close h w = (Ok tt, w')
    /\ conns w' = conns w
    /\ wss_clients w' = filter (fun h' => negb (Nat.eqb h' h)) (wss_clients w)
    /\ (forall k, JSMap.get String.eqb k (registry w) = None ->
                  JSMap.get String.eqb k (registry w') = None)
    /\ (forall c, JSMap.get Nat.eqb h (conns w) = Some c ->
                  authenticated c = true -> clientId c <> EmptyString ->
                  JSMap.get String.eqb (clientId c) (registry w') = None).
Proof.
  unfold emit_close, on_close, removeClient, update_socket, bind, gets, modify, log, ret.
  set (w0 := match JSMap.get Nat.eqb h (sockets w) with
             | Some s => with_sockets (JSMap.set Nat.eqb h (with_readyState CLOSED s) (sockets w)) w
             | None => w
             end).
  assert (F : conns w0 = conns w /\ registry w0 = registry w
              /\ wss_clients w0 = wss_clients w).
  { unfold w0. destruct (JSMap.get Nat.eqb h (sockets w)); repeat split. }
  destruct F as (Fc & Fr & Fw). clearbody w0.
  cbn. rewrite ?Fc, ?Fw, ?Fr.
  destruct (JSMap.get Nat.eqb h (conns w)) as [c|] eqn:Ec.
  - destruct (authenticated c) eqn:A; cbn.
    + destruct (String.eqb (clientId c) EmptyString) eqn:I; cbn; rewrite ?Fc, ?Fw, ?Fr.
      * eexists. split; [reflexivity|]. cbn. rewrite ?Fc, ?Fw, ?Fr.
        repeat split; trivial.
        intros c' Hc' _ Hid. inversion Hc'. subst c'.
        apply String.eqb_eq in I. contradiction.
      * destruct (JSMap.get String.eqb (clientId c) (registry w)) as [ci|] eqn:Er.
        -- eexists. split; [reflexivity|]. cbn. rewrite ?Fc, ?Fw, ?Fr.
           repeat split; trivial.
           ++ intros k. apply get_delete_none.
           ++ intros c' Hc' _ _. inversion Hc'. subst c'.
              apply (get_delete_same string ClientInfo String.eqb).
        -- eexists. split; [reflexivity|]. cbn. rewrite ?Fc, ?Fw, ?Fr.
           repeat split; trivial.
           intros c' Hc' _ _. inversion Hc'. subst c'. exact Er.
    + eexists. split; [reflexivity|]. cbn. rewrite ?Fc, ?Fw, ?Fr.
      repeat split; trivial.
      intros c' Hc' Ha. inversion Hc'. subst c'. congruence.
  - eexists. split; [reflexivity|]. cbn. rewrite ?Fc, ?Fw, ?Fr.
    repeat split; trivial. intros c' Hc'. discriminate.
Qed.

Lemma emit_closes_spec (hs : list nat) :
  forall w,
    conns (emit_closes hs w) = conns w
    /\ (forall h, In h hs -> ~ In h (wss_clients (emit_closes hs w)))
    /\ (forall h, ~ In h (wss_clients w) -> ~ In h (wss_clients (emit_closes hs w)))
    /\ (forall k, JSMap.get String.eqb k (registry w) = None ->
                  JSMap.get String.eqb k (registry (emit_closes hs w)) = None)
    /\ (forall h c, In h hs -> JSMap.get Nat.eqb h (conns w) = Some c ->
                    authenticated c = true -> clientId c <> EmptyString ->
                    JSMap.get String.eqb (clientId c) (registry (emit_closes hs w)) = None).
Proof.
  induction hs as [|h rest IH]; intros w.
  - cbn. split; [reflexivity|]. split; [intros h []|].
    split; [trivial|]. split; [trivial|]. intros h c [].
  - cbn [emit_closes]. unfold exec.
    destruct (emit_close_spec h w) as (w1 & E & C1 & W1 & N1 & A1).
    rewrite E. cbn [snd].
    destruct (IH w1) as (C2 & D2 & K2 & N2 & A2).
    assert (Hgone : ~ In h (wss_clients w1)).
    { rewrite W1. intros Hin. apply filter_In in Hin. destruct Hin as [_ Hb].
      now rewrite Nat.eqb_refl in Hb. }
    split; [congruence|]. split; [|split; [|split]].
    + intros h' [->|Hin]; [now apply K2 | now apply D2].
    + intros h' Hn. apply K2. rewrite W1. intros Hin.
      apply filter_In in Hin. now destruct Hin.
    + intros k Hk. now apply N2, N1.
    + intros h' c [->|Hin] Hc Ha Hid.
      * apply N2. now apply A1.
      * apply (A2 h' c Hin); trivial. now rewrite C1.
Qed.

End Heartbeat.

(** ** index.ts: the states of the server *)

Section Reachability.

Lemma inert_step_refl (w : World) : inert_step w w.
Proof. constructor; auto. Qed.

Lemma inert_step_trans (w1 w2 w3 : World) :
  inert_step w1 w2 -> inert_step w2 w3 -> inert_step w1 w3.
Proof.
  intros [C1 R1 W1 L1] [C2 R2 W2 L2]. constructor; try congruence. auto.
Qed.

Lemma inert_ret {A : Type} (a : A) : inert (ret a).
Proof. intros w. apply inert_step_refl. Qed.

Lemma inert_throw {A : Type} (e : string) : inert (@throw A e).
Proof. intros w. apply inert_step_refl. Qed.

Lemma inert_lift {A : Type} (o : Outcome A) : inert (lift o).
Proof. intros w. apply inert_step_refl. Qed.

Lemma inert_gets {A : Type} (f : World -> A) : inert (gets f).
Proof. intros w. apply inert_step_refl. Qed.

Lemma inert_modify (f : World -> World) :
  (forall w, inert_step w (f w)) -> inert (modify f).
Proof. intros H w. apply H. Qed.

Lemma inert_bind {A B : Type} (c : M A) (k : A -> M B) :
  inert c -> (forall a, inert (k a)) -> inert (bind c k).
Proof.
  intros Hc Hk w. specialize (Hc w). unfold exec, bind in *.
  destruct (c w) as [[a|e] w1]; cbn [snd] in *; [|exact Hc].
  eapply inert_step_trans; [exact Hc|]. apply (Hk a w1).
Qed.

Lemma inert_try_catch {A : Type} (body : M A) (handler : string -> M A) :
  inert body -> (forall e, inert (handler e)) -> inert (try_catch body handler).
Proof.
  intros Hc Hk w. specialize (Hc w). unfold exec, try_catch in *.
  destruct (body w) as [[a|e] w1]; cbn [snd] in *; [exact Hc|].
  eapply inert_step_trans; [exact Hc|]. apply (Hk e w1).
Qed.

Lemma inert_Date_now : inert Date_now.
Proof. intros w. constructor; auto. Qed.

Lemma inert_log (l : LogLevel) (message : string) (context : list (string * JSValue)) :
  inert (log l message context).
Proof. intros w. constructor; auto. Qed.

(** A socket method that closes nothing. *)
Lemma inert_update_socket (h : nat) (f : Socket -> Socket) :
  (forall s, ReadyState_eqb (readyState s) CLOSED = false ->
             ReadyState_eqb (readyState (f s)) CLOSED = false) ->
  inert (update_socket h f).
Proof.
  intros Hf w. unfold exec, update_socket, modify. cbn [snd].
  destruct (JSMap.get Nat.eqb h (sockets w)) as [s|] eqn:E; [|apply inert_step_refl].
  constructor; auto.
  intros h' L. unfold is_live in *. cbn [sockets with_sockets].
  destruct (Nat.eq_dec h' h) as [->|Hne].
  - rewrite (get_set_same nat Socket Nat.eqb Nat_eqb_spec).
    rewrite E in L. apply negb_true_iff in L. now rewrite (Hf s L).
  - now rewrite (get_set_other nat Socket Nat.eqb Nat_eqb_spec) by assumption.
Qed.

Lemma inert_ws_send (h : nat) (data : string) : inert (ws_send h data).
Proof.
  intros w. unfold exec, ws_send.
  destruct (send_error h w); [apply inert_step_refl|].
  destruct (can_send h w).
  - apply (inert_update_socket h). auto.
  - apply inert_step_refl.
Qed.

Lemma inert_ws_close (h : nat) : inert (ws_close h).
Proof.
  apply inert_update_socket. intros s.
  destruct (readyState s) eqn:E; cbn; rewrite ?E; auto.
Qed.

Lemma inert_ws_terminate (h : nat) : inert (ws_terminate h).
Proof.
  apply inert_update_socket. intros s.
  destruct (readyState s) eqn:E; cbn; rewrite ?E; auto.
Qed.

Lemma inert_ws_ping (h : nat) : inert (ws_ping h).
Proof. apply inert_update_socket. auto. Qed.

Lemma inert_ws_set_isAlive (h : nat) (b : bool) : inert (ws_set_isAlive h b).
Proof. apply inert_update_socket. auto. Qed.

Create HintDb inert.

#[local] Hint Resolve inert_ret inert_throw inert_lift inert_gets inert_Date_now inert_log
  inert_ws_send inert_ws_close inert_ws_terminate inert_ws_ping inert_ws_set_isAlive : inert.

(** The steps of a computation, taken apart. *)
Ltac inert_steps :=
  repeat first
    [ solve [auto 1 with inert nocore]
    | match goal with
      | |- inert (if ?b then _ else _) => destruct b
      | |- inert (match ?x with _ => _ end) => destruct x
      | |- inert (bind _ _) => apply inert_bind; [|intros ?]
      | |- inert (try_catch _ _) => apply inert_try_catch; [|intros ?]
      | |- inert (modify _) => apply inert_modify; intros ?; constructor; auto
      end ].

Lemma inert_recordLatency (messageType : string) (latencyMs : Z) :
  inert (recordLatency messageType latencyMs).
Proof. unfold recordLatency. inert_steps. Qed.

#[local] Hint Resolve inert_recordLatency : inert.

Lemma inert_queueMessage (message : BridgeMessage) (sourceClientId : string) :
  inert (queueMessage message sourceClientId).
Proof. unfold queueMessage. inert_steps. Qed.

#[local] Hint Resolve inert_queueMessage : inert.

Lemma inert_serializeMessage (message : BridgeMessage) : inert (serializeMessage message).
Proof. unfold serializeMessage. inert_steps. Qed.

#[local] Hint Resolve inert_serializeMessage : inert.

Lemma inert_forward (routeStart : Z) (message : BridgeMessage) (messageStr : string)
    (destinations : list ClientInfo) :
  forall successCount, inert (forward routeStart message messageStr destinations successCount).
Proof.
  induction destinations as [|dest rest IH]; intros successCount; cbn [forward].
  - apply inert_ret.
  - apply inert_bind; [|intros n; apply IH].
    unfold forward_one. cbv zeta. inert_steps.
Qed.

#[local] Hint Resolve inert_forward : inert.

Lemma inert_routeMessage (message : BridgeMessage) (sourceClientId : string) :
  inert (routeMessage message sourceClientId).
Proof.
  unfold routeMessage, getMinecraftClients, getMCPClients. cbv zeta.
  inert_steps.
Qed.

#[local] Hint Resolve inert_routeMessage : inert.

Lemma inert_processQueue_each (messagesToProcess : list QueuedMessage) :
  inert (processQueue_each messagesToProcess).
Proof.
  induction messagesToProcess as [|queued rest IH]; cbn [processQueue_each].
  - apply inert_ret.
  - inert_steps.
Qed.

#[local] Hint Resolve inert_processQueue_each : inert.

Lemma inert_processQueue_catch (rejected : list (QueuedMessage * string)) :
  inert (processQueue_catch rejected).
Proof.
  induction rejected as [|[queued error] rest IH]; cbn [processQueue_catch]; inert_steps.
Qed.

#[local] Hint Resolve inert_processQueue_catch : inert.

Lemma inert_processQueue : inert processQueue.
Proof.
  unfold processQueue. inert_steps.
Qed.

Lemma inert_sendError (ws : nat) (messageId : JSValue) (code message : string) :
  inert (sendError ws messageId code message).
Proof. unfold sendError. inert_steps. Qed.

#[local] Hint Resolve inert_sendError : inert.

Lemma inert_sendResponse (ws : nat) (messageId payload : JSValue) :
  inert (sendResponse ws messageId payload).
Proof. unfold sendResponse. inert_steps. Qed.

#[local] Hint Resolve inert_sendResponse : inert.

Lemma inert_authenticate (message : JSValue) (ws : nat) : inert (authenticate message ws).
Proof. unfold authenticate. cbv zeta. inert_steps. Qed.

#[local] Hint Resolve inert_authenticate : inert.

Lemma inert_authorize (clientType : MessageSource) (message : BridgeMessage) :
  inert (authorize clientType message).
Proof. unfold authorize. cbv zeta. inert_steps. Qed.

#[local] Hint Resolve inert_authorize : inert.

Lemma inert_checkHeartbeats_each (clients : list nat) : inert (checkHeartbeats_each clients).
Proof.
  induction clients as [|ws rest IH]; cbn [checkHeartbeats_each]; inert_steps.
Qed.

#[local] Hint Resolve inert_checkHeartbeats_each : inert.

Lemma inert_checkHeartbeats : inert checkHeartbeats.
Proof.
  unfold checkHeartbeats. apply inert_bind; [apply inert_gets|].
  intros clients. apply inert_checkHeartbeats_each.
Qed.


Lemma inert_invariant (w w' : World) :
  inert_step w w' -> server_invariant w -> server_invariant w'.
Proof.
  intros [C R W L] [D Lv I U Rg]. constructor.
  - now rewrite W.
  - intros h Hh. apply L, Lv. now rewrite <- W.
  - intros h c. rewrite C. apply I.
  - intros h h' c c'. rewrite C. apply U.
  - intros id. rewrite R, C. apply Rg.
Qed.

Lemma inert_connection_is (ws : nat) (id : string) (auth : bool) (w w' : World) :
  inert_step w w' -> connection_is ws id auth w -> connection_is ws id auth w'.
Proof.
  intros S [Hinv Hc]. split; [exact (inert_invariant w w' S Hinv)|].
  now rewrite (inert_conns S).
Qed.

Lemma leads_bind {A B : Type} (P R Q : World -> Prop) (c : M A) (k : A -> M B) :
  leads P c R -> (forall w, R w -> Q w) -> (forall a, leads R (k a) Q) ->
  leads P (bind c k) Q.
Proof.
  intros Hc Hsub Hk w HP. specialize (Hc w HP). unfold exec, bind in *.
  destruct (c w) as [[a|e] w1]; cbn [snd] in *; [|now apply Hsub].
  apply (Hk a w1 Hc).
Qed.

Lemma leads_try_catch {A : Type} (P R Q : World -> Prop) (body : M A)
    (handler : string -> M A) :
  leads P body R -> (forall w, R w -> Q w) -> (forall e, leads R (handler e) Q) ->
  leads P (try_catch body handler) Q.
Proof.
  intros Hc Hsub Hk w HP. specialize (Hc w HP). unfold exec, try_catch in *.
  destruct (body w) as [[a|e] w1]; cbn [snd] in *; [now apply Hsub|].
  apply (Hk e w1 Hc).
Qed.

Lemma leads_inert {A : Type} (P : World -> Prop) (c : M A) :
  (forall w w', inert_step w w' -> P w -> P w') -> inert c -> leads P c P.
Proof. intros Hstable Hc w HP. exact (Hstable w _ (Hc w) HP). Qed.

Lemma leads_weaken {A : Type} (P Q Q' : World -> Prop) (c : M A) :
  leads P c Q -> (forall w, Q w -> Q' w) -> leads P c Q'.
Proof. intros H Hsub w HP. apply Hsub, H, HP. Qed.

Lemma exec_gets {A B : Type} (f : World -> A) (k : A -> M B) (w : World) :
  exec (x <- gets f ;; k x) w = exec (k (f w)) w.
Proof. reflexivity. Qed.

Lemma get_set_cases {V : Type} (h ws : nat) (v c : V) (m : JSMap.t nat V) :
  JSMap.get Nat.eqb h (JSMap.set Nat.eqb ws v m) = Some c ->
  (h = ws /\ c = v) \/ (h <> ws /\ JSMap.get Nat.eqb h m = Some c).
Proof.
  destruct (Nat.eq_dec h ws) as [->|Hne].
  - rewrite (get_set_same nat V Nat.eqb Nat_eqb_spec). intros H. left. split; congruence.
  - rewrite (get_set_other nat V Nat.eqb Nat_eqb_spec) by assumption. now right.
Qed.

(** The assignment [authenticated = true] of the handler. *)
Lemma update_conn_authenticates (ws : nat) (id : string) (f : Connection -> Connection) :
  (forall c, clientId (f c) = clientId c) ->
  (forall c, authenticated (f c) = true) ->
  leads (connection_is ws id false) (update_conn ws f) (connection_is ws id true).
Proof.
  intros Hid Hauth w [[D Lv I U Rg] (c & Hc & Hcid & _)].
  unfold exec, update_conn, modify. cbn [snd]. rewrite Hc.
  split.
  - constructor; cbn [conns with_conns]; auto.
    + intros h c0 H0. apply get_set_cases in H0. destruct H0 as [[-> ->]|[_ H0]].
      * rewrite Hid. exact (I ws c Hc).
      * exact (I h c0 H0).
    + intros h h' c0 c0' H0 H0' E.
      apply get_set_cases in H0. apply get_set_cases in H0'.
      destruct H0 as [[-> ->]|[Hne H0]]; destruct H0' as [[-> ->]|[Hne' H0']]; trivial.
      * rewrite Hid in E. exact (U ws h' c c0' Hc H0' E).
      * rewrite Hid in E. exact (U h ws c0 c H0 Hc E).
      * exact (U h h' c0 c0' H0 H0' E).
    + intros id' Hreg. destruct (Rg id' Hreg) as (h0 & c0 & H0 & E0 & A0).
      destruct (Nat.eq_dec h0 ws) as [->|Hne].
      * exists ws, (f c). rewrite (get_set_same nat Connection Nat.eqb Nat_eqb_spec).
        split; [reflexivity|]. split; [|apply Hauth]. rewrite Hid. congruence.
      * exists h0, c0.
        rewrite (get_set_other nat Connection Nat.eqb Nat_eqb_spec) by assumption. auto.
  - exists (f c). cbn [conns with_conns].
    rewrite (get_set_same nat Connection Nat.eqb Nat_eqb_spec).
    split; [reflexivity|]. split; [now rewrite Hid|]. intros _. apply Hauth.
Qed.

(** [addClient] with the id of an authenticated connection. *)
Lemma addClient_registered (h ws : nat) (id : string) (type : MessageSource)
    (version : string) :
  leads (connection_is h id true) (addClient id ws type version) (connection_is h id true).
Proof.
  intros w [[D Lv I U Rg] (c & Hc & Hcid & Ha)].
  unfold exec, addClient, bind, Date_now, modify, log. cbn.
  split; [|exists c; auto].
  constructor; cbn; auto.
  intros id' Hreg. unfold JSMap.has in Hreg.
  destruct (string_dec id' id) as [->|Hne].
  - exists h, c. auto.
  - rewrite (get_set_other string ClientInfo String.eqb String_eqb_spec) in Hreg
      by assumption.
    apply Rg. exact Hreg.
Qed.

Lemma message_handler_body_invariant (ws : nat) (c : Connection) (parsed : option JSValue) :
  leads (connection_is ws (clientId c) false) (message_handler_body ws c parsed)
        server_invariant.
Proof.
  pose proof (inert_connection_is ws (clientId c) false) as Sf.
  pose proof (inert_connection_is ws (clientId c) true) as St.
  assert (Wf : forall w, connection_is ws (clientId c) false w -> server_invariant w)
    by (intros w H; apply H).
  assert (Wt : forall w, connection_is ws (clientId c) true w -> server_invariant w)
    by (intros w H; apply H).
  unfold message_handler_body.
  apply (leads_bind _ (connection_is ws (clientId c) false));
    [apply leads_inert; [exact Sf|inert_steps] | exact Wf | intros message].
  destruct (negb (authenticated c)).
  - apply (leads_bind _ (connection_is ws (clientId c) false));
      [apply leads_inert; [exact Sf|inert_steps] | exact Wf | intros authResult].
    destruct (negb (success authResult)).
    + apply (leads_weaken _ (connection_is ws (clientId c) false)); [|exact Wf].
      apply leads_inert; [exact Sf|inert_steps].
    + apply (leads_bind _ (connection_is ws (clientId c) false));
        [apply leads_inert; [exact Sf|inert_steps] | exact Wf | intros version].
      apply (leads_bind _ (connection_is ws (clientId c) true));
        [apply update_conn_authenticates; reflexivity | exact Wt | intros _].
      apply (leads_weaken _ (connection_is ws (clientId c) true)); [|exact Wt].
      apply (leads_bind _ (connection_is ws (clientId c) true));
        [apply leads_inert; [exact St|inert_steps] | trivial | intros compatible].
      apply (leads_bind _ (connection_is ws (clientId c) true));
        [apply leads_inert; [exact St|inert_steps] | trivial | intros _].
      destruct (auth_clientType authResult) as [type|];
        [|apply leads_inert; [exact St|inert_steps]].
      destruct version; try solve [apply leads_inert; [exact St|inert_steps]].
      apply (leads_bind _ (connection_is ws (clientId c) true));
        [apply addClient_registered | trivial | intros _].
      apply leads_inert; [exact St|inert_steps].
  - apply (leads_weaken _ (connection_is ws (clientId c) false)); [|exact Wf].
    apply leads_inert; [exact Sf|inert_steps].
Qed.

(** The [message] event. *)
Lemma on_message_invariant (ws : nat) (parsed : option JSValue) :
  leads server_invariant (on_message ws parsed) server_invariant.
Proof.
  intros w Hinv. unfold on_message. rewrite exec_gets.
  destruct (JSMap.get Nat.eqb ws (conns w)) as [c|] eqn:E; [|exact Hinv].
  apply (leads_try_catch (connection_is ws (clientId c) false) server_invariant
           server_invariant).
  - apply message_handler_body_invariant.
  - auto.
  - intros e. apply leads_inert; [exact inert_invariant|inert_steps].
  - split; [exact Hinv|]. exists c. split; [exact E|]. split; [reflexivity|discriminate].
Qed.

Lemma distinct_snoc (l : list nat) (x : nat) :
  distinct l = true -> ~ In x l -> distinct (l ++ [x]) = true.
Proof.
  induction l as [|a l IH]; intros D Hn; [reflexivity|].
  apply distinct_head in D. destruct D as [Ha D].
  cbn [distinct app]. apply andb_true_intro. split.
  - apply negb_true_iff. rewrite existsb_app. cbn [existsb].
    apply orb_false_intro.
    + destruct (existsb (Nat.eqb a) l) eqn:E; [|reflexivity].
      apply existsb_exists in E. destruct E as (y & Hy & Ey).
      apply Nat.eqb_eq in Ey. subst y. contradiction.
    + rewrite orb_false_r. apply Nat.eqb_neq. intros ->. apply Hn. now left.
  - apply IH; [exact D|]. intros Hin. apply Hn. now right.
Qed.

Lemma distinct_filter (f : nat -> bool) (l : list nat) :
  distinct l = true -> distinct (filter f l) = true.
Proof.
  induction l as [|a l IH]; intros D; [reflexivity|].
  apply distinct_head in D. destruct D as [Ha D].
  cbn [filter]. destruct (f a); [|now apply IH].
  cbn [distinct]. apply andb_true_intro. split; [|now apply IH].
  apply negb_true_iff.
  destruct (existsb (Nat.eqb a) (filter f l)) eqn:E; [|reflexivity].
  apply existsb_exists in E. destruct E as (y & Hy & Ey).
  apply Nat.eqb_eq in Ey. subst y. apply filter_In in Hy. now destruct Hy.
Qed.

(** The [connection] event. *)
Lemma accept_spec (ws : nat) (suffix : string) (w : World) :
  conns (exec (accept ws suffix) w)
  = JSMap.set Nat.eqb ws
      {| clientId := next_clientId suffix w; authenticated := false; clientType := None;
         clientVersion := JNull |} (conns w)
  /\ registry (exec (accept ws suffix) w) = registry w
  /\ wss_clients (exec (accept ws suffix) w) = wss_clients w ++ [ws]
  /\ is_live ws (sockets (exec (accept ws suffix) w)) = true
  /\ (forall h, h <> ws ->
        is_live h (sockets (exec (accept ws suffix) w)) = is_live h (sockets w)).
Proof.
  unfold exec, accept, handleConnection, bind, modify, log, Date_now, ws_set_isAlive,
    update_socket, modify, is_live.
  cbn. rewrite (get_set_same nat Socket Nat.eqb Nat_eqb_spec). cbn.
  rewrite (get_set_same nat Socket Nat.eqb Nat_eqb_spec). cbn.
  repeat split.
  intros h Hne.
  now rewrite !(get_set_other nat Socket Nat.eqb Nat_eqb_spec) by assumption.
Qed.

Lemma accept_invariant (ws : nat) (suffix : string) (w : World) :
  enabled (OnConnection ws suffix) w = true ->
  server_invariant w -> server_invariant (exec (accept ws suffix) w).
Proof.
  cbn [enabled]. intros En [D Lv I U Rg].
  apply andb_prop in En. destruct En as [En Hfresh].
  apply andb_prop in En. destruct En as [Hsock Hconn].
  apply negb_true_iff in Hsock, Hconn. rewrite forallb_forall in Hfresh.
  destruct (accept_spec ws suffix w) as (C & R & W & Lws & Lo).
  assert (Hnew : ~ In ws (wss_clients w)).
  { intros Hin. specialize (Lv ws Hin). unfold is_live in Lv. unfold JSMap.has in Hsock.
    destruct (JSMap.get Nat.eqb ws (sockets w)); discriminate. }
  assert (Hother : forall h c, JSMap.get Nat.eqb h (conns w) = Some c ->
                               h <> ws /\ clientId c <> next_clientId suffix w).
  { intros h c Hc. split.
    - intros ->. unfold JSMap.has in Hconn. rewrite Hc in Hconn. discriminate.
    - pose proof (get_In Nat.eqb Nat_eqb_spec h c (conns w) Hc) as Hmem.
      specialize (Hfresh (h, c) Hmem). cbn [snd] in Hfresh.
      apply negb_true_iff in Hfresh. now apply String.eqb_neq in Hfresh. }
  constructor.
  - rewrite W. now apply distinct_snoc.
  - intros h. rewrite W. intros Hin. apply in_app_or in Hin.
    destruct (Nat.eq_dec h ws) as [->|Hne]; [exact Lws|].
    rewrite (Lo h Hne). destruct Hin as [Hin|[->|[]]]; [now apply Lv|contradiction].
  - intros h c. rewrite C. intros Hc. apply get_set_cases in Hc.
    destruct Hc as [[-> ->]|[_ Hc]]; [discriminate|exact (I h c Hc)].
  - intros h h' c c'. rewrite C. intros Hc Hc' E.
    apply get_set_cases in Hc. apply get_set_cases in Hc'.
    destruct Hc as [[-> ->]|[Hne Hc]]; destruct Hc' as [[-> ->]|[Hne' Hc']]; trivial.
    + destruct (Hother h' c' Hc') as [_ Hid]. cbn [clientId] in E. congruence.
    + destruct (Hother h c Hc) as [_ Hid]. cbn [clientId] in E. congruence.
    + exact (U h h' c c' Hc Hc' E).
  - intros id. rewrite R, C. intros Hreg.
    destruct (Rg id Hreg) as (h & c & Hc & Hid & Ha).
    exists h, c. destruct (Hother h c Hc) as [Hne _].
    rewrite (get_set_other nat Connection Nat.eqb Nat_eqb_spec) by assumption. auto.
Qed.

(** The [close] event leaves the other sockets as they are. *)
Lemma emit_close_sockets (ws : nat) (w : World) (h : nat) :
  h <> ws ->
  JSMap.get Nat.eqb h (sockets (exec (emit_close ws) w)) = JSMap.get Nat.eqb h (sockets w).
Proof.
  intros Hne.
  unfold exec, emit_close, on_close, removeClient, update_socket, bind, gets, modify, log, ret.
  set (w0 := match JSMap.get Nat.eqb ws (sockets w) with
             | Some s => with_sockets (JSMap.set Nat.eqb ws (with_readyState CLOSED s) (sockets w)) w
             | None => w
             end).
  assert (F : conns w0 = conns w /\ registry w0 = registry w
              /\ JSMap.get Nat.eqb h (sockets w0) = JSMap.get Nat.eqb h (sockets w)).
  { unfold w0. destruct (JSMap.get Nat.eqb ws (sockets w)); repeat split.
    cbn [sockets with_sockets].
    now rewrite (get_set_other nat Socket Nat.eqb Nat_eqb_spec) by assumption. }
  destruct F as (Fc & Fr & Fs). clearbody w0.
  cbn. rewrite ?Fc, ?Fr.
  destruct (JSMap.get Nat.eqb ws (conns w)) as [c|]; [|exact Fs].
  destruct (authenticated c); cbn; [|exact Fs].
  destruct (String.eqb (clientId c) EmptyString); cbn; rewrite ?Fc, ?Fr; [exact Fs|].
  destruct (JSMap.get String.eqb (clientId c) (registry w)); exact Fs.
Qed.

Lemma emit_close_invariant (ws : nat) (w : World) :
  server_invariant w -> server_invariant (exec (emit_close ws) w).
Proof.
  intros [D Lv I U Rg].
  pose proof (emit_close_sockets ws w) as S.
  destruct (emit_close_spec ws w) as (w' & E & C & W & N & _).
  unfold exec in *. rewrite E in *. cbn [snd] in *.
  constructor.
  - rewrite W. now apply distinct_filter.
  - intros h. rewrite W. intros Hin. apply filter_In in Hin. destruct Hin as [Hin Hne].
    apply negb_true_iff, Nat.eqb_neq in Hne.
    unfold is_live. rewrite (S h Hne). now apply Lv.
  - intros h c. rewrite C. apply I.
  - intros h h' c c'. rewrite C. apply U.
  - intros id Hreg. rewrite C. apply Rg. unfold JSMap.has in *.
    destruct (JSMap.get String.eqb id (registry w)) eqn:G; [reflexivity|].
    now rewrite (N id G) in Hreg.
Qed.

(** Every event the server handles keeps the invariant. *)
Lemma dispatch_invariant (e : ServerEvent) (w : World) :
  enabled e w = true -> server_invariant w -> server_invariant (exec (dispatch e) w).
Proof.
  intros En Hinv. destruct e as [ws suffix|ws parsed|ws|ws| |]; cbn [dispatch].
  - now apply accept_invariant.
  - now apply on_message_invariant.
  - now apply emit_close_invariant.
  - apply (inert_invariant w); [|exact Hinv]. apply inert_ws_set_isAlive.
  - apply (inert_invariant w); [|exact Hinv]. apply inert_checkHeartbeats.
  - apply (inert_invariant w); [|exact Hinv]. apply inert_processQueue.
Qed.

Lemma reachable_invariant (w : World) : reachable w -> server_invariant w.
Proof.
  induction 1 as [clock level cfg cap|w e _ IH En].
  - constructor; cbn; try discriminate; try reflexivity. intros h [].
  - now apply dispatch_invariant.
Qed.

End Reachability.

(** C7. In every state of the server, a heartbeat tick terminates every
    socket of [wss.clients] whose flag is [false]; once the [close] events
    of the terminated sockets have run, none of them is in [wss.clients] and
    none of their connections is in the registry.  On every socket whose
    flag is [true] the tick clears the flag and calls [ping] once, and
    changes nothing else.  A [pong] event sets the flag of its socket. *)
Theorem heartbeat_tick (w : World) :
  reachable w ->
  exists w1,
    checkHeartbeats w = (Ok tt, w1)
    /\ (forall h s,
          In h (wss_clients w) -> JSMap.get Nat.eqb h (sockets w) = Some s ->
          isAlive s = false ->
          (exists s1, JSMap.get Nat.eqb h (sockets w1) = Some s1
                      /\ terminated s1 = true /\ readyState s1 = CLOSING)
          /\ ~ In h (wss_clients (emit_closes (dead_clients w) w1))
          /\ (forall c, JSMap.get Nat.eqb h (conns w) = Some c ->
                JSMap.get String.eqb (clientId c)
                  (registry (emit_closes (dead_clients w) w1)) = None))
    /\ (forall h s,
          In h (wss_clients w) -> JSMap.get Nat.eqb h (sockets w) = Some s ->
          isAlive s = true ->
          exists s1, JSMap.get Nat.eqb h (sockets w1) = Some s1
                     /\ isAlive s1 = false /\ pings s1 = pings s + 1
                     /\ readyState s1 = readyState s /\ terminated s1 = terminated s
                     /\ sent s1 = sent s)
    /\ (forall h s u,
          JSMap.get Nat.eqb h (sockets u) = Some s ->
          JSMap.get Nat.eqb h (sockets (exec (on_pong h) u)) = Some (with_isAlive true s)).
Proof.
  intros Hreach. destruct (reachable_invariant w Hreach) as [D Lv I U Rg].
  destruct (checkHeartbeats_each_spec (wss_clients w) D w)
    as (w1 & E & Hreg & Hconn & Hwss & Hin & _).
  exists w1. split; [unfold checkHeartbeats, bind, gets; exact E|].
  split; [|split].
  - intros h s Hh Hs Ha.
    destruct (emit_closes_spec (dead_clients w) w1) as (_ & Hgone & _ & Hnone & Hauth).
    assert (Hdead : In h (dead_clients w)).
    { unfold dead_clients. apply filter_In. split; [exact Hh|].
      now rewrite Hs, Ha. }
    split; [|split].
    + rewrite (Hin h Hh), Hs. cbn [option_map]. unfold tick_socket. rewrite Ha.
      cbn [negb]. specialize (Lv h Hh). unfold is_live in Lv. rewrite Hs in Lv.
      eexists. split; [reflexivity|].
      destruct (readyState s); cbn in Lv; try discriminate; split; reflexivity.
    + now apply Hgone.
    + intros c Hc.
      destruct (authenticated c) eqn:A.
      * apply (Hauth h c Hdead); [now rewrite Hconn | exact A | exact (I h c Hc)].
      * apply Hnone. rewrite Hreg.
        destruct (JSMap.get String.eqb (clientId c) (registry w)) as [ci|] eqn:G;
          [|reflexivity].
        destruct (Rg (clientId c)) as (h' & c' & Hc' & Hid & A').
        { unfold JSMap.has. now rewrite G. }
        pose proof (U h' h c' c Hc' Hc Hid) as Hsame. subst h'. congruence.
  - intros h s Hh Hs Ha.
    rewrite (Hin h Hh), Hs. cbn [option_map]. unfold tick_socket. rewrite Ha.
    cbn [negb]. eexists. split; [reflexivity|]. repeat split.
  - intros h s u Hs. unfold exec, on_pong, ws_set_isAlive, update_socket, modify.
    cbn [snd]. rewrite Hs. cbn [sockets with_sockets].
    apply (get_set_same nat Socket Nat.eqb Nat_eqb_spec).
Qed.

Lemma heartbeat_tick_witness :
  exists w1,
    checkHeartbeats one_pong_missing = (Ok tt, w1)
    /\ (forall h s,
          In h (wss_clients one_pong_missing) ->
          JSMap.get Nat.eqb h (sockets one_pong_missing) = Some s ->
          isAlive s = false ->
          (exists s1, JSMap.get Nat.eqb h (sockets w1) = Some s1
                      /\ terminated s1 = true /\ readyState s1 = CLOSING)
          /\ ~ In h (wss_clients (emit_closes (dead_clients one_pong_missing) w1))
          /\ (forall c, JSMap.get Nat.eqb h (conns one_pong_missing) = Some c ->
                JSMap.get String.eqb (clientId c)
                  (registry (emit_closes (dead_clients one_pong_missing) w1)) = None))
    /\ (forall h s,
          In h (wss_clients one_pong_missing) ->
          JSMap.get Nat.eqb h (sockets one_pong_missing) = Some s ->
          isAlive s = true ->
          exists s1, JSMap.get Nat.eqb h (sockets w1) = Some s1
                     /\ isAlive s1 = false /\ pings s1 = pings s + 1
                     /\ readyState s1 = readyState s /\ terminated s1 = terminated s
                     /\ sent s1 = sent s)
    /\ (forall h s u,
          JSMap.get Nat.eqb h (sockets u) = Some s ->
          JSMap.get Nat.eqb h (sockets (exec (on_pong h) u)) = Some (with_isAlive true s)).
Proof.
  apply (heartbeat_tick one_pong_missing).
  apply (@reachable_step _ (OnPong 0%nat)); [|reflexivity].
  apply (@reachable_step _ OnHeartbeat); [|reflexivity].
  apply (@reachable_step _ (OnMessage 1%nat _)); [|reflexivity].
  apply (@reachable_step _ (OnConnection 1%nat "bbbbbbbbb")); [|vm_compute; reflexivity].
  apply (@reachable_step _ (OnMessage 0%nat _)); [|reflexivity].
  apply (@reachable_step _ (OnConnection 0%nat "aaaaaaaaa")); [|vm_compute; reflexivity].
  apply reachable_start.
Defined.

(** The tick on [one_pong_missing], evaluated: the Minecraft client is
    terminated and, after its [close] event, gone from the registry; the
    MCP client is pinged a second time. *)
Example heartbeat_tick_run :
  dead_clients one_pong_missing = [1%nat]
  /\ option_map terminated
       (JSMap.get Nat.eqb 1%nat (sockets (exec checkHeartbeats one_pong_missing))) = Some true
  /\ option_map pings
       (JSMap.get Nat.eqb 0%nat (sockets (exec checkHeartbeats one_pong_missing))) = Some 2
  /\ JSMap.keys (registry (emit_closes [1%nat] (exec checkHeartbeats one_pong_missing)))
     = [mcp_client_id]
  /\ wss_clients (emit_closes [1%nat] (exec checkHeartbeats one_pong_missing)) = [0%nat].
Proof. by_evaluation. Qed.

Section Authentication.

(** [JSON.stringify] returns a text on every value [JSON.parse] can
    return. *)
Lemma stringify_json : forall v, is_json v = true -> exists s, stringify v = Ok (Some s).
Proof.
  fix IH 1. intros v. destruct v as [| |b|n|n|s|items|props]; cbn [is_json stringify];
    intros H; try discriminate; try (eexists; reflexivity).
  - destruct b; eexists; reflexivity.
  - assert (P : exists parts,
               (fix each (xs : list JSValue) : Outcome (list string) :=
                  match xs with
                  | [] => Ok []
                  | x :: rest =>
                      match stringify x with
                      | Throw e => Throw e
                      | Ok o =>
                          match each rest with
                          | Throw e => Throw e
                          | Ok parts =>
                              Ok (match o with Some s => s | None => "null" end :: parts)
                          end
                      end
                  end) items = Ok parts).
    { revert H. induction items as [|x rest IHl]; intros H.
      - eexists. reflexivity.
      - apply andb_prop in H. destruct H as [Hx Hrest].
        destruct (IH x Hx) as [s Hs]. destruct (IHl Hrest) as [parts Hp].
        rewrite Hs, Hp. eexists. reflexivity. }
    destruct P as [parts P]. rewrite P. eexists. reflexivity.
  - assert (P : exists parts,
               (fix each (ps : list (string * JSValue)) : Outcome (list string) :=
                  match ps with
                  | [] => Ok []
                  | (k, x) :: rest =>
                      match stringify x with
                      | Throw e => Throw e
                      | Ok o =>
                          match each rest with
                          | Throw e => Throw e
                          | Ok parts =>
                              Ok (match o with
                                  | Some s => (quote k ^+ ":" ^+ s) :: parts
                                  | None => parts
                                  end)
                          end
                      end
                  end) props = Ok parts).
    { revert H. induction props as [|[k x] rest IHl]; intros H.
      - eexists. reflexivity.
      - apply andb_prop in H. destruct H as [Hx Hrest].
        destruct (IH x Hx) as [s Hs]. destruct (IHl Hrest) as [parts Hp].
        rewrite Hs, Hp. eexists. reflexivity. }
    destruct P as [parts P]. rewrite P. eexists. reflexivity.
Qed.

Lemma assoc_json (k : string) (props : list (string * JSValue)) :
  is_json (JObj props) = true ->
  match JS.assoc k props with
  | Some x => is_json x = true
  | None => True
  end.
Proof.
  induction props as [|[k' x] rest IH]; cbn [JS.assoc]; [trivial|].
  intros H. cbn [is_json] in H. apply andb_prop in H. destruct H as [Hx Hrest].
  destruct (String.eqb k k'); [exact Hx|]. apply IH. exact Hrest.
Qed.

(** A field of a parsed value serializes, to a text or (when absent) to
    nothing. *)
Lemma stringify_field (v : JSValue) (k : string) :
  is_json v = true -> exists o, stringify (get_opt v k) = Ok o.
Proof.
  intros H. unfold get_opt, get.
  destruct v as [| |b|n|n|s|items|props]; try (eexists; reflexivity).
  pose proof (assoc_json k props H) as A.
  destruct (JS.assoc k props) as [x|]; [|eexists; reflexivity].
  destruct (stringify_json x A) as [s Hs]. eexists. exact Hs.
Qed.

Lemma errorMessage_text (messageId : JSValue) (now : Z) (code message : string) :
  (exists o, stringify messageId = Ok o) ->
  exists text, stringify_text (errorMessage messageId now code message) = Ok text.
Proof.
  intros [o Ho]. unfold stringify_text, errorMessage. cbn [stringify].
  rewrite Ho. destruct o; eexists; reflexivity.
Qed.

(** [sendError] is a clock reading followed by [send]. *)
Lemma sendError_spec (ws : nat) (messageId : JSValue) (code message : string) (w : World) :
  (exists o, stringify messageId = Ok o) ->
  exists text,
    stringify_text (errorMessage messageId (clock w (now_calls w)) code message) = Ok text
    /\ sendError ws messageId code message w
       = ws_send ws text (with_now_calls (S (now_calls w)) w).
Proof.
  intros H.
  destruct (errorMessage_text messageId (clock w (now_calls w)) code message H) as [text Ht].
  exists text. split; [exact Ht|].
  unfold sendError, bind, Date_now, lift. rewrite Ht. reflexivity.
Qed.

(** On a credential that is absent, not a string or unknown,
    [authenticate] returns a failure and changes nothing but the log. *)
Lemma authenticate_bad (v : JSValue) (ws : nat) (w : World) :
  v <> JNull -> v <> JUndefined ->
  bad_credential (config w) v ->
  exists r lg,
    authenticate v ws w = (Ok r, with_logger lg w)
    /\ success r = false
    /\ (auth_error r = Some "Missing authentication token"
        \/ auth_error r = Some "Invalid authentication token").
Proof.
  intros Hn Hu Hbad.
  assert (Hp : get v "payload" = Ok (get_opt v "payload")).
  { unfold get_opt. destruct v; try reflexivity; congruence. }
  unfold authenticate, bind, lift. rewrite Hp. fold (credential v).
  destruct (negb (truthy (credential v)) || negb (is_type (credential v) "string")) eqn:C.
  - unfold log, modify, ret. do 2 eexists. split; [reflexivity|]. cbn. split; [reflexivity|].
    now left.
  - destruct Hbad as [Habs | [Hty | [Hmcp Hmc]]].
    + rewrite Habs in C. discriminate.
    + rewrite Hty in C. rewrite orb_true_r in C. discriminate.
    + unfold gets. rewrite Hmcp, Hmc. unfold log, modify, ret.
      do 2 eexists. split; [reflexivity|]. cbn. split; [reflexivity|]. now right.
Qed.


Lemma bind_ok {A B : Type} (c : M A) (k : A -> M B) (w w1 : World) (a : A) :
  c w = (Ok a, w1) -> bind c k w = k a w1.
Proof. intros H. unfold bind. now rewrite H. Qed.

Lemma bind_throw {A B : Type} (c : M A) (k : A -> M B) (w w1 : World) (e : string) :
  c w = (Throw e, w1) -> bind c k w = (Throw e, w1).
Proof. intros H. unfold bind. now rewrite H. Qed.

(** A socket whose [send] throws is not open. *)
Lemma send_error_not_open (h : nat) (w : World) (e : string) :
  send_error h w = Some e -> can_send h w = false.
Proof.
  unfold send_error, can_send, is_open.
  destruct (JSMap.get Nat.eqb h (sockets w)) as [s|]; [|reflexivity].
  destruct (readyState s); [reflexivity|discriminate..].
Qed.

(** After [close] the socket is not open; nothing else has changed. *)
Lemma ws_close_spec (h : nat) (w : World) :
  exists w',
    ws_close h w = (Ok tt, w')
    /\ can_send h w' = false
    /\ (forall h', sent_of h' w' = sent_of h' w)
    /\ w' = with_sockets (sockets w') w.
Proof.
  unfold ws_close, update_socket, modify, can_send, is_open, sent_of.
  destruct (JSMap.get Nat.eqb h (sockets w)) as [s|] eqn:E.
  - eexists. split; [reflexivity|]. cbn [sockets with_sockets].
    rewrite (get_set_same nat Socket Nat.eqb Nat_eqb_spec).
    split; [destruct (readyState s) eqn:R; cbn; rewrite ?R; reflexivity|].
    split; [|reflexivity].
    intros h'. destruct (Nat.eq_dec h' h) as [->|Hne].
    + rewrite (get_set_same nat Socket Nat.eqb Nat_eqb_spec), E.
      now destruct (readyState s).
    + now rewrite (get_set_other nat Socket Nat.eqb Nat_eqb_spec).
  - exists w. rewrite E. repeat split. now destruct w.
Qed.

Lemma on_message_bad_credential (w : World) (h : nat) (c : Connection) (v : JSValue) :
  JSMap.get Nat.eqb h (conns w) = Some c ->
  authenticated c = false ->
  is_json v = true -> v <> JNull ->
  bad_credential (config w) v ->
  exists w',
    on_message h (Some v) w = (Ok tt, w')
    /\ registry w' = registry w /\ conns w' = conns w /\ config w' = config w
    /\ can_send h w' = false
    /\ (can_send h w = true ->
        exists text reason,
          sent_of h w' = sent_of h w ++ [text]
          /\ stringify_text
               (errorMessage (get_opt v "id") (clock w (now_calls w)) AUTH_FAILED reason)
             = Ok text
          /\ (reason = "Missing authentication token"
              \/ reason = "Invalid authentication token")).
Proof.
  intros Hc Ha Hj Hn Hbad.
  assert (Hu : v <> JUndefined) by (intros ->; discriminate).
  destruct (authenticate_bad v h w Hn Hu Hbad) as (r & lg & Hauth & Hfail & Hreason).
  unfold on_message.
  rewrite (bind_ok _ _ w w (Some c)) by (unfold gets; now rewrite Hc).
  unfold try_catch, message_handler_body.
  rewrite (bind_ok _ _ w w v) by reflexivity.
  rewrite Ha. cbn [negb].
  rewrite (bind_ok _ _ _ _ _ Hauth). rewrite Hfail. cbn [negb].
  rewrite (bind_ok _ _ _ (with_logger lg w) (get_opt v "id"))
    by (unfold lift; now rewrite get_defined).
  set (reason := opt_str (auth_error r) "Authentication failed").
  destruct (sendError_spec h (get_opt v "id") AUTH_FAILED reason (with_logger lg w)
              (stringify_field v "id" Hj)) as (text & Htext & Hsend).
  change (clock (with_logger lg w) (now_calls (with_logger lg w)))
    with (clock w (now_calls w)) in Htext.
  set (u := with_now_calls (S (now_calls (with_logger lg w))) (with_logger lg w)) in *.
  pose proof (ws_send_spec h text u) as Sp.
  change (send_error h u) with (send_error h w) in Sp.
  change (can_send h u) with (can_send h w) in Sp.
  destruct (send_error h w) as [e|] eqn:Se.
  - rewrite Sp in Hsend. rewrite (bind_throw _ _ _ _ _ Hsend).
    match goal with
    | |- context [bind (log ?l ?m ?ctx) ?k u] =>
        rewrite (bind_ok (log l m ctx) k u _ tt eq_refl)
    end.
    rewrite (bind_ok (lift (Ok v)) _ _ _ v eq_refl).
    match goal with
    | |- context [bind (lift (get v "id")) ?k ?x] =>
        rewrite (bind_ok (lift (get v "id")) k x x (get_opt v "id"))
          by (unfold lift; now rewrite get_defined)
    end.
    match goal with
    | |- context [sendError h ?i ?code ?m ?x] =>
        destruct (sendError_spec h i code m x) as (text' & _ & Hsend');
          [|rewrite Hsend'; pose proof (ws_send_spec h text'
                                          (with_now_calls (S (now_calls x)) x)) as Sp';
            change (send_error h (with_now_calls (S (now_calls x)) x))
              with (send_error h w) in Sp']
    end.
    { destruct (truthy (get_opt v "id")); [apply stringify_field, Hj|].
      eexists. reflexivity. }
    rewrite Se in Sp'. rewrite Sp'. unfold ret.
    eexists. split; [reflexivity|].
    split; [reflexivity|]. split; [reflexivity|]. split; [reflexivity|].
    pose proof (send_error_not_open h w e Se) as Closed.
    split; [exact Closed|]. intros Open. congruence.
  - destruct Sp as (u1 & Hs1 & Hsent & _ & _ & _ & Hu1).
    rewrite Hs1 in Hsend. rewrite (bind_ok _ _ _ _ _ Hsend).
    destruct (ws_close_spec h u1) as (u2 & Hclose & Hshut & Hsent2 & Hu2).
    rewrite Hclose. exists u2. split; [reflexivity|].
    split; [now rewrite Hu2, Hu1|]. split; [now rewrite Hu2, Hu1|].
    split; [now rewrite Hu2, Hu1|]. split; [exact Hshut|].
    intros Open. exists text, reason. split; [|split; [exact Htext|]].
    + rewrite Hsent2, Hsent, Open, Nat.eqb_refl. reflexivity.
    + unfold reason. destruct Hreason as [-> | ->]; [left|right]; reflexivity.
Qed.

End Authentication.

(** X24. On a connection that is not authenticated, for every message
    that [JSON.parse] returned other than [null] and whose credential
    ([payload.authToken]) is absent, not a string, or in no configured token
    set: [authenticate] returns a failure; the handler returns; the socket
    is not open afterwards (when it was open, the handler sent the
    AUTH_FAILED error, with one of the two reasons of [authenticate], and
    called [close]); the registry is unchanged and the connection is still
    unauthenticated.  So a run of such messages, however long, does not add
    the connection to the registry. *)
Theorem bad_credential_is_rejected (w : World) (h : nat) (c : Connection) :
  JSMap.get Nat.eqb h (conns w) = Some c ->
  authenticated c = false ->
  (forall v,
     is_json v = true -> v <> JNull -> bad_credential (config w) v ->
     (exists r w1, authenticate v h w = (Ok r, w1) /\ success r = false)
     /\ exists w',
          on_message h (Some v) w = (Ok tt, w')
          /\ registry w' = registry w /\ conns w' = conns w
          /\ can_send h w' = false
          /\ (can_send h w = true ->
              exists text reason,
                sent_of h w' = sent_of h w ++ [text]
                /\ stringify_text
                     (errorMessage (get_opt v "id") (clock w (now_calls w))
                        AUTH_FAILED reason) = Ok text
                /\ (reason = "Missing authentication token"
                    \/ reason = "Invalid authentication token")))
  /\
  (forall vs,
     Forall (fun v => is_json v = true /\ v <> JNull /\ bad_credential (config w) v) vs ->
     registry (deliver h vs w) = registry w /\ conns (deliver h vs w) = conns w).
Proof.
  intros Hc Ha. split.
  - intros v Hj Hn Hbad. split.
    + assert (Hu : v <> JUndefined) by (intros ->; discriminate).
      destruct (authenticate_bad v h w Hn Hu Hbad) as (r & lg & Hauth & Hfail & _).
      now exists r, (with_logger lg w).
    + destruct (on_message_bad_credential w h c v Hc Ha Hj Hn Hbad)
        as (w' & H1 & H2 & H3 & _ & H5 & H6).
      exists w'. repeat split; assumption.
  - intros vs. revert w Hc.
    induction vs as [|v rest IH]; intros w Hc Hall; [now split|].
    inversion Hall as [|? ? (Hj & Hn & Hbad) Hrest]; subst.
    destruct (on_message_bad_credential w h c v Hc Ha Hj Hn Hbad)
      as (w' & H1 & H2 & H3 & H4 & _).
    cbn [deliver]. unfold exec. rewrite H1. cbn [snd].
    destruct (IH w') as [R C].
    + now rewrite H3.
    + now rewrite H4.
    + split; congruence.
Qed.

Lemma bad_credential_is_rejected_witness :
  ((exists r w1,
      authenticate (auth_message "auth-1" "mcp" "bad-token") 0 one_connection = (Ok r, w1)
      /\ success r = false)
   /\ exists w',
        on_message 0 (Some (auth_message "auth-1" "mcp" "bad-token")) one_connection
        = (Ok tt, w')
        /\ registry w' = registry one_connection /\ conns w' = conns one_connection
        /\ can_send 0 w' = false
        /\ (can_send 0 one_connection = true ->
            exists text reason,
              sent_of 0 w' = sent_of 0 one_connection ++ [text]
              /\ stringify_text
                   (errorMessage (get_opt (auth_message "auth-1" "mcp" "bad-token") "id")
                      (clock one_connection (now_calls one_connection))
                      AUTH_FAILED reason) = Ok text
              /\ (reason = "Missing authentication token"
                  \/ reason = "Invalid authentication token")))
  /\
  (registry (deliver 0 [auth_message "auth-1" "mcp" "bad-token"; JObj []] one_connection)
   = registry one_connection
   /\ conns (deliver 0 [auth_message "auth-1" "mcp" "bad-token"; JObj []] one_connection)
      = conns one_connection).
Proof.
  destruct (bad_credential_is_rejected one_connection 0 fresh_connection eq_refl eq_refl)
    as [Hstep Hseq].
  split.
  - apply Hstep; [reflexivity | discriminate |].
    right. right. split; reflexivity.
  - apply Hseq. constructor; [|constructor; [|constructor]].
    + split; [reflexivity|]. split; [discriminate|]. right. right. split; reflexivity.
    + split; [reflexivity|]. split; [discriminate|]. left. reflexivity.
Defined.

(** C8. The rejection of a bad credential is not final in the code.  On a
    bad credential the handler sends AUTH_FAILED and calls [close], the
    socket is CLOSING and the registry is empty; but the handler stays
    attached with [authenticated] still false.  The client's next message,
    arriving before the close handshake has completed, carries a good
    credential: it is authenticated, and the connection is added to the
    registry on the closing socket, where the router finds it as a
    destination.  The first message [null] is not rejected at all:
    [authenticate] throws on it, no AUTH_FAILED is sent and the socket stays
    open. *)
Theorem bad_credential_is_not_final :
  bad_credential test_config (auth_message "auth-1" "mcp" "bad-token")
  /\ (exists r w1,
        authenticate (auth_message "auth-1" "mcp" "bad-token") 0%nat one_connection = (Ok r, w1)
        /\ success r = false)
  /\ (exists text,
        stringify_text
          (errorMessage (JStr "auth-1") 1700000000002 AUTH_FAILED
             "Invalid authentication token") = Ok text
        /\ sent_of 0%nat rejected_once = [text])
  /\ option_map readyState (JSMap.get Nat.eqb 0%nat (sockets rejected_once)) = Some CLOSING
  /\ registry rejected_once = []
  /\ JSMap.get Nat.eqb 0%nat (conns rejected_once) = Some fresh_connection
  /\ (exists t,
        registry accepted_after_rejection
        = [(mcp_client_id,
            {| ci_id := mcp_client_id; ci_ws := 0%nat; ci_type := Mcp;
               ci_version := "1.0.0"; ci_connectedAt := t |})]
        /\ destinations Minecraft accepted_after_rejection
           = [{| ci_id := mcp_client_id; ci_ws := 0%nat; ci_type := Mcp;
                 ci_version := "1.0.0"; ci_connectedAt := t |}])
  /\ option_map readyState (JSMap.get Nat.eqb 0%nat (sockets accepted_after_rejection))
     = Some CLOSING
  /\ credential JNull = JUndefined
  /\ fst (authenticate JNull 0%nat one_connection)
     = Throw "Cannot read properties of null or undefined (reading 'payload')"
  /\ can_send 0%nat (exec (on_message 0%nat (Some JNull)) one_connection) = true
  /\ sent_of 0%nat (exec (on_message 0%nat (Some JNull)) one_connection) = []
  /\ JSMap.get Nat.eqb 0%nat (conns (exec (on_message 0%nat (Some JNull)) one_connection))
     = Some fresh_connection.
Proof.
  split; [right; right; split; reflexivity|].
  split; [do 2 eexists; split; vm_compute; reflexivity|].
  split; [eexists; split; vm_compute; reflexivity|].
  do 3 (split; [vm_compute; reflexivity|]).
  split; [eexists; split; vm_compute; reflexivity|].
  by_evaluation.
Qed.

(** * Further properties of the code *)

(** ** validation.ts *)

Section ValidationMore.

Lemma append_empty_r (s : string) : s ^+ EmptyString = s.
Proof. induction s as [|c s IH]; cbn; [reflexivity|now rewrite IH]. Qed.

Lemma skip_digits_app (a rest : string) :
  all_digits a = true ->
  skip_digits (a ^+ rest) = skip_digits rest.
Proof.
  induction a as [|c a IH]; cbn; [reflexivity|].
  intros H. apply andb_prop in H. destruct H as [Hc Ha]. rewrite Hc. now apply IH.
Qed.

Lemma skip_digits_split (s : string) :
  exists a, all_digits a = true /\ s = a ^+ skip_digits s
            /\ match skip_digits s with
               | EmptyString => True
               | String c _ => is_digit c = false
               end.
Proof.
  induction s as [|c s IH].
  - exists EmptyString. repeat split.
  - cbn [skip_digits]. destruct (is_digit c) eqn:D.
    + destruct IH as (a & Ha & Hs & Hnext).
      exists (String c a). cbn. rewrite D, Ha. split; [reflexivity|].
      split; [now rewrite <- Hs|exact Hnext].
    + exists EmptyString. cbn. rewrite D. repeat split.
Qed.

Lemma skip_digits_stop (s : string) :
  match s with
  | EmptyString => True
  | String c _ => is_digit c = false
  end -> skip_digits s = s.
Proof. destruct s as [|c s]; cbn; [reflexivity|]. now intros ->. Qed.

(** [\d+] followed by something that is not a digit. *)
Lemma match_digits_app (a rest : string) :
  numeral a = true ->
  match rest with
  | EmptyString => True
  | String c _ => is_digit c = false
  end ->
  match_digits (a ^+ rest) = Some rest.
Proof.
  unfold numeral. intros H Hrest. apply andb_prop in H. destruct H as [Hne Ha].
  destruct a as [|c a]; [discriminate|].
  cbn in Ha. apply andb_prop in Ha. destruct Ha as [Hc Ha].
  cbn. rewrite Hc. rewrite (skip_digits_app a rest Ha).
  now rewrite skip_digits_stop.
Qed.

Lemma match_digits_split (s rest : string) :
  match_digits s = Some rest ->
  exists a, numeral a = true /\ s = a ^+ rest.
Proof.
  destruct s as [|c s]; [discriminate|]. cbn.
  destruct (is_digit c) eqn:D; [|discriminate].
  intros H. inversion H as [Hr].
  destruct (skip_digits_split s) as (a & Ha & Hs & _).
  exists (String c a). unfold numeral. cbn. rewrite D, Ha.
  split; [reflexivity|]. now rewrite <- Hs.
Qed.

Lemma match_dot_split (s rest : string) :
  match_dot s = Some rest <-> s = "." ^+ rest.
Proof.
  destruct s as [|c s]; cbn; [split; discriminate|].
  destruct (Ascii.eqb c ".") eqn:E.
  - apply Ascii.eqb_eq in E. subst c. split; intros H; inversion H; reflexivity.
  - apply Ascii.eqb_neq in E. split; intros H; inversion H. congruence.
Qed.

End ValidationMore.

(** X1. [validateVersion] accepts exactly the strings made of three
    numerals (one or more decimal digits each) separated by two dots, with
    nothing before, between or after them. *)
Theorem validateVersion_three_numerals (version : string) :
  validateVersion version = true
  <-> exists a b c,
        numeral a = true /\ numeral b = true /\ numeral c = true
        /\ version = a ^+ "." ^+ b ^+ "." ^+ c.
Proof.
  unfold validateVersion. split.
  - destruct (match_digits version) as [s1|] eqn:E1; [|discriminate].
    destruct (match_dot s1) as [s2|] eqn:E2; [|discriminate].
    destruct (match_digits s2) as [s3|] eqn:E3; [|discriminate].
    destruct (match_dot s3) as [s4|] eqn:E4; [|discriminate].
    destruct (match_digits s4) as [s5|] eqn:E5; [|discriminate].
    intros H. apply String.eqb_eq in H. subst s5.
    apply match_digits_split in E1, E3, E5.
    apply match_dot_split in E2, E4.
    destruct E1 as (a & Ha & ->). destruct E3 as (b & Hb & ->).
    destruct E5 as (c & Hc & ->). subst s1 s3.
    exists a, b, c. repeat split; try assumption.
    cbn. now rewrite append_empty_r.
  - intros (a & b & c & Ha & Hb & Hc & ->).
    assert (D : forall r, match_dot ("." ^+ r) = Some r) by reflexivity.
    rewrite (match_digits_app a ("." ^+ b ^+ "." ^+ c) Ha) by reflexivity.
    rewrite D.
    rewrite (match_digits_app b ("." ^+ c) Hb) by reflexivity.
    rewrite D.
    replace c with (c ^+ EmptyString) by apply append_empty_r.
    now rewrite (match_digits_app c EmptyString Hc).
Qed.

Section ValidationSound.

Lemma push_if_nil (cond : bool) (e : string) (errors : list string) :
  push_if cond e errors = [] -> cond = false /\ errors = [].
Proof.
  unfold push_if. destruct cond; [|now split].
  intros H. apply app_eq_nil in H. destruct H as [_ H]. discriminate.
Qed.

Lemma truthy_string (v : JSValue) :
  negb (truthy v) || negb (is_type v "string") = false ->
  exists s, v = JStr s /\ s <> EmptyString.
Proof.
  intros H. apply orb_false_elim in H. destruct H as [Ht Hs].
  apply negb_false_iff in Ht, Hs.
  destruct v; try discriminate. eexists. split; [reflexivity|].
  intros ->. discriminate.
Qed.

Lemma truthy_number (v : JSValue) :
  negb (truthy v) || negb (is_type v "number") = false ->
  exists n, v = JNum n /\ n <> 0.
Proof.
  intros H. apply orb_false_elim in H. destruct H as [Ht Hs].
  apply negb_false_iff in Ht, Hs.
  destruct v; try discriminate. eexists. split; [reflexivity|].
  intros ->. discriminate.
Qed.

Lemma parse_type_str (v : JSValue) (t : MessageType) :
  parse_type v = Some t -> v = JStr (MessageType_str t).
Proof.
  unfold parse_type, eq_str. destruct v; try discriminate.
  repeat match goal with
         | |- context [String.eqb ?a ?b] =>
             destruct (String.eqb_spec a b); [intros H; inversion H; subst; reflexivity|]
         end.
  discriminate.
Qed.

Lemma parse_source_str (v : JSValue) (s : MessageSource) :
  parse_source v = Some s -> v = JStr (MessageSource_str s).
Proof.
  unfold parse_source, eq_str. destruct v; try discriminate.
  repeat match goal with
         | |- context [String.eqb ?a ?b] =>
             destruct (String.eqb_spec a b); [intros H; inversion H; subst; reflexivity|]
         end.
  discriminate.
Qed.

(** Assigning to a property the value it has changes nothing. *)
Lemma put_same (k : string) (x : JSValue) (props : list (string * JSValue)) :
  assoc k props = Some x -> put k x props = props.
Proof.
  unfold put. induction props as [|[k' x'] rest IH]; cbn [assoc JSMap.set]; [discriminate|].
  destruct (String.eqb k k').
  - intros H. now inversion H.
  - intros H. now rewrite IH.
Qed.

Lemma get_opt_assoc (props : list (string * JSValue)) (k : string) (x : JSValue) :
  get_opt (JObj props) k = x -> x <> JUndefined -> assoc k props = Some x.
Proof.
  unfold get_opt. cbn [get]. destruct (assoc k props); [congruence|].
  intros <- H. now destruct H.
Qed.

Lemma put_opt_same (k : string) (props : list (string * JSValue)) :
  put_opt k (num_opt (get_opt (JObj props) k)) props = props.
Proof.
  destruct (get_opt (JObj props) k) as [| | |n| | | |] eqn:E; try reflexivity.
  cbn [num_opt put_opt]. apply put_same. apply get_opt_assoc; [exact E|discriminate].
Qed.

End ValidationSound.

(** X2. What [validateMessage] guarantees of a message it accepts: the
    version and the id are non-empty strings, the timestamp is a number
    other than 0, the type and the source are of the protocol, and the
    payload is present; a command carries a non-empty string [command] and
    an object [args], a response a boolean [success], and an event a
    non-empty string [eventType], a number [timestamp] other than 0 and a
    truthy [data]. *)
Theorem validateMessage_sound (message : JSValue) (r : ValidationResult) :
  validateMessage message = Ok r -> valid r = true ->
  exists m,
    as_BridgeMessage message = Some m
    /\ errors r = None
    /\ msg_version m <> EmptyString /\ msg_id m <> EmptyString /\ msg_timestamp m <> 0
    /\ msg_payload m = get_opt message "payload" /\ msg_payload m <> JUndefined
    /\ (msg_type m = TCommand ->
        (exists c, get_opt (msg_payload m) "command" = JStr c /\ c <> EmptyString)
        /\ truthy (get_opt (msg_payload m) "args") = true
        /\ typeof (get_opt (msg_payload m) "args") = "object")
    /\ (msg_type m = TResponse ->
        exists b, get_opt (msg_payload m) "success" = JBool b)
    /\ (msg_type m = TEvent ->
        (exists t, get_opt (msg_payload m) "eventType" = JStr t /\ t <> EmptyString)
        /\ (exists n, get_opt (msg_payload m) "timestamp" = JNum n /\ n <> 0)
        /\ truthy (get_opt (msg_payload m) "data") = true).
Proof.
  intros H Hvalid.
  destruct (validateMessage_valid message r H Hvalid)
    as (version & Hv & Henv & Hcommand & Hresponse & Hevent & Herrors).
  assert (Hversion : version = get_opt message "version").
  { unfold get_opt. now rewrite Hv. }
  set (type := get_opt message "type") in *.
  set (payload := get_opt message "payload") in *.
  apply validate_envelope_clean in Henv.
  destruct Henv as ((V1 & V2) & T & (I1 & I2) & (S1 & S2) & Src & Hpayload).
  unfold as_BridgeMessage. rewrite <- Hversion. fold type.
  destruct version as [| | | | |ver| |]; try discriminate.
  destruct (get_opt message "id") as [| | | | |id| |]; try discriminate.
  destruct (get_opt message "timestamp") as [| | |ts| | | |]; try discriminate.
  assert (Pt : exists t, parse_type type = Some t).
  { unfold includes, VALID_MESSAGE_TYPES in T. cbn [existsb] in T. unfold parse_type.
    destruct (eq_str type "event"); [now eexists|].
    destruct (eq_str type "command"); [now eexists|].
    destruct (eq_str type "query"); [now eexists|].
    destruct (eq_str type "response"); [now eexists|].
    destruct (eq_str type "error"); [now eexists|].
    discriminate. }
  assert (Ps : exists t, parse_source (get_opt message "source") = Some t).
  { unfold includes, VALID_MESSAGE_SOURCES in Src. cbn [existsb] in Src. unfold parse_source.
    destruct (eq_str (get_opt message "source") "mcp"); [now eexists|].
    destruct (eq_str (get_opt message "source") "minecraft"); [now eexists|].
    discriminate. }
  destruct Pt as [t Pt]. destruct Ps as [src Ps]. rewrite Pt, Ps.
  apply parse_type_str in Pt.
  eexists. split; [reflexivity|]. cbn [msg_version msg_id msg_timestamp msg_payload msg_type].
  fold payload.
  split; [exact Herrors|].
  split; [intros ->; discriminate|]. split; [intros ->; discriminate|].
  split; [intros ->; discriminate|]. split; [reflexivity|].
  split; [intros E; rewrite E in Hpayload; discriminate|].
  split; [|split].
  - intros ->. rewrite Pt in Hcommand. unfold validate_command in Hcommand.
    cbn [eq_str MessageType_str String.eqb Ascii.eqb Bool.eqb] in Hcommand.
    destruct (negb (truthy payload) || negb (is_type payload "object")); [discriminate|].
    cbv zeta in Hcommand. apply push_if_nil in Hcommand. destruct Hcommand as [Hargs Hcmd].
    apply push_if_nil in Hcmd. destruct Hcmd as [Hcmd _].
    split; [now apply truthy_string|].
    apply orb_false_elim in Hargs. destruct Hargs as [A1 A2].
    apply negb_false_iff in A1, A2. split; [exact A1|].
    unfold is_type in A2. now apply String.eqb_eq in A2.
  - intros ->. rewrite Pt in Hresponse. unfold validate_response in Hresponse.
    cbn [eq_str MessageType_str String.eqb Ascii.eqb Bool.eqb] in Hresponse.
    destruct (negb (truthy payload) || negb (is_type payload "object")); [discriminate|].
    apply push_if_nil in Hresponse. destruct Hresponse as [Hs _].
    apply negb_false_iff in Hs.
    destruct (get_opt payload "success"); try discriminate. now eexists.
  - intros ->. rewrite Pt in Hevent. unfold validate_event in Hevent.
    cbn [eq_str MessageType_str String.eqb Ascii.eqb Bool.eqb] in Hevent.
    destruct (negb (truthy payload) || negb (is_type payload "object")); [discriminate|].
    cbv zeta in Hevent. apply push_if_nil in Hevent. destruct Hevent as [Hdata Hrest].
    apply push_if_nil in Hrest. destruct Hrest as [Hts Hrest].
    apply push_if_nil in Hrest. destruct Hrest as [Hty _].
    split; [now apply truthy_string|]. split; [now apply truthy_number|].
    now apply negb_false_iff in Hdata.
Qed.

Lemma validateMessage_sound_witness :
  exists m,
    as_BridgeMessage command_from_minecraft = Some m
    /\ None = (None : option (list string))
    /\ msg_version m <> EmptyString /\ msg_id m <> EmptyString /\ msg_timestamp m <> 0
    /\ msg_payload m = get_opt command_from_minecraft "payload"
    /\ msg_payload m <> JUndefined
    /\ (msg_type m = TCommand ->
        (exists c, get_opt (msg_payload m) "command" = JStr c /\ c <> EmptyString)
        /\ truthy (get_opt (msg_payload m) "args") = true
        /\ typeof (get_opt (msg_payload m) "args") = "object")
    /\ (msg_type m = TResponse ->
        exists b, get_opt (msg_payload m) "success" = JBool b)
    /\ (msg_type m = TEvent ->
        (exists t, get_opt (msg_payload m) "eventType" = JStr t /\ t <> EmptyString)
        /\ (exists n, get_opt (msg_payload m) "timestamp" = JNum n /\ n <> 0)
        /\ truthy (get_opt (msg_payload m) "data") = true).
Proof.
  apply (validateMessage_sound command_from_minecraft {| valid := true; errors := None |});
    reflexivity.
Defined.

(** X3. When [validateMessage] throws.  It throws on [null] and on
    [undefined], whose [version] cannot be read, and on a message whose
    [type] or whose [source] has no string form: the template literal of the
    error for that field throws.  It returns on every other value.  A value
    has no string form when it is an object that has a property [toString]
    of its own, or an array that holds a value without string form.  When
    [validateMessage] returns, the result is valid exactly when it carries
    no list of errors, and a list it carries is not empty. *)
Theorem validateMessage_throws_exactly (message : JSValue) :
  ((exists e, validateMessage message = Throw e)
   <-> message = JNull \/ message = JUndefined
       \/ renders (get_opt message "type") = false
       \/ renders (get_opt message "source") = false)
  /\ (forall r, validateMessage message = Ok r ->
        valid r = true /\ errors r = None
        \/ valid r = false /\ exists e es, errors r = Some (e :: es))
  /\ (forall props,
        renders (JObj props)
        = match assoc "toString" props with Some _ => false | None => true end)
  /\ (forall items, renders (JArr items) = forallb renders items)
  /\ (forall v, (forall props, v <> JObj props) -> (forall items, v <> JArr items) ->
                renders v = true).
Proof.
  split; [|split; [|split; [|split]]].
  - pose proof (validateMessage_returns message) as R.
    split.
    + intros [e He].
      destruct message; auto; right; right;
        (destruct (renders (get_opt _ "type")) eqn:Rt; [|now left]);
        (destruct (renders (get_opt _ "source")) eqn:Rs; [|now right]);
        exfalso;
        (destruct (proj2 R) as [r Hr];
         [repeat split; (discriminate || assumption) | congruence]).
    + intros H.
      destruct (validateMessage message) as [r|e] eqn:E; [|now exists e].
      exfalso. destruct (proj1 R) as (Hn & Hu & Rt & Rs); [now exists r|].
      destruct H as [H | [H | [H | H]]]; congruence.
  - unfold validateMessage. intros r H.
    destruct (get message "version"); [|discriminate].
    destruct (validate_envelope _ _ _ _ _ _); [|discriminate].
    inversion H. cbn [valid errors].
    destruct (validate_event _ _ _) as [|e es]; cbn; [left|right]; split; trivial.
    now exists e, es.
  - intros props. unfold renders. cbn [to_string].
    now destruct (assoc "toString" props).
  - exact renders_array.
  - intros v Ho Ha. destruct v as [| |b|n|n|s|items|props]; try reflexivity.
    + now destruct b.
    + now destruct (Ha items).
    + now destruct (Ho props).
Qed.

(** X25. The cast [as BridgeMessage] leaves the object as it is.  The
    typed view of a message that passed [validateMessage] is the parsed
    object itself, with the keys the client sent, those the interface does
    not name included, in the client's order; and after the two stamps of
    [routeMessage] it is that object with [receivedAt] and [forwardedAt]
    assigned, each in the place the client gave it or else at the end. *)
Theorem typed_view_is_the_parsed_object (v : JSValue) (r : ValidationResult)
    (m : BridgeMessage) (received forwarded : Z) :
  validateMessage v = Ok r -> valid r = true ->
  as_BridgeMessage v = Some m ->
  to_js m = v
  /\ exists props,
       v = JObj props
       /\ to_js (set_forwardedAt forwarded (set_receivedAt received m))
          = JObj (put "forwardedAt" (JNum forwarded)
                    (put "receivedAt" (JNum received) props)).
Proof.
  intros H Hvalid Hm.
  destruct (validateMessage_valid v r H Hvalid) as (version & Hv & Henv & _).
  assert (Hversion : version = get_opt v "version").
  { unfold get_opt. now rewrite Hv. }
  apply validate_envelope_clean in Henv.
  destruct Henv as (_ & _ & _ & _ & _ & Hpayload).
  unfold as_BridgeMessage in Hm.
  destruct (get_opt v "version") as [| | | | |ver| |] eqn:Ever; try discriminate.
  destruct (parse_type (get_opt v "type")) as [ty|] eqn:Ety; [|discriminate].
  destruct (get_opt v "id") as [| | | | |id| |] eqn:Eid; try discriminate.
  destruct (get_opt v "timestamp") as [| | |ts| | | |] eqn:Ets; try discriminate.
  destruct (parse_source (get_opt v "source")) as [src|] eqn:Esrc; [|discriminate].
  apply parse_type_str in Ety. apply parse_source_str in Esrc.
  destruct v as [| | | | | | |props]; try discriminate.
  inversion Hm as [Em]. clear Hm.
  assert (Inner : put "payload" (get_opt (JObj props) "payload")
                    (put "source" (JStr (MessageSource_str src))
                    (put "timestamp" (JNum ts)
                    (put "id" (JStr id)
                    (put "type" (JStr (MessageType_str ty))
                    (put "version" (JStr ver) props))))) = props).
  { rewrite (put_same "version") by (apply get_opt_assoc; [exact Ever|discriminate]).
    rewrite (put_same "type") by (apply get_opt_assoc; [exact Ety|discriminate]).
    rewrite (put_same "id") by (apply get_opt_assoc; [exact Eid|discriminate]).
    rewrite (put_same "timestamp") by (apply get_opt_assoc; [exact Ets|discriminate]).
    rewrite (put_same "source") by (apply get_opt_assoc; [exact Esrc|discriminate]).
    apply put_same. apply get_opt_assoc; [reflexivity|].
    intros E. rewrite E in Hpayload. discriminate. }
  split.
  - unfold to_js.
    cbn [msg_version msg_type msg_id msg_timestamp msg_source msg_payload
         msg_receivedAt msg_forwardedAt msg_props].
    rewrite Inner. now rewrite !put_opt_same.
  - exists props. split; [reflexivity|]. unfold to_js.
    cbn [msg_version msg_type msg_id msg_timestamp msg_source msg_payload
         msg_receivedAt msg_forwardedAt msg_props set_receivedAt set_forwardedAt].
    rewrite Inner. reflexivity.
Qed.

Lemma typed_view_is_the_parsed_object_witness :
  exists m,
    as_BridgeMessage reordered_event = Some m
    /\ to_js m = reordered_event
    /\ exists props,
         reordered_event = JObj props
         /\ to_js (set_forwardedAt 1700000000008 (set_receivedAt 1700000000007 m))
            = JObj (put "forwardedAt" (JNum 1700000000008)
                      (put "receivedAt" (JNum 1700000000007) props)).
Proof.
  eexists. split; [reflexivity|].
  eapply (typed_view_is_the_parsed_object reordered_event
            {| valid := true; errors := None |}); reflexivity.
Defined.

(** The text the relay forwards for that event: the client's keys in the
    client's order, the key [trace] included, and the two stamps. *)
Example forwarded_text_keeps_the_keys :
  exists m text,
    as_BridgeMessage reordered_event = Some m
    /\ JSON_stringify (set_forwardedAt 8 (set_receivedAt 7 m)) = Ok text
    /\ text = "{" ^+ dquote ^+ "id" ^+ dquote ^+ ":" ^+ dquote ^+ "event-2" ^+ dquote
              ^+ "," ^+ dquote ^+ "trace" ^+ dquote ^+ ":" ^+ dquote ^+ "t-1" ^+ dquote
              ^+ "," ^+ dquote ^+ "forwardedAt" ^+ dquote ^+ ":8"
              ^+ "," ^+ dquote ^+ "type" ^+ dquote ^+ ":" ^+ dquote ^+ "event" ^+ dquote
              ^+ "," ^+ dquote ^+ "version" ^+ dquote ^+ ":" ^+ dquote ^+ "1.0.0" ^+ dquote
              ^+ "," ^+ dquote ^+ "timestamp" ^+ dquote ^+ ":1700000000100"
              ^+ "," ^+ dquote ^+ "source" ^+ dquote ^+ ":" ^+ dquote ^+ "minecraft" ^+ dquote
              ^+ "," ^+ dquote ^+ "payload" ^+ dquote ^+ ":{"
              ^+ dquote ^+ "eventType" ^+ dquote ^+ ":" ^+ dquote ^+ "player_join" ^+ dquote
              ^+ "," ^+ dquote ^+ "timestamp" ^+ dquote ^+ ":1700000000100"
              ^+ "," ^+ dquote ^+ "data" ^+ dquote ^+ ":{}}"
              ^+ "," ^+ dquote ^+ "receivedAt" ^+ dquote ^+ ":7}".
Proof. do 2 eexists. by_evaluation. Qed.

(** ** index.ts, [negotiateVersion] *)

(** X4. [negotiateVersion] compares only what precedes the first dot with
    the server's major version: a client version is compatible exactly when
    it is the string "1" or starts with "1.", whatever follows; a version
    that is not a string has no [split], and the call throws. *)
Theorem negotiateVersion_reads_major (clientVersion : JSValue) :
  match clientVersion with
  | JStr v => negotiateVersion clientVersion = Ok (String.eqb v "1" || String.prefix "1." v)
  | _ => exists e, negotiateVersion clientVersion = Throw e
  end.
Proof.
  destruct clientVersion as [| | | | |v| |]; try (eexists; reflexivity).
  unfold negotiateVersion. f_equal.
  change (first_segment VERSION) with "1".
  destruct v as [|c r]; [reflexivity|].
  cbn [first_segment].
  destruct (Ascii.eqb_spec c ".") as [->|Hdot]; [reflexivity|].
  cbn [String.eqb String.prefix].
  destruct (Ascii.eqb_spec c "1") as [->|Hone].
  - destruct (ascii_dec "1" "1") as [_|N]; [|congruence].
    destruct r as [|d r']; [reflexivity|].
    cbn [first_segment String.eqb String.prefix orb].
    destruct (Ascii.eqb_spec d ".") as [->|Hd].
    + destruct (ascii_dec "." "."); [|congruence]. destruct r'; reflexivity.
    + destruct (ascii_dec "." d) as [E|_]; [congruence|]. reflexivity.
  - destruct (ascii_dec "1" c) as [E|_]; [congruence|]. reflexivity.
Qed.

(** ** auth.ts *)

Section AuthMore.

Lemma includes_In (l : list string) (s : string) :
  includes l (JStr s) = true <-> In s l.
Proof.
  unfold includes. rewrite existsb_exists. cbn [eq_str]. split.
  - intros (x & Hx & E). apply String.eqb_eq in E. now subst.
  - intros H. exists s. split; [exact H|apply String.eqb_refl].
Qed.

Lemma prefix_append (p c : string) :
  String.prefix p c = true <-> exists rest, c = p ^+ rest.
Proof.
  revert c. induction p as [|a p IH]; intros c.
  - split; [intros _; now exists c|]. intros _. now destruct c.
  - destruct c as [|b c]; cbn [String.prefix].
    + split; [discriminate|]. intros (rest & H). discriminate.
    + destruct (ascii_dec a b) as [->|Hne].
      * rewrite IH. split; intros (rest & H); exists rest.
        -- cbn. now rewrite H.
        -- cbn in H. now inversion H.
      * split; [discriminate|]. intros (rest & H). cbn in H. inversion H. congruence.
Qed.

End AuthMore.

(** X5. [authenticate] on a message whose payload can be read.  It
    succeeds exactly when the credential [payload.authToken] is a string,
    is not empty, and is one of the MCP tokens or is the Minecraft token.
    On success the role is 'mcp' when the token is an MCP token (also when
    it is the Minecraft token as well) and 'minecraft' otherwise, and the
    socket is recorded with that role, so [getClientType] returns it.  On
    failure nothing is recorded and the error is one of the two messages.
    Either way no other socket's record, no connection and no registry
    entry changes.  The empty string never authenticates, also when the
    configured Minecraft token is empty. *)
Theorem authenticate_decides (message : JSValue) (ws : nat) (w : World) :
  message <> JNull -> message <> JUndefined ->
  exists r w',
    authenticate message ws w = (Ok r, w')
    /\ registry w' = registry w /\ sockets w' = sockets w /\ conns w' = conns w
    /\ config w' = config w
    /\ (forall h, h <> ws ->
          fst (AuthManager.getClientType h w') = fst (AuthManager.getClientType h w))
    /\ (success r = true <->
        exists token,
          credential message = JStr token /\ token <> EmptyString
          /\ (In token (mcpAuthTokens (config w)) \/ token = minecraftAuthToken (config w)))
    /\ (success r = true ->
        exists role,
          auth_clientType r = Some role
          /\ fst (AuthManager.getClientType ws w') = Ok (Some role)
          /\ (role = Mcp <-> includes (mcpAuthTokens (config w)) (credential message) = true))
    /\ (success r = false ->
        authenticatedClients w' = authenticatedClients w
        /\ auth_clientType r = None
        /\ (auth_error r = Some "Missing authentication token"
            \/ auth_error r = Some "Invalid authentication token")).
Proof.
  intros Hn Hu.
  unfold authenticate, bind, lift. rewrite (get_defined message "payload" Hn Hu).
  fold (credential message).
  destruct (negb (truthy (credential message))
            || negb (is_type (credential message) "string")) eqn:C.
  - unfold log, modify, ret. do 2 eexists. split; [reflexivity|]. cbn.
    do 4 (split; [reflexivity|]). split; [reflexivity|].
    split; [|split; [discriminate|]].
    + split; [discriminate|]. intros (token & Ht & Hne & _).
      rewrite Ht in C. cbn in C. destruct token; [congruence|discriminate].
    + intros _. split; [reflexivity|]. split; [reflexivity|]. now left.
  - apply truthy_string in C. destruct C as (token & Ht & Hne). rewrite Ht.
    unfold gets.
    destruct (includes (mcpAuthTokens (config w)) (JStr token)) eqn:Imcp.
    + unfold modify, ret. do 2 eexists. split; [reflexivity|]. cbn.
      do 4 (split; [reflexivity|]).
      split; [intros h Hne'; now rewrite (get_set_other nat MessageSource Nat.eqb Nat_eqb_spec)|].
      split; [|split; [|discriminate]].
      * split; [|reflexivity]. intros _. exists token. split; [reflexivity|].
        split; [exact Hne|]. left. now apply includes_In.
      * intros _. exists Mcp. split; [reflexivity|].
        rewrite (get_set_same nat MessageSource Nat.eqb Nat_eqb_spec).
        split; [reflexivity|]. now split.
    + destruct (eq_str (JStr token) (minecraftAuthToken (config w))) eqn:Imc.
      * unfold modify, ret. do 2 eexists. split; [reflexivity|]. cbn.
        do 4 (split; [reflexivity|]).
        split; [intros h Hne';
                now rewrite (get_set_other nat MessageSource Nat.eqb Nat_eqb_spec)|].
        split; [|split; [|discriminate]].
        -- split; [|reflexivity]. intros _. exists token. split; [reflexivity|].
           split; [exact Hne|]. right. cbn in Imc. now apply String.eqb_eq in Imc.
        -- intros _. exists Minecraft. split; [reflexivity|].
           rewrite (get_set_same nat MessageSource Nat.eqb Nat_eqb_spec).
           split; [reflexivity|]. split; discriminate.
      * unfold log, modify, ret. do 2 eexists. split; [reflexivity|]. cbn.
        do 4 (split; [reflexivity|]). split; [reflexivity|].
        split; [|split; [discriminate|]].
        -- split; [discriminate|]. intros (token' & Ht' & _ & [Hin|Heq]).
           ++ injection Ht' as <-. apply includes_In in Hin. congruence.
           ++ injection Ht' as <-. cbn in Imc.
              rewrite Heq, String.eqb_refl in Imc. discriminate.
        -- intros _. split; [reflexivity|]. split; [reflexivity|]. now right.
Qed.

Lemma authenticate_decides_witness :
  exists r w',
    authenticate (auth_message "auth-1" "mcp" "test-mcp-token-123") 0%nat one_connection
    = (Ok r, w')
    /\ registry w' = registry one_connection /\ sockets w' = sockets one_connection
    /\ conns w' = conns one_connection
    /\ config w' = config one_connection
    /\ (forall h, h <> 0%nat ->
          fst (AuthManager.getClientType h w')
          = fst (AuthManager.getClientType h one_connection))
    /\ (success r = true <->
        exists token,
          credential (auth_message "auth-1" "mcp" "test-mcp-token-123") = JStr token
          /\ token <> EmptyString
          /\ (In token (mcpAuthTokens (config one_connection))
              \/ token = minecraftAuthToken (config one_connection)))
    /\ (success r = true ->
        exists role,
          auth_clientType r = Some role
          /\ fst (AuthManager.getClientType 0%nat w') = Ok (Some role)
          /\ (role = Mcp <->
              includes (mcpAuthTokens (config one_connection))
                (credential (auth_message "auth-1" "mcp" "test-mcp-token-123")) = true))
    /\ (success r = false ->
        authenticatedClients w' = authenticatedClients one_connection
        /\ auth_clientType r = None
        /\ (auth_error r = Some "Missing authentication token"
            \/ auth_error r = Some "Invalid authentication token")).
Proof.
  apply (authenticate_decides (auth_message "auth-1" "mcp" "test-mcp-token-123") 0%nat
           one_connection); discriminate.
Defined.

(** X6. [authorize] on a message whose [payload.command] is a string or
    is absent (which [validateMessage] has established for a command).  It
    returns without throwing and changes nothing but the log.  The message
    is authorized exactly when the capability matrix lets the role send its
    type (commands and queries from 'mcp' only, events from 'minecraft'
    only, responses and errors from both) and, for a command, no entry of
    the denylist is a prefix of the command name.  A refusal always carries
    a reason. *)
Theorem authorize_decides (clientType : MessageSource) (m : BridgeMessage) (w : World) :
  (exists s, get_opt (msg_payload m) "command" = JStr s)
  \/ get_opt (msg_payload m) "command" = JUndefined
  \/ get_opt (msg_payload m) "command" = JNull ->
  exists r lg,
    authorize clientType m w = (Ok r, with_logger lg w)
    /\ (authorized r = true <->
        may_send clientType (msg_type m) = true
        /\ (msg_type m = TCommand ->
            forall s prefix rest,
              get_opt (msg_payload m) "command" = JStr s ->
              In prefix dangerousCommands -> s <> prefix ^+ rest))
    /\ (authorized r = false -> exists why, reason r = Some why).
Proof.
  intros Hcmd.
  assert (Same : with_logger (logger w) w = w) by (now destruct w).
  unfold authorize.
  destruct (msg_type m) eqn:T; cbn [MessageType_eqb MessageType_str String.eqb Ascii.eqb
                                    Bool.eqb orb andb may_send];
    destruct clientType; cbn [MessageSource_eqb negb andb orb];
    try (exists {| authorized := true; reason := None |}, (logger w);
         rewrite Same; split; [reflexivity|]; split; [|discriminate];
         split; [intros _; split; [reflexivity|discriminate]|reflexivity]);
    try (eexists; exists (logger w); rewrite Same; split; [reflexivity|];
         split; [|intros _; eexists; reflexivity];
         split; [discriminate|intros [H _]; discriminate]).
  (* a command from an MCP client *)
  cbv zeta. unfold bind, lift.
  destruct Hcmd as [[s Hs] | [Hs | Hs]]; rewrite Hs; cbn [is_dangerous].
  - destruct (existsb (fun cmd => String.prefix cmd s) dangerousCommands) eqn:D.
    + unfold log, modify, ret. do 2 eexists. split; [reflexivity|]. cbn [authorized reason].
      split; [|intros _; eexists; reflexivity].
      split; [discriminate|]. intros [_ H]. exfalso.
      apply existsb_exists in D. destruct D as (p & Hp & Hpre).
      apply prefix_append in Hpre. destruct Hpre as [rest Hrest].
      exact (H eq_refl s p rest eq_refl Hp Hrest).
    + exists {| authorized := true; reason := None |}, (logger w). rewrite Same.
      split; [reflexivity|]. split; [|discriminate].
      split; [|reflexivity]. intros _. split; [reflexivity|].
      intros _ s' p rest E Hp Hrest. inversion E. subst s'.
      assert (X : existsb (fun cmd => String.prefix cmd s) dangerousCommands = true).
      { apply existsb_exists. exists p. split; [exact Hp|].
        apply prefix_append. now exists rest. }
      congruence.
  - exists {| authorized := true; reason := None |}, (logger w). rewrite Same.
    split; [reflexivity|]. split; [|discriminate].
    split; [|reflexivity]. intros _. split; [reflexivity|]. intros _ s p rest E. discriminate.
  - exists {| authorized := true; reason := None |}, (logger w). rewrite Same.
    split; [reflexivity|]. split; [|discriminate].
    split; [|reflexivity]. intros _. split; [reflexivity|]. intros _ s p rest E. discriminate.
Qed.

Lemma authorize_decides_witness :
  exists r lg,
    authorize Mcp (say "hello") two_clients = (Ok r, with_logger lg two_clients)
    /\ (authorized r = true <->
        may_send Mcp (msg_type (say "hello")) = true
        /\ (msg_type (say "hello") = TCommand ->
            forall s prefix rest,
              get_opt (msg_payload (say "hello")) "command" = JStr s ->
              In prefix dangerousCommands -> s <> prefix ^+ rest))
    /\ (authorized r = false -> exists why, reason r = Some why).
Proof.
  apply (authorize_decides Mcp (say "hello") two_clients).
  left. exists "say". reflexivity.
Defined.

(** ** message-router.ts *)

Section RouterMore.

(** The loop of [processQueue] makes the calls of [reroute]. *)
Lemma processQueue_each_reroute (q : list QueuedMessage) :
  forall w, processQueue_each q w = (Ok (fst (reroute q w)), snd (reroute q w)).
Proof.
  induction q as [|x rest IH]; intros w; cbn [processQueue_each reroute]; [reflexivity|].
  unfold bind at 1. unfold try_catch. unfold bind at 1.
  destruct (routeMessage (qm_message x) (qm_sourceClientId x) w) as [[m|e] w1].
  - unfold ret at 1. unfold bind. now rewrite IH.
  - unfold ret at 1. unfold bind. rewrite IH.
    now destruct (reroute rest w1).
Qed.

(** The [catch] callbacks log one line each, in order. *)
Lemma processQueue_catch_logs (rs : list (QueuedMessage * string)) :
  forall w,
    processQueue_catch rs w
    = (Ok tt,
       with_logger
         {| level := level (logger w);
            console := console (logger w)
                       ++ map (fun qe => rejection_line (fst qe) (snd qe)) rs |} w).
Proof.
  induction rs as [|[x e] rest IH]; intros w; cbn [processQueue_catch map].
  - unfold ret. rewrite app_nil_r. f_equal. destruct w as [? ? [? ?]]. reflexivity.
  - unfold bind, log, modify. rewrite IH.
    cbn [logger with_logger]. unfold Logger_log. rewrite shouldLog_error.
    cbn [level console fst snd]. rewrite <- app_assoc. reflexivity.
Qed.

(** With nobody to receive them, the calls [processQueue] makes are a run
    of calls that find no destination, and none is rejected. *)
Lemma processQueue_each_no_destinations (q : list QueuedMessage) :
  forall w,
    (forall x, In x q -> destinations (msg_source (qm_message x)) w = []) ->
    processQueue_each q w = (Ok [], route_seq (map call_of q) w).
Proof.
  induction q as [|x rest IH]; intros w Hnone; [reflexivity|].
  cbn [processQueue_each map route_seq call_of].
  destruct (routeMessage_no_destinations (qm_message x) (qm_sourceClientId x) w)
    as (w1 & Hr & _ & _ & Hreg & _).
  { apply Hnone. now left. }
  unfold exec. rewrite Hr. cbn [snd].
  unfold bind at 1. unfold try_catch. unfold bind at 1. rewrite Hr.
  unfold ret at 1. unfold bind.
  rewrite IH; [reflexivity|].
  intros y Hy. unfold destinations. rewrite Hreg. apply Hnone. now right.
Qed.

Lemma lastn_short {A : Type} (n : nat) (l : list A) :
  (List.length l <= n)%nat -> lastn n l = l.
Proof. intros H. unfold lastn. now replace (List.length l - n)%nat with 0%nat by lia. Qed.

Lemma Forall2_map_r {A B C : Type} (R : A -> C -> Prop) (f : B -> C)
    (xs : list A) (ys : list B) :
  Forall2 R xs (map f ys) -> Forall2 (fun x y => R x (f y)) xs ys.
Proof.
  revert xs. induction ys as [|y ys IH]; intros xs H; inversion H; subst; constructor;
    [assumption|now apply IH].
Qed.

End RouterMore.

(** X7. [processQueue] never throws, and on an empty queue it does nothing
    at all.  On a queue that is not empty it logs the count, empties the
    queue and routes the entries in order; the calls that were rejected are
    then logged, each with one line at level error that carries the id of
    its message and the error, in the order of the queue. *)
Theorem processQueue_never_throws (w : World) :
  exists w',
    processQueue w = (Ok tt, w')
    /\ (messageQueue (router w) = [] -> w' = w)
    /\ (messageQueue (router w) <> [] ->
        let started :=
          with_router (with_messageQueue [] (router w))
            (with_logger
               (Logger_log LInfo "Processing queued messages"
                  [("count", JNum (Z.of_nat (List.length (messageQueue (router w)))))]
                  (logger w)) w) in
        let routed := reroute (messageQueue (router w)) started in
        w' = with_logger
               {| level := level (logger (snd routed));
                  console := console (logger (snd routed))
                             ++ map (fun qe => rejection_line (fst qe) (snd qe))
                                    (fst routed) |}
               (snd routed)).
Proof.
  unfold processQueue. unfold bind at 1. unfold gets.
  destruct (messageQueue (router w)) as [|x q] eqn:Q.
  - exists w. split; [reflexivity|]. split; [trivial|congruence].
  - cbn [List.length Nat.eqb].
    unfold bind at 1. unfold log at 1. unfold modify at 1.
    unfold bind at 1. unfold modify at 1.
    unfold bind at 1.
    match goal with
    | |- context [processQueue_each ?l ?u] =>
        rewrite (processQueue_each_reroute l u); set (routed := reroute l u)
    end.
    rewrite processQueue_catch_logs.
    eexists. split; [reflexivity|]. split; [discriminate|].
    intros _. reflexivity.
Qed.

(** A queued command that [JSON.stringify] rejects, once a destination has
    connected: the rejection of its call is logged by [processQueue], after
    the line the router logged for it. *)
Example rejected_entry_is_logged :
  lines_about "Error processing queued message"
    (logger (exec processQueue (exec (queueMessage say_bigint mcp_client_id) two_clients)))
  = [{| log_level := LError; log_message := "Error processing queued message";
        log_context := [("messageId", JStr "cmd-2");
                        ("error", JStr "Do not know how to serialize a BigInt")] |}]
  /\ lines_about "Error routing message"
       (logger (exec processQueue (exec (queueMessage say_bigint mcp_client_id) two_clients)))
     = [{| log_level := LError; log_message := "Error routing message";
           log_context := [("messageId", JStr "cmd-2");
                           ("error", JStr "Do not know how to serialize a BigInt")] |}].
Proof. by_evaluation. Qed.

(** X8. [processQueue] while there is still nobody to receive the queued
    messages: every message is queued again, in the same order and for the
    same sender, with a new [receivedAt] stamp; nothing is sent and nothing
    is lost, the queue being within its capacity. *)
Theorem processQueue_requeues_in_order (N : Z) (w : World) :
  1 <= N ->
  maxQueueSize (router w) = N ->
  Z.of_nat (List.length (messageQueue (router w))) <= N ->
  (forall q, In q (messageQueue (router w)) ->
             destinations (msg_source (qm_message q)) w = []) ->
  exists w',
    processQueue w = (Ok tt, w')
    /\ Forall2 (fun q' q => queued_from q' (call_of q))
         (messageQueue (router w')) (messageQueue (router w))
    /\ sockets w' = sockets w /\ latency w' = latency w /\ registry w' = registry w.
Proof.
  intros HN Hcap Hlen Hnone.
  unfold processQueue. unfold bind at 1. unfold gets.
  destruct (messageQueue (router w)) as [|x q] eqn:Q.
  - exists w. rewrite Q. repeat split. constructor.
  - cbn [List.length Nat.eqb].
    unfold bind at 1. unfold log at 1. unfold modify at 1.
    unfold bind at 1. unfold modify at 1.
    unfold bind at 1.
    set (w0 := with_router _ _).
    assert (Hnone0 : forall y, In y (x :: q) ->
                       destinations (msg_source (qm_message y)) w0 = []).
    { intros y Hy. exact (Hnone y Hy). }
    rewrite (processQueue_each_no_destinations (x :: q) w0 Hnone0).
    cbn [processQueue_catch]. unfold ret.
    eexists. split; [reflexivity|].
    assert (Hn : (1 <= Z.to_nat N)%nat) by lia.
    destruct (route_seq_window (Z.to_nat N) (map call_of (x :: q)) Hn [] w0)
      as (entries & Hent & Hfinal).
    { cbn. lia. }
    { intros call Hin. apply in_map_iff in Hin. destruct Hin as (y & <- & Hy).
      now apply Hnone0. }
    { reflexivity. }
    pose proof (Forall2_length Hent) as L. rewrite length_map in L.
    cbn [app] in Hfinal. rewrite lastn_short in Hfinal by lia.
    split; [rewrite Hfinal; now apply Forall2_map_r|].
    clear - Hnone0.
    assert (F : forall calls u,
               (forall c, In c calls -> destinations (msg_source (fst c)) u = []) ->
               sockets (route_seq calls u) = sockets u
               /\ latency (route_seq calls u) = latency u
               /\ registry (route_seq calls u) = registry u).
    { induction calls as [|[m s] calls IH]; intros u Hu; [now repeat split|].
      cbn [route_seq].
      destruct (routeMessage_no_destinations m s u) as (u1 & Hr & _ & _ & Hreg & Hs & Hl).
      { apply (Hu (m, s)). now left. }
      unfold exec. rewrite Hr. cbn [snd].
      destruct (IH u1) as (A & B & C).
      { intros c Hc. unfold destinations. rewrite Hreg. apply Hu. now right. }
      repeat split; congruence. }
    destruct (F (map call_of (x :: q)) w0) as (A & B & C).
    { intros c Hin. apply in_map_iff in Hin. destruct Hin as (y & <- & Hy).
      now apply Hnone0. }
    repeat split; assumption.
Qed.

Lemma processQueue_requeues_in_order_witness :
  exists w',
    processQueue (route_seq three_events capacity_two) = (Ok tt, w')
    /\ Forall2 (fun q' q => queued_from q' (call_of q))
         (messageQueue (router w'))
         (messageQueue (router (route_seq three_events capacity_two)))
    /\ sockets w' = sockets (route_seq three_events capacity_two)
    /\ latency w' = latency (route_seq three_events capacity_two)
    /\ registry w' = registry (route_seq three_events capacity_two).
Proof.
  apply (processQueue_requeues_in_order 2 (route_seq three_events capacity_two)).
  - lia.
  - reflexivity.
  - vm_compute. discriminate.
  - intros q _. destruct (msg_source (qm_message q)); reflexivity.
Defined.

(** X9. A call of [routeMessage] that finds destinations and returns.
    The message it leaves carries [receivedAt], read when the call started,
    and [forwardedAt], read next.  One string is handed to [send] for every
    destination: the cache entry under the key of the message when there is
    one, the JSON text of the stamped message otherwise.  Every socket
    receives it once for every open destination it belongs to; a socket that
    is closing or closed receives nothing, although [send] returns on it and
    the loop counts a success.  The message is queued, stamps included,
    exactly when no [send] returned. *)
Theorem routeMessage_fan_out (message : BridgeMessage) (src : string) (w : World)
    (m' : BridgeMessage) (w' : World) :
  destinations (msg_source message) w <> [] ->
  routeMessage message src w = (Ok m', w') ->
  let dests := destinations (msg_source message) w in
  let stamped := set_forwardedAt (clock w (S (now_calls w)))
                   (set_receivedAt (clock w (now_calls w)) message) in
  m' = stamped
  /\ (exists str,
        match JSMap.get String.eqb (cacheKey message) (serializationCache (router w)) with
        | Some cached => str = cached
        | None => JSON_stringify stamped = Ok str
        end
        /\ forall h, sent_of h w' = sent_of h w ++ repeat str (deliveries h dests w))
  /\ messageQueue (router w')
     = match reached dests w with
       | [] => enqueue (maxQueueSize (router w)) (messageQueue (router w))
                 {| qm_message := stamped; qm_sourceClientId := src;
                    qm_timestamp := clock w (S (S (now_calls w))) |}
       | _ :: _ => messageQueue (router w)
       end
  /\ registry w' = registry w.
Proof.
  intros Hne H dests stamped.
  destruct (destinations (msg_source message) w) as [|d ds] eqn:Hd; [congruence|].
  rewrite (routeMessage_some_destinations message src w d ds Hd) in H. cbv zeta in H.
  fold stamped in H. subst dests.
  set (w0 := with_now_calls (S (S (now_calls w))) w) in *.
  pose proof (serializeMessage_miss_or_hit stamped w0) as Hstr.
  change (serializationCache (router w0)) with (serializationCache (router w)) in Hstr.
  change (cacheKey stamped) with (cacheKey message) in Hstr.
  destruct (serializeMessage stamped w0) as [[str|e] w2] eqn:Es; [|discriminate].
  destruct (serializeMessage_frame _ _ _ _ Es)
    as (_ & Fsock & Freg & _ & Fclock & Fnow & Fq & Fcap & _).
  destruct (forward_spec (clock w (now_calls w)) stamped str (d :: ds) 0 w2)
    as (w3 & Hf & _ & Hnow3 & Hsent & _ & T).
  rewrite Hf in H.
  assert (Herr : forall h, send_error h w2 = send_error h w).
  { intros h. unfold send_error. now rewrite Fsock. }
  assert (Hcan : forall h, can_send h w2 = can_send h w).
  { intros h. unfold can_send. now rewrite Fsock. }
  rewrite (reached_ext (d :: ds) w w2 Herr) in *.
  assert (Hsent' : forall h, sent_of h w3
                             = sent_of h w ++ repeat str (deliveries h (d :: ds) w)).
  { intros h. rewrite Hsent. unfold deliveries.
    rewrite (open_destinations_ext (d :: ds) w w2 Hcan).
    unfold sent_of. now rewrite Fsock. }
  assert (Hstr' : match JSMap.get String.eqb (cacheKey message)
                          (serializationCache (router w)) with
                  | Some cached => str = cached
                  | None => JSON_stringify stamped = Ok str
                  end).
  { destruct (JSMap.get String.eqb (cacheKey message) (serializationCache (router w)));
      cbn [fst] in Hstr; [now inversion Hstr|symmetry; exact Hstr]. }
  destruct (reached (d :: ds) w) as [|o os] eqn:Ho.
  - cbn [List.length Z.of_nat Z.add Z.eqb] in H.
    destruct (queueMessage_spec stamped src w3)
      as (w4 & Hq & Hqueue & _ & Hreg4 & Hsock4 & _ & _ & _).
    rewrite Hq in H. inversion H. subst m' w'.
    split; [reflexivity|]. split; [|split].
    + exists str. split; [exact Hstr'|]. intros h.
      rewrite <- Hsent'. unfold sent_of. now rewrite Hsock4.
    + rewrite Hqueue, (turn_router T), Fq, Fcap. do 2 f_equal.
      rewrite (turn_clock T), Hnow3, Fclock, Fnow. cbn [List.length].
      now rewrite Nat.add_0_r.
    + now rewrite Hreg4, (turn_registry T), Freg.
  - assert (Z : (0 + Z.of_nat (List.length (o :: os)) =? 0) = false)
      by (apply Z.eqb_neq; cbn [List.length]; lia).
    rewrite Z in H. inversion H. subst m' w'.
    split; [reflexivity|]. split; [|split].
    + exists str. split; [exact Hstr'|exact Hsent'].
    + now rewrite (turn_router T), Fq.
    + now rewrite (turn_registry T), Freg.
Qed.

Lemma routeMessage_fan_out_witness :
  let message := say "hello" in
  let w := one_closing in
  let w' := exec (routeMessage message mcp_client_id) w in
  let dests := destinations (msg_source message) w in
  let stamped := set_forwardedAt (clock w (S (now_calls w)))
                   (set_receivedAt (clock w (now_calls w)) message) in
  stamped = stamped
  /\ (exists str,
        match JSMap.get String.eqb (cacheKey message) (serializationCache (router w)) with
        | Some cached => str = cached
        | None => JSON_stringify stamped = Ok str
        end
        /\ forall h, sent_of h w' = sent_of h w ++ repeat str (deliveries h dests w))
  /\ messageQueue (router w')
     = match reached dests w with
       | [] => enqueue (maxQueueSize (router w)) (messageQueue (router w))
                 {| qm_message := stamped; qm_sourceClientId := mcp_client_id;
                    qm_timestamp := clock w (S (S (now_calls w))) |}
       | _ :: _ => messageQueue (router w)
       end
  /\ registry w' = registry w.
Proof.
  apply (routeMessage_fan_out (say "hello") mcp_client_id one_closing
           (set_forwardedAt (clock one_closing (S (now_calls one_closing)))
              (set_receivedAt (clock one_closing (now_calls one_closing)) (say "hello")))
           (exec (routeMessage (say "hello") mcp_client_id) one_closing)).
  - vm_compute. discriminate.
  - vm_compute. reflexivity.
Defined.

(** On that server the first Minecraft client has been terminated by the
    heartbeat and its socket is closing: the call counts two successes,
    writes to the second client only, and queues nothing. *)
Example closing_destination_counts :
  List.length (reached (destinations Mcp one_closing) one_closing) = 2%nat
  /\ deliveries 1 (destinations Mcp one_closing) one_closing = 0%nat
  /\ deliveries 2 (destinations Mcp one_closing) one_closing = 1%nat
  /\ sent_of 1 (exec (routeMessage (say "hello") mcp_client_id) one_closing)
     = sent_of 1 one_closing
  /\ messageQueue (router (exec (routeMessage (say "hello") mcp_client_id) one_closing))
     = []
  /\ count_of_type "command"
       (latency (exec (routeMessage (say "hello") mcp_client_id) one_closing)) = 2.
Proof. by_evaluation. Qed.

(** ** index.ts, the [message] handler *)

Section HandlerMore.

Lemma with_logger_same (w : World) : with_logger (logger w) w = w.
Proof. now destruct w. Qed.

End HandlerMore.

(** X10. A frame that is not JSON, and the JSON value [null], are dropped.
    The handler of a connection logs one line at level error, 'Error
    processing message' with the id of the connection and the message of the
    error, and returns; it sends no reply, closes nothing, and leaves the
    connections, the registry, the router and the latency statistics as they
    were.  This holds before and after authentication, so an unauthenticated
    connection that sends such a frame stays open and unauthenticated. *)
Theorem unreadable_frame_is_dropped (ws : nat) (w : World) (c : Connection)
    (parsed : option JSValue) :
  JSMap.get Nat.eqb ws (conns w) = Some c ->
  parsed = None \/ parsed = Some JNull ->
  exists e,
    on_message ws parsed w
    = (Ok tt,
       with_logger
         {| level := level (logger w);
            console := console (logger w)
                       ++ [{| log_level := LError;
                              log_message := "Error processing message";
                              log_context := [("clientId", JStr (clientId c));
                                              ("error", JStr e)] |}] |} w).
Proof.
  intros Hc Hp. unfold on_message, bind at 1, gets. rewrite Hc.
  assert (L : forall e,
             Logger_log LError "Error processing message"
               [("clientId", JStr (clientId c)); ("error", JStr e)] (logger w)
             = {| level := level (logger w);
                  console := console (logger w)
                             ++ [{| log_level := LError;
                                    log_message := "Error processing message";
                                    log_context := [("clientId", JStr (clientId c));
                                                    ("error", JStr e)] |}] |}).
  { intros e. unfold Logger_log. now rewrite shouldLog_error. }
  destruct Hp as [-> | ->].
  - eexists. unfold try_catch, message_handler_body, bind, lift, log, modify, ret.
    now rewrite L.
  - unfold try_catch, message_handler_body.
    destruct (authenticated c); cbn [negb];
      eexists; unfold authenticate, validateMessage, bind, lift, log, modify, ret;
      cbn [get]; now rewrite L.
Qed.

Lemma unreadable_frame_is_dropped_witness :
  exists e,
    on_message 0 (Some JNull) one_connection
    = (Ok tt,
       with_logger
         {| level := level (logger one_connection);
            console := console (logger one_connection)
                       ++ [{| log_level := LError;
                              log_message := "Error processing message";
                              log_context := [("clientId", JStr (clientId fresh_connection));
                                              ("error", JStr e)] |}] |} one_connection).
Proof.
  apply (unreadable_frame_is_dropped 0 one_connection fresh_connection (Some JNull)).
  - reflexivity.
  - now right.
Defined.

Section HandlerAuth.

(** [send] on an open socket, and on any other. *)
Lemma ws_send_open (h : nat) (data : string) (w : World) :
  can_send h w = true ->
  exists s,
    JSMap.get Nat.eqb h (sockets w) = Some s /\ readyState s = OPEN
    /\ ws_send h data w
       = (Ok tt, with_sockets (JSMap.set Nat.eqb h (with_sent (sent s ++ [data]) s)
                                 (sockets w)) w).
Proof.
  intros H. unfold ws_send, send_error. rewrite H. unfold can_send, is_open in H.
  destruct (JSMap.get Nat.eqb h (sockets w)) as [s|] eqn:E; [|discriminate].
  destruct (readyState s) eqn:R; try discriminate.
  exists s. split; [reflexivity|]. split; [exact R|].
  unfold update_socket, modify. now rewrite E.
Qed.

(** What a [send] that returned has done, read from outside. *)
Lemma sent_after_send (h : nat) (data : string) (s : Socket) (w u : World) :
  JSMap.get Nat.eqb h (sockets w) = Some s -> readyState s = OPEN ->
  sockets u = JSMap.set Nat.eqb h (with_sent (sent s ++ [data]) s) (sockets w) ->
  sent_of h u = sent_of h w ++ [data]
  /\ can_send h u = true
  /\ (forall h', h' <> h -> JSMap.get Nat.eqb h' (sockets u) = JSMap.get Nat.eqb h' (sockets w)).
Proof.
  intros E R U. unfold sent_of, can_send, is_open. rewrite U, E.
  rewrite (get_set_same nat Socket Nat.eqb Nat_eqb_spec). cbn. rewrite R.
  repeat split. intros h' Hne.
  now rewrite (get_set_other nat Socket Nat.eqb Nat_eqb_spec).
Qed.

Lemma responseMessage_text (messageId : JSValue) (now : Z) (payload : JSValue) :
  (exists o, stringify messageId = Ok o) ->
  (exists p, stringify payload = Ok p) ->
  exists text, stringify_text (responseMessage messageId now payload) = Ok text.
Proof.
  intros [o Ho] [p Hp]. unfold stringify_text, responseMessage. cbn [stringify].
  rewrite Ho, Hp. destruct o, p; eexists; reflexivity.
Qed.

(** [sendResponse] is a clock reading followed by [send]. *)
Lemma sendResponse_spec (ws : nat) (messageId payload : JSValue) (w : World) :
  (exists o, stringify messageId = Ok o) ->
  (exists p, stringify payload = Ok p) ->
  exists text,
    stringify_text (responseMessage messageId (clock w (now_calls w)) payload) = Ok text
    /\ sendResponse ws messageId payload w
       = ws_send ws text (with_now_calls (S (now_calls w)) w).
Proof.
  intros H1 H2.
  destruct (responseMessage_text messageId (clock w (now_calls w)) payload H1 H2)
    as [text Ht].
  exists text. split; [exact Ht|].
  unfold sendResponse, bind, Date_now, lift. rewrite Ht. reflexivity.
Qed.

Lemma update_conn_found (ws : nat) (f : Connection -> Connection) (c : Connection)
    (w : World) :
  JSMap.get Nat.eqb ws (conns w) = Some c ->
  update_conn ws f w = (Ok tt, with_conns (JSMap.set Nat.eqb ws (f c) (conns w)) w).
Proof. intros H. unfold update_conn, modify. now rewrite H. Qed.

(** The role a good token gives. *)
Lemma authenticate_good (v : JSValue) (ws : nat) (w : World) (token : string) :
  credential v = JStr token -> token <> EmptyString ->
  In token (mcpAuthTokens (config w)) \/ token = minecraftAuthToken (config w) ->
  let role := if includes (mcpAuthTokens (config w)) (JStr token) then Mcp else Minecraft in
  authenticate v ws w
  = (Ok {| success := true; auth_clientType := Some role; auth_error := None |},
     with_authenticatedClients
       (JSMap.set Nat.eqb ws role (authenticatedClients w)) w).
Proof.
  intros Ht Hne Hin role.
  assert (Hv : get v "payload" = Ok (get_opt v "payload")).
  { apply get_defined; intros ->; discriminate. }
  unfold authenticate, bind, lift. rewrite Hv. fold (credential v). rewrite Ht.
  assert (T : negb (truthy (JStr token)) || negb (is_type (JStr token) "string") = false).
  { cbn. destruct token; [congruence|reflexivity]. }
  rewrite T. unfold gets. subst role.
  destruct (includes (mcpAuthTokens (config w)) (JStr token)) eqn:I; [reflexivity|].
  destruct Hin as [Hin|Heq]; [apply includes_In in Hin; congruence|].
  cbn [eq_str]. rewrite Heq, String.eqb_refl. reflexivity.
Qed.

End HandlerAuth.

(** X11. A first message with a good credential and a string [version].
    The connection becomes authenticated with the role of the token, is
    added to the registry under its id with its socket, role and version,
    and is sent one response; it stays open.  The version is not checked
    beyond a warning in the log: whatever string it is, the client is
    registered under it.  The router is not touched: messages queued for
    want of a destination stay queued when a destination authenticates. *)
Theorem good_credential_registers (w : World) (ws : nat) (c : Connection) (v : JSValue)
    (token ver : string) :
  JSMap.get Nat.eqb ws (conns w) = Some c ->
  authenticated c = false ->
  can_send ws w = true ->
  is_json v = true ->
  credential v = JStr token -> token <> EmptyString ->
  In token (mcpAuthTokens (config w)) \/ token = minecraftAuthToken (config w) ->
  get_opt v "version" = JStr ver ->
  let role := if includes (mcpAuthTokens (config w)) (JStr token) then Mcp else Minecraft in
  exists w' text,
    on_message ws (Some v) w = (Ok tt, w')
    /\ JSMap.get Nat.eqb ws (conns w')
       = Some {| clientId := clientId c; authenticated := true; clientType := Some role;
                 clientVersion := JStr ver |}
    /\ JSMap.get String.eqb (clientId c) (registry w')
       = Some {| ci_id := clientId c; ci_ws := ws; ci_type := role; ci_version := ver;
                 ci_connectedAt := clock w (now_calls w) |}
    /\ (forall id, id <> clientId c ->
          JSMap.get String.eqb id (registry w') = JSMap.get String.eqb id (registry w))
    /\ stringify_text
         (responseMessage (get_opt v "id") (clock w (S (now_calls w)))
            (JObj [("success", JBool true); ("data", JObj [("version", JStr VERSION)])]))
       = Ok text
    /\ sent_of ws w' = sent_of ws w ++ [text]
    /\ can_send ws w' = true
    /\ router w' = router w.
Proof.
  intros Hc Ha Hopen Hj Ht Hne Hin Hver role.
  assert (Hn : v <> JNull) by (intros ->; discriminate).
  assert (Hu : v <> JUndefined) by (intros ->; discriminate).
  pose proof (authenticate_good v ws w token Ht Hne Hin) as Hauth. cbv zeta in Hauth.
  fold role in Hauth.
  unfold on_message.
  rewrite (bind_ok _ _ w w (Some c)) by (unfold gets; now rewrite Hc).
  unfold try_catch, message_handler_body.
  rewrite (bind_ok _ _ w w v) by reflexivity.
  rewrite Ha. cbn [negb].
  rewrite (bind_ok _ _ _ _ _ Hauth). cbn [success negb auth_clientType].
  set (w1 := with_authenticatedClients _ w).
  rewrite (bind_ok _ _ w1 w1 (JStr ver))
    by (unfold lift; now rewrite get_defined, Hver).
  rewrite (bind_ok _ _ _ _ _ (update_conn_found ws _ c w1 Hc)).
  set (w2 := with_conns _ w1).
  rewrite (bind_ok _ _ w2 w2 (String.eqb (first_segment ver) (first_segment VERSION)))
    by reflexivity.
  assert (Hwarn : exists lg,
            (if negb (String.eqb (first_segment ver) (first_segment VERSION))
             then log LWarn "Version mismatch"
                    [("clientVersion", JStr ver); ("serverVersion", JStr VERSION);
                     ("clientId", JStr (clientId c))]
             else ret tt) w2 = (Ok tt, with_logger lg w2)).
  { destruct (negb _); [eexists; reflexivity|].
    exists (logger w2). now rewrite with_logger_same. }
  destruct Hwarn as [lg Hwarn]. rewrite (bind_ok _ _ _ _ _ Hwarn).
  set (w3 := with_logger lg w2).
  erewrite (bind_ok (addClient (clientId c) ws role ver)) by reflexivity.
  erewrite (bind_ok (log LInfo "Client authenticated" _)) by reflexivity.
  match goal with
  | |- context [bind (lift (get v "id")) ?k ?u] =>
      rewrite (bind_ok (lift (get v "id")) k u u (get_opt v "id"))
        by (unfold lift; now rewrite get_defined)
  end.
  match goal with
  | |- context [sendResponse ws ?i ?p ?u] =>
      destruct (sendResponse_spec ws i p u) as (text & Htext & Hsend);
        [apply stringify_field, Hj | eexists; reflexivity |];
        set (w4 := u) in *
  end.
  rewrite Hsend.
  destruct (ws_send_open ws text (with_now_calls (S (now_calls w4)) w4))
    as (s & Es & Rs & Hws); [exact Hopen|].
  rewrite Hws.
  eexists. exists text. split; [reflexivity|].
  split; [apply (get_set_same nat Connection Nat.eqb Nat_eqb_spec)|].
  split; [apply (get_set_same string ClientInfo String.eqb String_eqb_spec)|].
  split; [intros id Hid;
          now apply (get_set_other string ClientInfo String.eqb String_eqb_spec)|].
  split; [exact Htext|].
  destruct (sent_after_send ws text s w
              (with_sockets (JSMap.set Nat.eqb ws (with_sent (sent s ++ [text]) s)
                               (sockets w)) w) Es Rs eq_refl) as (A & B & _).
  split; [exact A|]. split; [exact B|]. reflexivity.
Qed.

Lemma good_credential_registers_witness :
  let w := one_connection in
  let v := auth_message "auth-1" "mcp" "test-mcp-token-123" in
  exists w' text,
    on_message 0 (Some v) w = (Ok tt, w')
    /\ JSMap.get Nat.eqb 0%nat (conns w')
       = Some {| clientId := mcp_client_id; authenticated := true; clientType := Some Mcp;
                 clientVersion := JStr "1.0.0" |}
    /\ JSMap.get String.eqb mcp_client_id (registry w')
       = Some {| ci_id := mcp_client_id; ci_ws := 0; ci_type := Mcp; ci_version := "1.0.0";
                 ci_connectedAt := clock w (now_calls w) |}
    /\ (forall id, id <> mcp_client_id ->
          JSMap.get String.eqb id (registry w') = JSMap.get String.eqb id (registry w))
    /\ stringify_text
         (responseMessage (get_opt v "id") (clock w (S (now_calls w)))
            (JObj [("success", JBool true); ("data", JObj [("version", JStr VERSION)])]))
       = Ok text
    /\ sent_of 0 w' = sent_of 0 w ++ [text]
    /\ can_send 0 w' = true
    /\ router w' = router w.
Proof.
  apply (good_credential_registers one_connection 0 fresh_connection
           (auth_message "auth-1" "mcp" "test-mcp-token-123")
           "test-mcp-token-123" "1.0.0");
    try reflexivity; [discriminate | left; now left].
Defined.

(** X12. A first message with a good credential whose [version] is not a
    string (absent, for one).  [authenticated] was set before the version
    is looked at, and [negotiateVersion] throws on it: the handler's catch
    sends SERVER_ERROR, and the connection is left authenticated, with the
    role of the token, and open, but it is not in the registry.  Its later
    messages are handled as those of an authenticated client, while no
    message is ever routed to it. *)
Theorem good_credential_without_version (w : World) (ws : nat) (c : Connection)
    (v : JSValue) (token : string) :
  JSMap.get Nat.eqb ws (conns w) = Some c ->
  authenticated c = false ->
  can_send ws w = true ->
  is_json v = true ->
  credential v = JStr token -> token <> EmptyString ->
  In token (mcpAuthTokens (config w)) \/ token = minecraftAuthToken (config w) ->
  (forall ver, get_opt v "version" <> JStr ver) ->
  let role := if includes (mcpAuthTokens (config w)) (JStr token) then Mcp else Minecraft in
  exists w' text,
    on_message ws (Some v) w = (Ok tt, w')
    /\ JSMap.get Nat.eqb ws (conns w')
       = Some {| clientId := clientId c; authenticated := true; clientType := Some role;
                 clientVersion := get_opt v "version" |}
    /\ registry w' = registry w
    /\ stringify_text
         (errorMessage (if truthy (get_opt v "id") then get_opt v "id" else JStr "unknown")
            (clock w (now_calls w)) SERVER_ERROR "Internal server error")
       = Ok text
    /\ sent_of ws w' = sent_of ws w ++ [text]
    /\ can_send ws w' = true
    /\ router w' = router w.
Proof.
  intros Hc Ha Hopen Hj Ht Hne Hin Hver role.
  assert (Hn : v <> JNull) by (intros ->; discriminate).
  assert (Hu : v <> JUndefined) by (intros ->; discriminate).
  pose proof (authenticate_good v ws w token Ht Hne Hin) as Hauth. cbv zeta in Hauth.
  fold role in Hauth.
  unfold on_message.
  rewrite (bind_ok _ _ w w (Some c)) by (unfold gets; now rewrite Hc).
  unfold try_catch, message_handler_body.
  rewrite (bind_ok _ _ w w v) by reflexivity.
  rewrite Ha. cbn [negb].
  rewrite (bind_ok _ _ _ _ _ Hauth). cbn [success negb auth_clientType].
  set (w1 := with_authenticatedClients _ w).
  rewrite (bind_ok _ _ w1 w1 (get_opt v "version"))
    by (unfold lift; now rewrite get_defined).
  rewrite (bind_ok _ _ _ _ _ (update_conn_found ws _ c w1 Hc)).
  set (w2 := with_conns _ w1).
  assert (Hthrow : exists e, negotiateVersion (get_opt v "version") = Throw e).
  { destruct (get_opt v "version") as [| | | | |ver| |] eqn:E;
      try (eexists; reflexivity). exfalso. exact (Hver ver eq_refl). }
  destruct Hthrow as [e He].
  rewrite (bind_throw _ _ w2 w2 e) by (unfold lift; now rewrite He).
  erewrite (bind_ok (log LError "Error processing message" _)) by reflexivity.
  erewrite (bind_ok (lift (Ok v))) by reflexivity.
  match goal with
  | |- context [bind (lift (get v "id")) ?k ?u] =>
      rewrite (bind_ok (lift (get v "id")) k u u (get_opt v "id"))
        by (unfold lift; now rewrite get_defined)
  end.
  match goal with
  | |- context [sendError ws ?i ?code ?m ?u] =>
      destruct (sendError_spec ws i code m u) as (text & Htext & Hsend);
        [|set (w3 := u) in *]
  end.
  { destruct (truthy (get_opt v "id")); [apply stringify_field, Hj|].
    eexists. reflexivity. }
  rewrite Hsend.
  destruct (ws_send_open ws text (with_now_calls (S (now_calls w3)) w3))
    as (s & Es & Rs & Hws); [exact Hopen|].
  rewrite Hws.
  eexists. exists text. split; [reflexivity|].
  split; [apply (get_set_same nat Connection Nat.eqb Nat_eqb_spec)|].
  split; [reflexivity|]. split; [exact Htext|].
  destruct (sent_after_send ws text s w
              (with_sockets (JSMap.set Nat.eqb ws (with_sent (sent s ++ [text]) s)
                               (sockets w)) w) Es Rs eq_refl) as (A & B & _).
  split; [exact A|]. split; [exact B|]. reflexivity.
Qed.

Lemma good_credential_without_version_witness :
  let w := one_connection in
  let v := JObj [("id", JStr "auth-1");
                 ("payload", JObj [("authToken", JStr "test-mcp-token-123")])] in
  exists w' text,
    on_message 0 (Some v) w = (Ok tt, w')
    /\ JSMap.get Nat.eqb 0%nat (conns w')
       = Some {| clientId := mcp_client_id; authenticated := true; clientType := Some Mcp;
                 clientVersion := JUndefined |}
    /\ registry w' = registry w
    /\ stringify_text
         (errorMessage (JStr "auth-1") (clock w (now_calls w)) SERVER_ERROR
            "Internal server error")
       = Ok text
    /\ sent_of 0 w' = sent_of 0 w ++ [text]
    /\ can_send 0 w' = true
    /\ router w' = router w.
Proof.
  apply (good_credential_without_version one_connection 0 fresh_connection
           (JObj [("id", JStr "auth-1");
                  ("payload", JObj [("authToken", JStr "test-mcp-token-123")])])
           "test-mcp-token-123");
    try reflexivity; [discriminate | left; now left | discriminate].
Defined.

(** X13. A message of an authenticated connection that fails
    [validateMessage].  The sender is sent one SCHEMA_ERROR reply that
    lists the errors, joined by commas; the connection stays open; the
    message is not routed: the router, the latency statistics, the registry,
    the connections and every other socket are as before. *)
Theorem invalid_message_is_refused (w : World) (ws : nat) (c : Connection) (v : JSValue)
    (r : ValidationResult) :
  JSMap.get Nat.eqb ws (conns w) = Some c ->
  authenticated c = true ->
  can_send ws w = true ->
  is_json v = true ->
  validateMessage v = Ok r -> valid r = false ->
  exists w' text,
    on_message ws (Some v) w = (Ok tt, w')
    /\ stringify_text
         (errorMessage (get_opt v "id") (clock w (now_calls w)) SCHEMA_ERROR
            (opt_str (option_map (String.concat ", ") (errors r)) "Invalid message schema"))
       = Ok text
    /\ sent_of ws w' = sent_of ws w ++ [text]
    /\ can_send ws w' = true
    /\ (forall h, h <> ws ->
          JSMap.get Nat.eqb h (sockets w') = JSMap.get Nat.eqb h (sockets w))
    /\ router w' = router w /\ latency w' = latency w /\ registry w' = registry w
    /\ conns w' = conns w.
Proof.
  intros Hc Ha Hopen Hj Hval Hinvalid.
  assert (Hn : v <> JNull) by (intros ->; discriminate).
  assert (Hu : v <> JUndefined) by (intros ->; discriminate).
  unfold on_message.
  rewrite (bind_ok _ _ w w (Some c)) by (unfold gets; now rewrite Hc).
  unfold try_catch, message_handler_body.
  rewrite (bind_ok _ _ w w v) by reflexivity.
  rewrite Ha. cbn [negb].
  rewrite (bind_ok _ _ w w r) by (unfold lift; now rewrite Hval).
  rewrite Hinvalid. cbn [negb].
  erewrite (bind_ok (log LWarn "Message validation failed" _)) by reflexivity.
  match goal with
  | |- context [bind (lift (get v "id")) ?k ?u] =>
      rewrite (bind_ok (lift (get v "id")) k u u (get_opt v "id"))
        by (unfold lift; now rewrite get_defined)
  end.
  match goal with
  | |- context [sendError ws ?i ?code ?m ?u] =>
      destruct (sendError_spec ws i code m u) as (text & Htext & Hsend);
        [apply stringify_field, Hj | set (w1 := u) in *]
  end.
  rewrite Hsend.
  destruct (ws_send_open ws text (with_now_calls (S (now_calls w1)) w1))
    as (s & Es & Rs & Hws); [exact Hopen|].
  rewrite Hws.
  eexists. exists text. split; [reflexivity|]. split; [exact Htext|].
  destruct (sent_after_send ws text s w
              (with_sockets (JSMap.set Nat.eqb ws (with_sent (sent s ++ [text]) s)
                               (sockets w)) w) Es Rs eq_refl) as (A & B & C).
  split; [exact A|]. split; [exact B|]. split; [exact C|]. repeat split.
Qed.

Lemma invalid_message_is_refused_witness :
  let w := two_clients in
  let v := JObj [("version", JStr "1.0.0"); ("type", JStr "query"); ("id", JStr "q1");
                 ("timestamp", JNum 0); ("source", JStr "mcp"); ("payload", JObj [])] in
  exists w' text,
    on_message 0 (Some v) w = (Ok tt, w')
    /\ stringify_text
         (errorMessage (get_opt v "id") (clock w (now_calls w)) SCHEMA_ERROR
            "Missing or invalid timestamp field")
       = Ok text
    /\ sent_of 0 w' = sent_of 0 w ++ [text]
    /\ can_send 0 w' = true
    /\ (forall h, h <> 0%nat ->
          JSMap.get Nat.eqb h (sockets w') = JSMap.get Nat.eqb h (sockets w))
    /\ router w' = router w /\ latency w' = latency w /\ registry w' = registry w
    /\ conns w' = conns w.
Proof.
  apply (invalid_message_is_refused two_clients 0
           {| clientId := mcp_client_id; authenticated := true; clientType := Some Mcp;
              clientVersion := JStr "1.0.0" |}
           (JObj [("version", JStr "1.0.0"); ("type", JStr "query"); ("id", JStr "q1");
                  ("timestamp", JNum 0); ("source", JStr "mcp"); ("payload", JObj [])])
           {| valid := false; errors := Some ["Missing or invalid timestamp field"] |});
    reflexivity.
Defined.

Section HandlerAuthz.

(** The two refusals of a command. *)
Lemma authorize_denies (role : MessageSource) (m : BridgeMessage) (w : World) :
  msg_type m = TCommand ->
  role = Minecraft
  \/ (exists s p rest, get_opt (msg_payload m) "command" = JStr s
                       /\ In p dangerousCommands /\ s = p ^+ rest) ->
  exists why lg,
    authorize role m w = (Ok {| authorized := false; reason := Some why |}, with_logger lg w)
    /\ String.eqb why EmptyString = false
    /\ (why = "Only MCP clients can send commands and queries"
        \/ exists s, get_opt (msg_payload m) "command" = JStr s
                     /\ why = "Command '" ^+ s ^+ "' is not permitted").
Proof.
  intros T Hden. unfold authorize. rewrite T.
  cbn [MessageType_eqb MessageType_str String.eqb Ascii.eqb Bool.eqb orb andb].
  destruct role; cbn [MessageSource_eqb negb andb].
  - destruct Hden as [Hr|(s & p & rest & Hs & Hp & Hrest)]; [discriminate|].
    cbv zeta. unfold bind, lift. rewrite Hs. cbn [is_dangerous].
    assert (D : existsb (fun cmd => String.prefix cmd s) dangerousCommands = true).
    { apply existsb_exists. exists p. split; [exact Hp|].
      apply prefix_append. now exists rest. }
    rewrite D. unfold log, modify, ret. do 2 eexists. split; [reflexivity|].
    split; [reflexivity|]. right. exists s. split; reflexivity.
  - exists "Only MCP clients can send commands and queries", (logger w).
    rewrite with_logger_same. split; [reflexivity|]. split; [reflexivity|]. now left.
Qed.

End HandlerAuthz.

(** X14. A command that [authorize] refuses: one sent by a client whose
    role is not 'mcp', or one whose name starts with an entry of the
    denylist.  The sender is sent one PERMISSION_DENIED reply with the
    reason; the connection stays open; the command is not routed: the
    router, the latency statistics, the registry, the connections and every
    other socket are as before. *)
Theorem refused_command_is_not_routed (w : World) (ws : nat) (c : Connection)
    (v : JSValue) (r : ValidationResult) (m : BridgeMessage) (role : MessageSource) :
  JSMap.get Nat.eqb ws (conns w) = Some c ->
  authenticated c = true -> clientType c = Some role ->
  can_send ws w = true ->
  validateMessage v = Ok r -> valid r = true ->
  as_BridgeMessage v = Some m -> msg_type m = TCommand ->
  role = Minecraft
  \/ (exists s p rest, get_opt (msg_payload m) "command" = JStr s
                       /\ In p dangerousCommands /\ s = p ^+ rest) ->
  exists w' text why,
    on_message ws (Some v) w = (Ok tt, w')
    /\ (why = "Only MCP clients can send commands and queries"
        \/ exists s, get_opt (msg_payload m) "command" = JStr s
                     /\ why = "Command '" ^+ s ^+ "' is not permitted")
    /\ stringify_text
         (errorMessage (JStr (msg_id m)) (clock w (now_calls w)) PERMISSION_DENIED why)
       = Ok text
    /\ sent_of ws w' = sent_of ws w ++ [text]
    /\ can_send ws w' = true
    /\ (forall h, h <> ws ->
          JSMap.get Nat.eqb h (sockets w') = JSMap.get Nat.eqb h (sockets w))
    /\ router w' = router w /\ latency w' = latency w /\ registry w' = registry w
    /\ conns w' = conns w.
Proof.
  intros Hc Ha Hrole Hopen Hval Hvalid Hm T Hden.
  destruct (authorize_denies role m w T Hden) as (why & lg & Hauthz & Hwhy & Hreason).
  unfold on_message.
  rewrite (bind_ok _ _ w w (Some c)) by (unfold gets; now rewrite Hc).
  unfold try_catch, message_handler_body.
  rewrite (bind_ok _ _ w w v) by reflexivity.
  rewrite Ha. cbn [negb].
  rewrite (bind_ok _ _ w w r) by (unfold lift; now rewrite Hval).
  rewrite Hvalid. cbn [negb]. rewrite Hm, Hrole.
  rewrite T. cbn [MessageType_eqb MessageType_str String.eqb Ascii.eqb Bool.eqb].
  unfold bind at 1. unfold bind at 1. rewrite Hauthz. cbn [authorized negb reason].
  erewrite (bind_ok (log LWarn "Command authorization failed" _)) by reflexivity.
  unfold opt_str. rewrite Hwhy.
  match goal with
  | |- context [bind (sendError ws ?i ?code ?msg) ?k ?u] =>
      destruct (sendError_spec ws i code msg u) as (text & Htext & Hsend);
        [eexists; reflexivity | set (w1 := u) in *]
  end.
  destruct (ws_send_open ws text (with_now_calls (S (now_calls w1)) w1))
    as (s & Es & Rs & Hws); [exact Hopen|].
  rewrite Hws in Hsend.
  rewrite (bind_ok _ _ _ _ _ Hsend). unfold ret.
  eexists. exists text, why. split; [reflexivity|]. split; [exact Hreason|].
  split; [exact Htext|].
  destruct (sent_after_send ws text s w
              (with_sockets (JSMap.set Nat.eqb ws (with_sent (sent s ++ [text]) s)
                               (sockets w)) w) Es Rs eq_refl) as (A & B & C).
  split; [exact A|]. split; [exact B|]. split; [exact C|]. repeat split.
Qed.

Lemma refused_command_is_not_routed_witness :
  let w := two_clients in
  let m := {| msg_version := "1.0.0"; msg_type := TCommand; msg_id := "cmd-9";
              msg_timestamp := 1700000000100; msg_source := Minecraft;
              msg_payload := JObj [("command", JStr "execute_command");
                                   ("args", JObj [("command", JStr "say Unauthorized")])];
              msg_receivedAt := None; msg_forwardedAt := None;
              msg_props := match command_from_minecraft with
                           | JObj props => props
                           | _ => []
                           end |} in
  exists w' text why,
    on_message 1 (Some command_from_minecraft) w = (Ok tt, w')
    /\ (why = "Only MCP clients can send commands and queries"
        \/ exists s, get_opt (msg_payload m) "command" = JStr s
                     /\ why = "Command '" ^+ s ^+ "' is not permitted")
    /\ stringify_text
         (errorMessage (JStr (msg_id m)) (clock w (now_calls w)) PERMISSION_DENIED why)
       = Ok text
    /\ sent_of 1 w' = sent_of 1 w ++ [text]
    /\ can_send 1 w' = true
    /\ (forall h, h <> 1%nat ->
          JSMap.get Nat.eqb h (sockets w') = JSMap.get Nat.eqb h (sockets w))
    /\ router w' = router w /\ latency w' = latency w /\ registry w' = registry w
    /\ conns w' = conns w.
Proof.
  apply (refused_command_is_not_routed two_clients 1
           {| clientId := "client_1700000000004_bbbbbbbbb"; authenticated := true;
              clientType := Some Minecraft; clientVersion := JStr "1.0.0" |}
           command_from_minecraft {| valid := true; errors := None |}
           {| msg_version := "1.0.0"; msg_type := TCommand; msg_id := "cmd-9";
              msg_timestamp := 1700000000100; msg_source := Minecraft;
              msg_payload := JObj [("command", JStr "execute_command");
                                   ("args", JObj [("command", JStr "say Unauthorized")])];
              msg_receivedAt := None; msg_forwardedAt := None;
              msg_props := match command_from_minecraft with
                           | JObj props => props
                           | _ => []
                           end |}
           Minecraft);
    try reflexivity. now left.
Defined.

(** ** The handlers, one relation at a time *)

Section EveryHandler.

Variable R : World -> World -> Prop.
Hypothesis R_refl : forall w, R w w.
Hypothesis R_trans : forall w1 w2 w3, R w1 w2 -> R w2 w3 -> R w1 w3.
Hypothesis R_now_calls : forall n w, R w (with_now_calls n w).
Hypothesis R_logger : forall l w, R w (with_logger l w).
Hypothesis R_sockets : forall s w, R w (with_sockets s w).
Hypothesis R_latency : forall l w, R w (with_latency l w).
Hypothesis R_registry : forall r w, R w (with_registry r w).
Hypothesis R_conns : forall c w, R w (with_conns c w).
Hypothesis R_wss_clients : forall c w, R w (with_wss_clients c w).
Hypothesis R_authenticated :
  forall ws role w,
    R w (with_authenticatedClients (JSMap.set Nat.eqb ws role (authenticatedClients w)) w).
Hypothesis R_queueMessage : forall message src, respects R (queueMessage message src).
Hypothesis R_serializeMessage : forall message, respects R (serializeMessage message).
Hypothesis R_emptied :
  forall w, R w (with_router (with_messageQueue [] (router w)) w).

Lemma respects_ret {A : Type} (a : A) : respects R (ret a).
Proof. intros w. apply R_refl. Qed.

Lemma respects_throw {A : Type} (e : string) : respects R (@throw A e).
Proof. intros w. apply R_refl. Qed.

Lemma respects_lift {A : Type} (o : Outcome A) : respects R (lift o).
Proof. intros w. apply R_refl. Qed.

Lemma respects_gets {A : Type} (f : World -> A) : respects R (gets f).
Proof. intros w. apply R_refl. Qed.

Lemma respects_bind {A B : Type} (c : M A) (k : A -> M B) :
  respects R c -> (forall a, respects R (k a)) -> respects R (bind c k).
Proof.
  intros Hc Hk w. specialize (Hc w). unfold exec, bind in *.
  destruct (c w) as [[a|e] w1]; cbn [snd] in *; [|exact Hc].
  eapply R_trans; [exact Hc|]. apply (Hk a w1).
Qed.

Lemma respects_try_catch {A : Type} (body : M A) (handler : string -> M A) :
  respects R body -> (forall e, respects R (handler e)) ->
  respects R (try_catch body handler).
Proof.
  intros Hc Hk w. specialize (Hc w). unfold exec, try_catch in *.
  destruct (body w) as [[a|e] w1]; cbn [snd] in *; [exact Hc|].
  eapply R_trans; [exact Hc|]. apply (Hk e w1).
Qed.

Lemma respects_Date_now : respects R Date_now.
Proof. intros w. apply R_now_calls. Qed.

Lemma respects_log (l : LogLevel) (message : string) (context : list (string * JSValue)) :
  respects R (log l message context).
Proof. intros w. apply R_logger. Qed.

Lemma respects_update_socket (h : nat) (f : Socket -> Socket) :
  respects R (update_socket h f).
Proof.
  intros w. unfold exec, update_socket, modify. cbn [snd].
  destruct (JSMap.get Nat.eqb h (sockets w)); [apply R_sockets|apply R_refl].
Qed.

Lemma respects_ws_send (h : nat) (data : string) : respects R (ws_send h data).
Proof.
  intros w. unfold exec, ws_send.
  destruct (send_error h w); [apply R_refl|].
  destruct (can_send h w).
  - apply (respects_update_socket h).
  - apply R_refl.
Qed.

Lemma respects_update_conn (ws : nat) (f : Connection -> Connection) :
  respects R (update_conn ws f).
Proof.
  intros w. unfold exec, update_conn, modify. cbn [snd].
  destruct (JSMap.get Nat.eqb ws (conns w)); [apply R_conns|apply R_refl].
Qed.

Create HintDb respects.

#[local] Hint Resolve respects_ret respects_throw respects_lift respects_gets
  respects_Date_now respects_log respects_update_socket respects_ws_send
  respects_update_conn R_queueMessage R_serializeMessage : respects.

Ltac respects_steps :=
  repeat first
    [ solve [auto 1 with respects nocore]
    | match goal with
      | |- respects _ (if ?b then _ else _) => destruct b
      | |- respects _ (match ?x with _ => _ end) => destruct x
      | |- respects _ (bind _ _) => apply respects_bind; [|intros ?]
      | |- respects _ (try_catch _ _) => apply respects_try_catch; [|intros ?]
      | |- respects _ (modify _) =>
          let w := fresh "w" in
          intros w;
          first [ apply R_now_calls | apply R_logger | apply R_sockets | apply R_latency
                | apply R_registry | apply R_conns | apply R_wss_clients
                | apply R_authenticated | apply R_emptied ]
      end ].

Lemma respects_ws_close (h : nat) : respects R (ws_close h).
Proof. apply respects_update_socket. Qed.

Lemma respects_ws_terminate (h : nat) : respects R (ws_terminate h).
Proof. apply respects_update_socket. Qed.

Lemma respects_ws_ping (h : nat) : respects R (ws_ping h).
Proof. apply respects_update_socket. Qed.

Lemma respects_ws_set_isAlive (h : nat) (b : bool) : respects R (ws_set_isAlive h b).
Proof. apply respects_update_socket. Qed.

#[local] Hint Resolve respects_ws_close respects_ws_terminate respects_ws_ping
  respects_ws_set_isAlive : respects.

Lemma respects_recordLatency (messageType : string) (latencyMs : Z) :
  respects R (recordLatency messageType latencyMs).
Proof. unfold recordLatency. respects_steps. Qed.

#[local] Hint Resolve respects_recordLatency : respects.

Lemma respects_forward (routeStart : Z) (message : BridgeMessage) (messageStr : string)
    (destinations : list ClientInfo) :
  forall successCount,
    respects R (forward routeStart message messageStr destinations successCount).
Proof.
  induction destinations as [|dest rest IH]; intros successCount; cbn [forward].
  - apply respects_ret.
  - apply respects_bind; [|intros n; apply IH].
    unfold forward_one. cbv zeta. respects_steps.
Qed.

#[local] Hint Resolve respects_forward : respects.

Lemma respects_routeMessage (message : BridgeMessage) (sourceClientId : string) :
  respects R (routeMessage message sourceClientId).
Proof.
  unfold routeMessage, getMinecraftClients, getMCPClients. cbv zeta. respects_steps.
Qed.

#[local] Hint Resolve respects_routeMessage : respects.

Lemma respects_processQueue_each (messagesToProcess : list QueuedMessage) :
  respects R (processQueue_each messagesToProcess).
Proof.
  induction messagesToProcess as [|queued rest IH]; cbn [processQueue_each];
    respects_steps.
Qed.

Lemma respects_processQueue_catch (rejected : list (QueuedMessage * string)) :
  respects R (processQueue_catch rejected).
Proof.
  induction rejected as [|[queued error] rest IH]; cbn [processQueue_catch];
    respects_steps.
Qed.

#[local] Hint Resolve respects_processQueue_each respects_processQueue_catch : respects.

Lemma respects_processQueue : respects R processQueue.
Proof. unfold processQueue. respects_steps. Qed.

Lemma respects_sendError (ws : nat) (messageId : JSValue) (code message : string) :
  respects R (sendError ws messageId code message).
Proof. unfold sendError. respects_steps. Qed.

Lemma respects_sendResponse (ws : nat) (messageId payload : JSValue) :
  respects R (sendResponse ws messageId payload).
Proof. unfold sendResponse. respects_steps. Qed.

Lemma respects_authenticate (message : JSValue) (ws : nat) :
  respects R (authenticate message ws).
Proof. unfold authenticate. cbv zeta. respects_steps. Qed.

Lemma respects_authorize (clientType : MessageSource) (message : BridgeMessage) :
  respects R (authorize clientType message).
Proof. unfold authorize. cbv zeta. respects_steps. Qed.

Lemma respects_addClient (id : string) (ws : nat) (type : MessageSource) (version : string) :
  respects R (addClient id ws type version).
Proof. unfold addClient. respects_steps. Qed.

Lemma respects_removeClient (id : string) : respects R (removeClient id).
Proof. unfold removeClient. respects_steps. Qed.

#[local] Hint Resolve respects_sendError respects_sendResponse respects_authenticate
  respects_authorize respects_addClient respects_removeClient : respects.

Lemma respects_on_message (ws : nat) (parsed : option JSValue) :
  respects R (on_message ws parsed).
Proof. unfold on_message, message_handler_body. respects_steps. Qed.

Lemma respects_on_close (ws : nat) : respects R (on_close ws).
Proof. unfold on_close. respects_steps. Qed.

Lemma respects_checkHeartbeats_each (clients : list nat) :
  respects R (checkHeartbeats_each clients).
Proof.
  induction clients as [|ws rest IH]; cbn [checkHeartbeats_each]; respects_steps.
Qed.

#[local] Hint Resolve respects_on_close respects_checkHeartbeats_each : respects.

(** Every event the server handles. *)
Lemma respects_dispatch (e : ServerEvent) : respects R (dispatch e).
Proof.
  destruct e as [ws suffix|ws parsed|ws|ws| |]; cbn [dispatch].
  - unfold accept, handleConnection. cbv zeta. respects_steps.
    intros w. eapply R_trans; [apply R_sockets|apply R_wss_clients].
  - apply respects_on_message.
  - unfold emit_close. respects_steps.
  - apply respects_ws_set_isAlive.
  - unfold checkHeartbeats. respects_steps.
  - apply respects_processQueue.
Qed.

End EveryHandler.

Section Stores.

Lemma auth_grows_queueMessage (message : BridgeMessage) (src : string) :
  respects auth_grows (queueMessage message src).
Proof.
  intros w ws H. unfold exec, queueMessage, bind, gets, modify, log, Date_now, ret.
  destruct (Z.of_nat (List.length (messageQueue (router w))) >=? maxQueueSize (router w));
    exact H.
Qed.

Lemma auth_grows_serializeMessage (message : BridgeMessage) :
  respects auth_grows (serializeMessage message).
Proof.
  intros w ws H. unfold exec, serializeMessage, bind, gets, lift, modify, ret.
  destruct (JSMap.get String.eqb (cacheKey message) (serializationCache (router w)));
    [exact H|].
  destruct (JSON_stringify message); [|exact H].
  destruct (JSMap.size (serializationCache (router w)) >=? maxCacheSize (router w));
    [destruct (JSMap.keys (serializationCache (router w)))|]; exact H.
Qed.

Lemma has_set {V : Type} (h h' : nat) (v : V) (m : JSMap.t nat V) :
  JSMap.has Nat.eqb h m = true -> JSMap.has Nat.eqb h (JSMap.set Nat.eqb h' v m) = true.
Proof.
  unfold JSMap.has. destruct (Nat.eq_dec h h') as [->|Hne].
  - now rewrite (get_set_same nat V Nat.eqb Nat_eqb_spec).
  - now rewrite (get_set_other nat V Nat.eqb Nat_eqb_spec).
Qed.

Lemma length_set {K V : Type} (eqb : K -> K -> bool) (k : K) (v : V) (m : JSMap.t K V) :
  (List.length (JSMap.set eqb k v m) <= S (List.length m))%nat.
Proof.
  induction m as [|[k' v'] m IH]; cbn; [lia|].
  destruct (eqb k k'); cbn; lia.
Qed.

Lemma length_delete {K V : Type} (eqb : K -> K -> bool) (k : K) (m : JSMap.t K V) :
  (List.length (JSMap.delete eqb k m) <= List.length m)%nat.
Proof. unfold JSMap.delete. apply filter_length_le. Qed.

(** Deleting the first key of a map removes an entry. *)
Lemma length_delete_first {K V : Type} (eqb : K -> K -> bool)
    (eqb_refl : forall k, eqb k k = true) (k : K) (rest : list K) (m : JSMap.t K V) :
  JSMap.keys m = k :: rest ->
  (S (List.length (JSMap.delete eqb k m)) <= List.length m)%nat.
Proof.
  destruct m as [|[k' v'] m]; [discriminate|]. cbn. intros H. inversion H. subst.
  rewrite eqb_refl. cbn. pose proof (length_delete eqb k m). unfold JSMap.delete in *. lia.
Qed.

Lemma keeps_bounded_queueMessage (message : BridgeMessage) (src : string) :
  respects keeps_bounded (queueMessage message src).
Proof.
  intros w (Hcap & Hcache & Hqueue).
  destruct (queueMessage_spec message src w) as (w' & Hq & Hqueue' & Hcap' & _).
  assert (Hframe : serializationCache (router (exec (queueMessage message src) w))
                   = serializationCache (router w)
                   /\ maxCacheSize (router (exec (queueMessage message src) w))
                      = maxCacheSize (router w)).
  { unfold exec, queueMessage, bind, gets, modify, log, Date_now, ret.
    destruct (Z.of_nat (List.length (messageQueue (router w))) >=? maxQueueSize (router w));
      split; reflexivity. }
  destruct Hframe as [Fc Fm].
  unfold exec in *. rewrite Hq in *. cbn [snd] in *.
  unfold bounded. rewrite Fc, Fm, Hqueue', Hcap'.
  split; [exact Hcap|]. split; [exact Hcache|].
  unfold enqueue.
  destruct (Z.of_nat (List.length (messageQueue (router w))) >=? maxQueueSize (router w))
    eqn:E; rewrite length_app; cbn [List.length].
  - destruct (messageQueue (router w)) as [|x q]; cbn [tl List.length] in *; lia.
  - rewrite Z.geb_leb in E. apply Z.leb_gt in E. lia.
Qed.

Lemma keeps_bounded_serializeMessage (message : BridgeMessage) :
  respects keeps_bounded (serializeMessage message).
Proof.
  intros w (Hcap & Hcache & Hqueue).
  unfold exec, serializeMessage, bind, gets, lift, modify, ret.
  destruct (JSMap.get String.eqb (cacheKey message) (serializationCache (router w)));
    [now repeat split|].
  destruct (JSON_stringify message) as [str|e]; [|now repeat split].
  unfold JSMap.size in *.
  destruct (Z.of_nat (List.length (serializationCache (router w))) >=? maxCacheSize (router w))
    eqn:E.
  - destruct (JSMap.keys (serializationCache (router w))) as [|k rest] eqn:Ks.
    + split; [exact Hcap|]. split; [|exact Hqueue].
      destruct (serializationCache (router w)); [cbn; lia|discriminate].
    + split; [exact Hcap|]. split; [|exact Hqueue].
      pose proof (length_delete_first String.eqb String.eqb_refl k rest
                    (serializationCache (router w)) Ks) as D.
      pose proof (length_set String.eqb (cacheKey message) str
                    (JSMap.delete String.eqb k (serializationCache (router w)))) as L.
      unfold JSMap.size.
      cbn [snd router with_router serializationCache with_serializationCache].
      lia.
  - split; [exact Hcap|]. split; [|exact Hqueue].
    rewrite Z.geb_leb in E. apply Z.leb_gt in E.
    pose proof (length_set String.eqb (cacheKey message) str
                  (serializationCache (router w))) as L.
    unfold JSMap.size.
    cbn [snd router with_router serializationCache with_serializationCache].
    lia.
Qed.

Lemma two_clients_reachable : reachable two_clients.
Proof.
  apply (@reachable_step _ (OnMessage 1%nat _)); [|reflexivity].
  apply (@reachable_step _ (OnConnection 1%nat "bbbbbbbbb")); [|vm_compute; reflexivity].
  apply (@reachable_step _ (OnMessage 0%nat _)); [|reflexivity].
  apply (@reachable_step _ (OnConnection 0%nat "aaaaaaaaa")); [|vm_compute; reflexivity].
  apply reachable_start.
Qed.

End Stores.

(** X15. The server never removes a socket from the map of authenticated
    sockets: whatever the events of a run, the close of the socket among
    them, a socket that [authenticate] has recorded stays recorded.
    [AuthManager.removeClient] is called by no handler, so the map keeps one
    entry for every connection that ever authenticated. *)
Theorem authenticated_sockets_are_never_forgotten (es : list ServerEvent) (w : World)
    (ws : nat) :
  JSMap.has Nat.eqb ws (authenticatedClients w) = true ->
  JSMap.has Nat.eqb ws (authenticatedClients (run_events es w)) = true.
Proof.
  revert w. induction es as [|e es IH]; intros w H; [exact H|].
  cbn [run_events]. apply IH.
  assert (Step : respects auth_grows (dispatch e)).
  { apply respects_dispatch; try (intros; intros ? ?; assumption).
    - intros w1 w2 w3 H12 H23 h Hh. apply H23, H12, Hh.
    - intros h role u h' Hh. cbn. now apply has_set.
    - apply auth_grows_queueMessage.
    - apply auth_grows_serializeMessage. }
  exact (Step w ws H).
Qed.

Lemma authenticated_sockets_are_never_forgotten_witness :
  JSMap.has Nat.eqb 1%nat
    (authenticatedClients (run_events [OnHeartbeat; OnClose 1%nat; OnProcessQueue] two_clients))
  = true.
Proof.
  apply (authenticated_sockets_are_never_forgotten
           [OnHeartbeat; OnClose 1%nat; OnProcessQueue] two_clients 1%nat).
  reflexivity.
Defined.

(** X16. In every state of the server the serialization cache holds at
    most 100 entries and the queue at most [maxQueueSize] messages (one,
    when [maxQueueSize] is less than one): each is trimmed before it
    grows. *)
Theorem router_stores_are_bounded (w : World) :
  reachable w ->
  JSMap.size (serializationCache (router w)) <= 100
  /\ Z.of_nat (List.length (messageQueue (router w))) <= Z.max 1 (maxQueueSize (router w)).
Proof.
  intros Hreach.
  assert (B : bounded w).
  { induction Hreach as [clock level cfg cap|w e _ IH En].
    - unfold bounded. cbn. lia.
    - assert (Step : respects keeps_bounded (dispatch e)).
      { apply respects_dispatch; try (intros; intros ?; assumption).
        - intros w1 w2 w3 H12 H23 Hb. apply H23, H12, Hb.
        - apply keeps_bounded_queueMessage.
        - apply keeps_bounded_serializeMessage.
        - intros u (A & B & C). unfold bounded. cbn. repeat split; try assumption. lia. }
      exact (Step w IH). }
  destruct B as (_ & B1 & B2). split; assumption.
Qed.

Lemma router_stores_are_bounded_witness :
  JSMap.size (serializationCache (router two_clients)) <= 100
  /\ Z.of_nat (List.length (messageQueue (router two_clients)))
     <= Z.max 1 (maxQueueSize (router two_clients)).
Proof.
  apply (router_stores_are_bounded two_clients).
  apply (@reachable_step _ (OnMessage 1%nat _)); [|reflexivity].
  apply (@reachable_step _ (OnConnection 1%nat "bbbbbbbbb")); [|vm_compute; reflexivity].
  apply (@reachable_step _ (OnMessage 0%nat _)); [|reflexivity].
  apply (@reachable_step _ (OnConnection 0%nat "aaaaaaaaa")); [|vm_compute; reflexivity].
  apply reachable_start.
Defined.

(** ** connection-registry.ts *)

Section RegistryMore.

Lemma get_delete_other {K V : Type} (eqb : K -> K -> bool)
    (eqb_spec : forall a b, eqb a b = true <-> a = b) (k k' : K) (m : JSMap.t K V) :
  k <> k' -> JSMap.get eqb k (JSMap.delete eqb k' m) = JSMap.get eqb k m.
Proof.
  intros Hne. induction m as [|[k0 v0] m IH]; cbn; [reflexivity|].
  destruct (eqb k' k0) eqn:E'; cbn.
  - apply eqb_spec in E'. subst k0.
    destruct (eqb k k') eqn:E; [apply eqb_spec in E; congruence|exact IH].
  - destruct (eqb k k0); [reflexivity|exact IH].
Qed.

Lemma keys_set {K V : Type} (eqb : K -> K -> bool) (k : K) (v : V) (m : JSMap.t K V) :
  JSMap.keys (JSMap.set eqb k v m)
  = if JSMap.has eqb k m then JSMap.keys m else JSMap.keys m ++ [k].
Proof.
  unfold JSMap.has, JSMap.keys.
  induction m as [|[k' v'] m IH]; cbn [JSMap.set JSMap.get map fst]; [reflexivity|].
  destruct (eqb k k') eqn:E; cbn [map fst]; [reflexivity|].
  rewrite IH. now destruct (JSMap.get eqb k m).
Qed.

Lemma get_none_keys {K V : Type} (eqb : K -> K -> bool)
    (eqb_spec : forall a b, eqb a b = true <-> a = b) (k : K) (m : JSMap.t K V) :
  JSMap.get eqb k m = None -> ~ In k (JSMap.keys m).
Proof.
  induction m as [|[k' v'] m IH]; cbn; [tauto|].
  destruct (eqb k k') eqn:E; [discriminate|].
  intros H [Heq|Hin]; [|now apply IH].
  subst k'. assert (X : eqb k k = true) by now apply eqb_spec. congruence.
Qed.

Lemma NoDup_keys_set {K V : Type} (eqb : K -> K -> bool)
    (eqb_spec : forall a b, eqb a b = true <-> a = b) (k : K) (v : V) (m : JSMap.t K V) :
  NoDup (JSMap.keys m) -> NoDup (JSMap.keys (JSMap.set eqb k v m)).
Proof.
  intros H. rewrite keys_set. unfold JSMap.has.
  destruct (JSMap.get eqb k m) eqn:E; [exact H|].
  apply NoDup_app; [exact H|repeat constructor; intros []|].
  intros x Hx [<-|[]]. revert Hx. now apply get_none_keys with (eqb := eqb).
Qed.

Lemma NoDup_keys_delete {K V : Type} (eqb : K -> K -> bool) (k : K) (m : JSMap.t K V) :
  NoDup (JSMap.keys m) -> NoDup (JSMap.keys (JSMap.delete eqb k m)).
Proof.
  unfold JSMap.keys, JSMap.delete. induction m as [|[k' v'] m IH]; cbn; [trivial|].
  intros H. inversion H as [|? ? Hn Hd]; subst.
  destruct (eqb k k'); cbn; [now apply IH|].
  constructor; [|now apply IH].
  intros Hin. apply Hn. apply in_map_iff in Hin. destruct Hin as (x & Hx & Hin).
  apply filter_In in Hin. apply in_map_iff. exists x. split; [exact Hx|apply Hin].
Qed.

Lemma get_delete_some {K V : Type} (eqb : K -> K -> bool)
    (eqb_spec : forall a b, eqb a b = true <-> a = b) (k k' : K) (v : V) (m : JSMap.t K V) :
  JSMap.get eqb k (JSMap.delete eqb k' m) = Some v -> JSMap.get eqb k m = Some v.
Proof.
  intros H. destruct (eqb k k') eqn:E.
  - apply eqb_spec in E. subst k'.
    rewrite (get_delete_same K V eqb k m) in H. discriminate.
  - rewrite (get_delete_other eqb eqb_spec) in H; [exact H|].
    intros ->. assert (X : eqb k' k' = true) by now apply eqb_spec. congruence.
Qed.

End RegistryMore.

(** X17. The registry as a map.  After [addClient(id, ws, type, version)]
    a lookup of [id] gives the entry made of these arguments and the time of
    the call, and every other id looks up as before; an id that was already
    registered keeps its place in the order of the entries, a new one goes
    last.  After [removeClient(id)] a lookup of [id] gives nothing and every
    other id looks up as before; removing an id that is not registered
    changes nothing and logs nothing. *)
Theorem registry_add_get_remove (id : string) (ws : nat) (type : MessageSource)
    (version : string) (w : World) :
  let added := exec (addClient id ws type version) w in
  fst (getClient id added)
  = Ok (Some {| ci_id := id; ci_ws := ws; ci_type := type; ci_version := version;
                ci_connectedAt := clock w (now_calls w) |})
  /\ (forall id', id' <> id -> fst (getClient id' added) = fst (getClient id' w))
  /\ JSMap.keys (registry added)
     = (if JSMap.has String.eqb id (registry w)
        then JSMap.keys (registry w) else JSMap.keys (registry w) ++ [id])
  /\ fst (getClient id (exec (removeClient id) w)) = Ok None
  /\ (forall id', id' <> id ->
        fst (getClient id' (exec (removeClient id) w)) = fst (getClient id' w))
  /\ (JSMap.has String.eqb id (registry w) = false -> exec (removeClient id) w = w).
Proof.
  intros added. subst added.
  unfold getClient, exec, addClient, removeClient, bind, Date_now, log, modify, gets.
  cbn [fst snd registry with_registry with_logger with_now_calls].
  split; [now rewrite (get_set_same string ClientInfo String.eqb String_eqb_spec)|].
  split; [intros id' Hne;
          now rewrite (get_set_other string ClientInfo String.eqb String_eqb_spec)|].
  split; [apply keys_set|].
  unfold JSMap.has.
  destruct (JSMap.get String.eqb id (registry w)) as [ci|] eqn:E;
    cbn [fst snd registry with_registry with_logger ret].
  - split; [now rewrite (get_delete_same string ClientInfo String.eqb)|].
    split; [|discriminate]. intros id' Hne.
    now rewrite (get_delete_other String.eqb String_eqb_spec).
  - split; [now rewrite E|]. split; [reflexivity|reflexivity].
Qed.

(** X18. The two lists the router reads split the registry by role: every
    registered client is in exactly one of [getMCPClients()] and
    [getMinecraftClients()], in the order of [getAllClients()], and the
    destinations of a message are the clients of the role that is not its
    source. *)
Theorem registry_splits_by_role (w : World) (all mcp minecraft : list ClientInfo) :
  fst (getAllClients w) = Ok all ->
  fst (getMCPClients w) = Ok mcp ->
  fst (getMinecraftClients w) = Ok minecraft ->
  (forall c, In c all <-> In c mcp \/ In c minecraft)
  /\ (forall c, In c mcp -> ci_type c = Mcp)
  /\ (forall c, In c minecraft -> ci_type c = Minecraft)
  /\ List.length all = (List.length mcp + List.length minecraft)%nat
  /\ destinations Mcp w = minecraft /\ destinations Minecraft w = mcp.
Proof.
  unfold getAllClients, getMCPClients, getMinecraftClients, gets, destinations. cbn [fst].
  intros Hall Hmcp Hmc. inversion Hall. inversion Hmcp. inversion Hmc. clear Hall Hmcp Hmc.
  set (l := JSMap.values (registry w)).
  split; [|split; [|split; [|split; [|split; reflexivity]]]].
  - intros c. rewrite !filter_In. split.
    + intros H. destruct (ci_type c) eqn:T; [left|right]; split; trivial.
    + intros [[H _]|[H _]]; exact H.
  - intros c H. apply filter_In in H. destruct H as [_ H]. now destruct (ci_type c).
  - intros c H. apply filter_In in H. destruct H as [_ H]. now destruct (ci_type c).
  - induction l as [|c l IH]; [reflexivity|].
    cbn [filter List.length]. destruct (ci_type c); cbn [MessageSource_eqb List.length]; lia.
Qed.

Lemma registry_splits_by_role_witness :
  let all := JSMap.values (registry three_clients) in
  let mcp := filter (fun c => MessageSource_eqb (ci_type c) Mcp) all in
  let minecraft := filter (fun c => MessageSource_eqb (ci_type c) Minecraft) all in
  (forall c, In c all <-> In c mcp \/ In c minecraft)
  /\ (forall c, In c mcp -> ci_type c = Mcp)
  /\ (forall c, In c minecraft -> ci_type c = Minecraft)
  /\ List.length all = (List.length mcp + List.length minecraft)%nat
  /\ destinations Mcp three_clients = minecraft
  /\ destinations Minecraft three_clients = mcp.
Proof.
  apply (registry_splits_by_role three_clients); reflexivity.
Defined.

Section RegistryInvariant.

Create HintDb inert_steps.

#[local] Hint Resolve inert_ret inert_throw inert_lift inert_gets inert_Date_now inert_log
  inert_ws_send inert_ws_close inert_ws_terminate inert_ws_ping inert_ws_set_isAlive
  inert_recordLatency inert_queueMessage inert_serializeMessage inert_forward
  inert_routeMessage inert_processQueue_each inert_processQueue_catch inert_sendError
  inert_sendResponse inert_authenticate inert_authorize inert_checkHeartbeats_each : inert_steps.

Ltac inert_run :=
  repeat first
    [ solve [auto 1 with inert_steps nocore]
    | match goal with
      | |- inert (if ?b then _ else _) => destruct b
      | |- inert (match ?x with _ => _ end) => destruct x
      | |- inert (bind _ _) => apply inert_bind; [|intros ?]
      | |- inert (try_catch _ _) => apply inert_try_catch; [|intros ?]
      | |- inert (modify _) => apply inert_modify; intros ?; constructor; auto
      end ].

Lemma inert_registry_consistent (w w' : World) :
  inert_step w w' -> registry_consistent w -> registry_consistent w'.
Proof.
  intros [C R _ _] [K O D]. constructor.
  - intros id ci. rewrite R. apply K.
  - intros id ci. rewrite R, C. apply O.
  - now rewrite R.
Qed.

Lemma inert_before_registration (ws : nat) (c : Connection) (w w' : World) :
  inert_step w w' -> before_registration ws c w -> before_registration ws c w'.
Proof.
  intros S [Hr Hc]. split; [exact (inert_registry_consistent w w' S Hr)|].
  now rewrite (inert_conns S).
Qed.

Lemma inert_ready_to_register (ws : nat) (id : string) (role : option MessageSource)
    (w w' : World) :
  inert_step w w' -> ready_to_register ws id role w -> ready_to_register ws id role w'.
Proof.
  intros S [Hr Hc]. split; [exact (inert_registry_consistent w w' S Hr)|].
  now rewrite (inert_conns S).
Qed.

(** The assignments [authenticated = true; clientType = ...] of the
    handler, on a connection that was not authenticated. *)
Lemma update_conn_ready (ws : nat) (c : Connection) (role : option MessageSource)
    (version : JSValue) :
  authenticated c = false ->
  leads (before_registration ws c)
        (update_conn ws (fun c => with_clientVersion version
                                    (with_clientType role (with_authenticated true c))))
        (ready_to_register ws (clientId c) role).
Proof.
  intros Ha w [[K O D] Hc].
  unfold exec. rewrite (update_conn_found ws _ c w Hc). cbn [snd].
  split.
  - constructor; cbn [registry conns with_conns]; trivial.
    intros id ci Hci. destruct (O id ci Hci) as (c0 & H0 & E0 & A0 & T0).
    exists c0. split; [|now repeat split].
    rewrite (get_set_other nat Connection Nat.eqb Nat_eqb_spec); [exact H0|].
    intros E. rewrite E in H0. congruence.
  - eexists. cbn [conns with_conns].
    rewrite (get_set_same nat Connection Nat.eqb Nat_eqb_spec).
    split; [reflexivity|]. repeat split.
Qed.

(** [addClient] for the connection that has just been authenticated. *)
Lemma addClient_consistent (ws : nat) (id : string) (type : MessageSource)
    (version : string) :
  leads (ready_to_register ws id (Some type)) (addClient id ws type version)
        (ready_to_register ws id (Some type)).
Proof.
  intros w [[K O D] (c & Hc & Hid & Ha & Ht)].
  unfold exec, addClient, bind, Date_now, modify, log. cbn.
  split; [|exists c; auto].
  constructor; cbn.
  - intros id' ci H. destruct (string_dec id' id) as [->|Hne].
    + rewrite (get_set_same string ClientInfo String.eqb String_eqb_spec) in H.
      now inversion H.
    + rewrite (get_set_other string ClientInfo String.eqb String_eqb_spec) in H
        by assumption.
      now apply K.
  - intros id' ci H. destruct (string_dec id' id) as [->|Hne].
    + rewrite (get_set_same string ClientInfo String.eqb String_eqb_spec) in H.
      inversion H. subst ci. cbn. exists c. auto.
    + rewrite (get_set_other string ClientInfo String.eqb String_eqb_spec) in H
        by assumption.
      now apply O.
  - now apply (NoDup_keys_set String.eqb String_eqb_spec).
Qed.

Lemma message_handler_body_consistent (ws : nat) (c : Connection)
    (parsed : option JSValue) :
  leads (before_registration ws c) (message_handler_body ws c parsed) registry_consistent.
Proof.
  pose proof (inert_before_registration ws c) as Sb.
  assert (Wb : forall w, before_registration ws c w -> registry_consistent w)
    by (intros w H; apply H).
  unfold message_handler_body.
  apply (leads_bind _ (before_registration ws c));
    [apply leads_inert; [exact Sb|inert_run] | exact Wb | intros message].
  destruct (authenticated c) eqn:Ha; cbn [negb].
  - apply (leads_weaken _ (before_registration ws c)); [|exact Wb].
    apply leads_inert; [exact Sb|inert_run].
  - apply (leads_bind _ (before_registration ws c));
      [apply leads_inert; [exact Sb|inert_run] | exact Wb | intros authResult].
    destruct (negb (success authResult)).
    + apply (leads_weaken _ (before_registration ws c)); [|exact Wb].
      apply leads_inert; [exact Sb|inert_run].
    + apply (leads_bind _ (before_registration ws c));
        [apply leads_inert; [exact Sb|inert_run] | exact Wb | intros version].
      set (role := auth_clientType authResult).
      pose proof (inert_ready_to_register ws (clientId c) role) as Sr.
      assert (Wr : forall w, ready_to_register ws (clientId c) role w ->
                             registry_consistent w)
        by (intros w H; apply H).
      apply (leads_bind _ (ready_to_register ws (clientId c) role));
        [now apply update_conn_ready | exact Wr | intros _].
      apply (leads_weaken _ (ready_to_register ws (clientId c) role)); [|exact Wr].
      apply (leads_bind _ (ready_to_register ws (clientId c) role));
        [apply leads_inert; [exact Sr|inert_run] | trivial | intros compatible].
      apply (leads_bind _ (ready_to_register ws (clientId c) role));
        [apply leads_inert; [exact Sr|inert_run] | trivial | intros _].
      destruct role as [type|] eqn:Hrole;
        [|apply leads_inert; [exact Sr|inert_run]].
      destruct version; try solve [apply leads_inert; [exact Sr|inert_run]].
      apply (leads_bind _ (ready_to_register ws (clientId c) (Some type)));
        [apply addClient_consistent | trivial | intros _].
      apply leads_inert; [exact Sr|inert_run].
Qed.

Lemma on_message_consistent (ws : nat) (parsed : option JSValue) :
  leads registry_consistent (on_message ws parsed) registry_consistent.
Proof.
  intros w Hinv. unfold on_message. rewrite exec_gets.
  destruct (JSMap.get Nat.eqb ws (conns w)) as [c|] eqn:E; [|exact Hinv].
  apply (leads_try_catch (before_registration ws c) registry_consistent registry_consistent).
  - apply message_handler_body_consistent.
  - auto.
  - intros e. apply leads_inert; [exact inert_registry_consistent|inert_run].
  - split; [exact Hinv|exact E].
Qed.

Lemma accept_consistent (ws : nat) (suffix : string) (w : World) :
  enabled (OnConnection ws suffix) w = true ->
  registry_consistent w -> registry_consistent (exec (accept ws suffix) w).
Proof.
  cbn [enabled]. intros En [K O D].
  apply andb_prop in En. destruct En as [En _].
  apply andb_prop in En. destruct En as [_ Hconn]. apply negb_true_iff in Hconn.
  destruct (accept_spec ws suffix w) as (C & R & _).
  constructor.
  - intros id ci. rewrite R. apply K.
  - intros id ci. rewrite R, C. intros Hci.
    destruct (O id ci Hci) as (c0 & H0 & rest). exists c0. split; [|exact rest].
    rewrite (get_set_other nat Connection Nat.eqb Nat_eqb_spec); [exact H0|].
    intros E. unfold JSMap.has in Hconn. rewrite E in H0. rewrite H0 in Hconn. discriminate.
  - now rewrite R.
Qed.

(** The [close] event removes at most one entry of the registry. *)
Lemma emit_close_registry (ws : nat) (w : World) :
  conns (exec (emit_close ws) w) = conns w
  /\ (registry (exec (emit_close ws) w) = registry w
      \/ exists id, registry (exec (emit_close ws) w)
                    = JSMap.delete String.eqb id (registry w)).
Proof.
  unfold exec, emit_close, on_close, removeClient, update_socket, bind, gets, modify, log, ret.
  set (w0 := match JSMap.get Nat.eqb ws (sockets w) with
             | Some s => with_sockets (JSMap.set Nat.eqb ws (with_readyState CLOSED s) (sockets w)) w
             | None => w
             end).
  assert (F : conns w0 = conns w /\ registry w0 = registry w).
  { unfold w0. destruct (JSMap.get Nat.eqb ws (sockets w)); repeat split. }
  destruct F as (Fc & Fr). clearbody w0.
  cbn. rewrite ?Fc, ?Fr.
  destruct (JSMap.get Nat.eqb ws (conns w)) as [c|]; [|now split; [|left]].
  destruct (authenticated c); cbn; [|now split; [|left]].
  destruct (String.eqb (clientId c) EmptyString); cbn; rewrite ?Fc, ?Fr;
    [now split; [|left]|].
  destruct (JSMap.get String.eqb (clientId c) (registry w)); cbn; rewrite ?Fc, ?Fr.
  - split; [reflexivity|]. right. now exists (clientId c).
  - now split; [|left].
Qed.

Lemma emit_close_consistent (ws : nat) (w : World) :
  registry_consistent w -> registry_consistent (exec (emit_close ws) w).
Proof.
  intros [K O D]. destruct (emit_close_registry ws w) as [C [R|[id R]]].
  - constructor.
    + intros id ci. rewrite R. apply K.
    + intros id ci. rewrite R, C. apply O.
    + now rewrite R.
  - constructor.
    + intros id' ci. rewrite R. intros H.
      apply (get_delete_some String.eqb String_eqb_spec) in H. now apply K.
    + intros id' ci. rewrite R, C. intros H.
      apply (get_delete_some String.eqb String_eqb_spec) in H. now apply O.
    + rewrite R. now apply NoDup_keys_delete.
Qed.

Lemma dispatch_consistent (e : ServerEvent) (w : World) :
  enabled e w = true -> registry_consistent w -> registry_consistent (exec (dispatch e) w).
Proof.
  intros En Hinv. destruct e as [ws suffix|ws parsed|ws|ws| |]; cbn [dispatch].
  - now apply accept_consistent.
  - now apply on_message_consistent.
  - now apply emit_close_consistent.
  - apply (inert_registry_consistent w); [|exact Hinv]. apply inert_ws_set_isAlive.
  - apply (inert_registry_consistent w); [|exact Hinv]. apply inert_checkHeartbeats.
  - apply (inert_registry_consistent w); [|exact Hinv]. apply inert_processQueue.
Qed.

End RegistryInvariant.

(** X19. In every state of the server the registry agrees with the
    connections: every entry is filed under its own id, no two entries have
    the same id, and the socket of an entry is the socket of a connection
    that is authenticated and has the entry's id and role.  So a client the
    router sends to has authenticated with the role it is registered
    under. *)
Theorem registry_matches_connections (w : World) :
  reachable w ->
  NoDup (JSMap.keys (registry w))
  /\ forall id ci,
       JSMap.get String.eqb id (registry w) = Some ci ->
       ci_id ci = id
       /\ exists c, JSMap.get Nat.eqb (ci_ws ci) (conns w) = Some c
                    /\ clientId c = id /\ authenticated c = true
                    /\ clientType c = Some (ci_type ci).
Proof.
  intros Hreach.
  assert (Hinv : registry_consistent w).
  { induction Hreach as [clock level cfg cap|w e _ IH En].
    - constructor; cbn; try discriminate. constructor.
    - now apply dispatch_consistent. }
  destruct Hinv as [K O D]. split; [exact D|].
  intros id ci H. split; [now apply K|now apply O].
Qed.

Lemma registry_matches_connections_witness :
  NoDup (JSMap.keys (registry two_clients))
  /\ forall id ci,
       JSMap.get String.eqb id (registry two_clients) = Some ci ->
       ci_id ci = id
       /\ exists c, JSMap.get Nat.eqb (ci_ws ci) (conns two_clients) = Some c
                    /\ clientId c = id /\ authenticated c = true
                    /\ clientType c = Some (ci_type ci).
Proof.
  apply (registry_matches_connections two_clients). apply two_clients_reachable.
Defined.

(** ** latency-monitor.ts *)

Section LatencyMore.

Lemma record_all_snoc (records : list (string * Z)) (r : string * Z) (stats : LatencyStats) :
  record_all (records ++ [r]) stats
  = recordLatency_stats (fst r) (snd r) (record_all records stats).
Proof. unfold record_all. now rewrite fold_left_app. Qed.

Lemma count_recordLatency_other (ty ty' : string) (latencyMs : Z) (stats : LatencyStats) :
  ty <> ty' ->
  count_of_type ty (recordLatency_stats ty' latencyMs stats) = count_of_type ty stats.
Proof.
  intros Hne. unfold count_of_type, recordLatency_stats, JSMap.has. cbn [byType].
  destruct (JSMap.get String.eqb ty' (byType stats)); cbn [negb];
    now rewrite !(get_set_other string LatencyMetrics String.eqb String_eqb_spec).
Qed.

End LatencyMore.

(** X20. The statistics after a run of [recordLatency] calls on a monitor
    that has just started or reported.  The overall count is the number of
    calls and the overall total the sum of the latencies; [over100ms] counts
    the latencies above 100 (one of exactly 100 is not counted); [maxMs] is
    the largest latency, or 0 when none is positive; [minMs] is the smallest
    latency, and is absent only when nothing was recorded; and the count of
    a type is the number of calls made with that type. *)
Theorem recordLatency_totals (records : list (string * Z)) (t : Z) :
  let stats := record_all records (no_stats t) in
  count (overall stats) = Z.of_nat (List.length records)
  /\ totalMs (overall stats) = fold_right Z.add 0 (map snd records)
  /\ over100ms (overall stats)
     = Z.of_nat (List.length (filter (fun r => snd r >? 100) records))
  /\ (forall r, In r records -> snd r <= maxMs (overall stats))
  /\ (maxMs (overall stats) = 0 \/ In (maxMs (overall stats)) (map snd records))
  /\ match minMs (overall stats) with
     | None => records = []
     | Some m => In m (map snd records) /\ forall r, In r records -> m <= snd r
     end
  /\ (forall ty, count_of_type ty stats
                 = Z.of_nat (List.length (filter (fun r => String.eqb (fst r) ty) records)))
  /\ lastReportTime stats = t.
Proof.
  induction records as [|r records IH] using rev_ind; intros stats.
  - subst stats. cbn. repeat split; try tauto; try (intros ? []).
  - subst stats. rewrite record_all_snoc.
    set (s := record_all records (no_stats t)) in *. cbv zeta in IH.
    destruct IH as (Hc & Ht & Ho & Hmax & Hmax' & Hmin & Hty & Hl).
    unfold recordLatency_stats at 1 2 3 4 5 6.
    cbn [overall updateMetrics count totalMs over100ms maxMs minMs lastReportTime].
    rewrite length_app, map_app, filter_app. cbn [List.length map filter].
    split; [lia|].
    split; [rewrite fold_right_app; cbn [fold_right];
            rewrite Ht; clear; induction (map snd records) as [|x xs IHx]; cbn; lia|].
    split; [unfold latencyThreshold; destruct (snd r >? 100);
            rewrite length_app; cbn [List.length]; lia|].
    split; [intros x Hx; apply in_app_or in Hx; destruct Hx as [Hx|[<-|[]]];
            [specialize (Hmax x Hx)|]; lia|].
    split.
    { destruct (Z.max_spec (maxMs (overall s)) (snd r)) as [[Hlt ->]|[Hge ->]].
      - right. apply in_or_app. right. now left.
      - destruct Hmax' as [H0|Hin]; [now left|]. right. apply in_or_app. now left. }
    split.
    { assert (E : minMs (overall (recordLatency_stats (fst r) (snd r) s))
                  = Some (match minMs (overall s) with
                          | None => snd r
                          | Some m => Z.min m (snd r)
                          end)) by reflexivity.
      rewrite E. clear E. destruct (minMs (overall s)) as [m|].
      - destruct Hmin as [Hin Hle].
        destruct (Z.min_spec m (snd r)) as [[Hlt ->]|[Hge ->]].
        + split; [apply in_or_app; now left|].
          intros x Hx. apply in_app_or in Hx. destruct Hx as [Hx|[<-|[]]];
            [now apply Hle|lia].
        + split; [apply in_or_app; right; now left|].
          intros x Hx. apply in_app_or in Hx. destruct Hx as [Hx|[<-|[]]];
            [specialize (Hle x Hx)|]; lia.
      - subst records. cbn. split; [now left|]. intros x [<-|[]]. lia. }
    split; [|exact Hl].
    intros ty. rewrite filter_app, length_app. cbn [filter].
    destruct (String.eqb_spec (fst r) ty) as [E|Hne]; cbn [List.length].
    + rewrite <- E. rewrite count_recordLatency, E, Hty. lia.
    + rewrite count_recordLatency_other by congruence. rewrite Hty. lia.
Qed.

Section ReportFacts.

Variable round_ratio : Z -> Z -> Z -> Z -> JSValue.
Variable Infinity : JSValue.

Lemma count_record_all (records : list (string * Z)) (stats : LatencyStats) :
  count (overall (record_all records stats))
  = count (overall stats) + Z.of_nat (List.length records).
Proof.
  revert stats. induction records as [|r records IH]; intros stats; [cbn; lia|].
  change (record_all (r :: records) stats)
    with (record_all records (recordLatency_stats (fst r) (snd r) stats)).
  rewrite IH. cbn [recordLatency_stats overall updateMetrics count List.length]. lia.
Qed.

Lemma recordLatency_latency (messageType : string) (latencyMs : Z) (w : World) :
  exists w', recordLatency messageType latencyMs w = (Ok tt, w')
             /\ latency w' = recordLatency_stats messageType latencyMs (latency w).
Proof.
  unfold recordLatency, bind, modify, log, ret.
  destruct (latencyMs >? latencyThreshold); eexists; split; reflexivity.
Qed.

(** [reportStats] returns; it leaves the statistics alone when nothing was
    recorded, and otherwise starts them afresh at the time of the call. *)
Lemma reportStats_latency (w : World) :
  exists w', reportStats round_ratio Infinity w = (Ok tt, w')
             /\ latency w' = (if count (overall (latency w)) =? 0 then latency w
                              else no_stats (clock w (now_calls w))).
Proof.
  unfold reportStats, bind, Date_now, gets. cbv zeta.
  cbn [latency with_now_calls clock now_calls].
  destruct (count (overall (latency w)) =? 0).
  - unfold log, modify. eexists. split; reflexivity.
  - unfold log, modify, resetStats, modify, ret.
    destruct (Nat.ltb 0 _); eexists; split; reflexivity.
Qed.

(** The statistics depend on the records since the last report only. *)
Lemma monitor_run_pending (calls : list MonitorCall) :
  forall (acc : list (string * Z)) (w : World),
    overall (latency w) = overall (record_all acc (no_stats 0)) ->
    byType (latency w) = byType (record_all acc (no_stats 0)) ->
    exists w',
      monitor_run round_ratio Infinity calls w = (Ok tt, w')
      /\ overall (latency w') = overall (record_all (pending calls acc) (no_stats 0))
      /\ byType (latency w') = byType (record_all (pending calls acc) (no_stats 0)).
Proof.
  induction calls as [|[messageType latencyMs|] calls IH]; intros acc w Ho Hb.
  - exists w. repeat split; assumption.
  - cbn [monitor_run pending].
    destruct (recordLatency_latency messageType latencyMs w) as (w1 & H1 & L1).
    rewrite (bind_ok _ _ _ _ _ H1).
    apply IH; rewrite L1, record_all_snoc; cbn [fst snd];
      unfold recordLatency_stats; cbn [overall byType]; now rewrite ?Ho, ?Hb.
  - cbn [monitor_run pending].
    destruct (reportStats_latency w) as (w1 & H1 & L1).
    rewrite (bind_ok _ _ _ _ _ H1).
    apply IH; rewrite L1.
    + destruct (count (overall (latency w)) =? 0) eqn:E; [|reflexivity].
      apply Z.eqb_eq in E. rewrite Ho, count_record_all in E. cbn in E.
      assert (acc = []) by (destruct acc; [reflexivity|cbn in E; lia]).
      subst acc. exact Ho.
    + destruct (count (overall (latency w)) =? 0) eqn:E; [|reflexivity].
      apply Z.eqb_eq in E. rewrite Ho, count_record_all in E. cbn in E.
      assert (acc = []) by (destruct acc; [reflexivity|cbn in E; lia]).
      subst acc. exact Hb.
Qed.

End ReportFacts.

(** X21. [reportStats] and the statistics.  Whatever calls of
    [recordLatency] and [reportStats] a monitor has seen since it was
    created, none of them throws, and its overall and per-type statistics
    are those of the latencies recorded since the last [reportStats]: a
    report starts the statistics afresh, so right after one they are empty.
    A report that finds nothing recorded logs one line and leaves
    [lastReportTime] as it was; any other report sets it to the time of the
    call. *)
Theorem reportStats_starts_afresh (round_ratio : Z -> Z -> Z -> Z -> JSValue)
    (Infinity : JSValue) :
  (forall (calls : list MonitorCall) (clock : nat -> Z) (level : LogLevel)
          (cfg : BridgeConfig) (cap : Z),
     exists w',
       monitor_run round_ratio Infinity calls (new_World clock level cfg cap) = (Ok tt, w')
       /\ overall (latency w') = overall (record_all (pending calls []) (no_stats 0))
       /\ byType (latency w') = byType (record_all (pending calls []) (no_stats 0)))
  /\ (forall w : World,
        exists w', reportStats round_ratio Infinity w = (Ok tt, w')
                   /\ latency w' = (if count (overall (latency w)) =? 0 then latency w
                                    else no_stats (clock w (now_calls w)))).
Proof.
  split.
  - intros calls clock level cfg cap.
    apply monitor_run_pending; reflexivity.
  - intros w. destruct (reportStats_latency round_ratio Infinity w) as (w' & H & L).
    exists w'. split; assumption.
Qed.

(** ** reconnection.ts *)

Module ReconnectionMore.
Import Reconnection.

Lemma backoff_bounds (c : ReconnectionConfig) (a : Z) :
  0 <= initialDelay c -> 0 <= a ->
  Z.min (initialDelay c) (maxDelay c) <= backoff c a /\ backoff c a <= maxDelay c.
Proof.
  intros Hi Ha. unfold backoff.
  assert (P : 0 < 2 ^ a) by (apply Z.pow_pos_nonneg; lia).
  assert (Q : initialDelay c <= initialDelay c * 2 ^ a) by nia.
  lia.
Qed.

Lemma scheduleReconnection_within (c : ReconnectionConfig) (m : Manager) :
  0 <= initialDelay c ->
  within_bounds c m -> within_bounds c (scheduleReconnection m).
Proof.
  intros Hi (Hc & Ha & Hs). unfold within_bounds, scheduleReconnection.
  destruct (attempts m >=? maxAttempts (config m)) eqn:E.
  - repeat split; try assumption; apply Ha.
  - rewrite Z.geb_leb in E. apply Z.leb_gt in E. rewrite Hc in E.
    cbn. split; [exact Hc|]. split; [lia|].
    apply Forall_app. split; [exact Hs|]. constructor; [|constructor].
    rewrite Hc. apply backoff_bounds; lia.
Qed.

Lemma attemptConnection_within (c : ReconnectionConfig) (m : Manager) :
  0 <= initialDelay c ->
  within_bounds c m -> within_bounds c (attemptConnection m).
Proof.
  intros Hi H. unfold attemptConnection. cbv zeta.
  destruct (url_ok _) eqn:U.
  - exact H.
  - now apply scheduleReconnection_within.
Qed.

Lemma step_within (c : ReconnectionConfig) (m m' : Manager) (e : Event) :
  0 <= initialDelay c ->
  within_bounds c m -> step m e = Some m' -> within_bounds c m'.
Proof.
  intros Hi H. destruct e as [i|i|t| |]; cbn [step].
  - destruct (nth_error (socks m) i) as [[]|]; try discriminate.
    intros E. inversion E. destruct H as (Hc & Ha & Hs).
    repeat split; try assumption; cbn; lia.
  - destruct (nth_error (socks m) i) as [[]|]; try discriminate;
      intros E; inversion E; now apply scheduleReconnection_within.
  - destruct (existsb _ _); [|discriminate].
    intros E. inversion E. now apply attemptConnection_within.
  - intros E. inversion E. now apply attemptConnection_within.
  - intros E. inversion E. unfold disconnect. cbv zeta.
    destruct (reconnectTimeout m); destruct (ws _) as [i|];
      try destruct (nth_error _ i) as [[]|]; exact H.
Qed.

(** With a url [new WebSocket] rejects, every attempt fails at once and
    schedules the next, until the limit. *)
Lemma retry_chain (k : nat) :
  forall m,
    url_ok m = false -> timers m = [] ->
    attempts m + Z.of_nat k = maxAttempts (config m) ->
    exists m',
      run (attemptConnection m) (map EvTimer (seq (next_timer m) k)) = Some m'
      /\ scheduled m'
         = scheduled m
           ++ map (fun j => backoff (config m) (attempts m + Z.of_nat j)) (seq 0 k)
      /\ timers m' = [] /\ socks m' = socks m /\ ws m' = ws m
      /\ attempts m' = maxAttempts (config m).
Proof.
  induction k as [|k IH]; intros m U T A.
  - cbn [seq map run]. unfold attemptConnection. cbv zeta.
    cbn [url_ok log with_logger].
    rewrite U. unfold scheduleReconnection.
    cbn [attempts config log with_logger].
    assert (E : (attempts m >=? maxAttempts (config m)) = true) by (apply Z.geb_le; lia).
    rewrite E. eexists. split; [reflexivity|]. cbn.
    rewrite app_nil_r. repeat split; try assumption. lia.
  - cbn [seq map]. unfold attemptConnection at 1. cbv zeta.
    cbn [url_ok log with_logger]. rewrite U. unfold scheduleReconnection.
    cbn [attempts config log with_logger].
    assert (E : (attempts m >=? maxAttempts (config m)) = false).
    { rewrite Z.geb_leb. apply Z.leb_gt. lia. }
    rewrite E. cbv zeta. cbn [run step].
    cbn [timers setTimeout log with_logger with_attempts next_timer].
    rewrite T. cbn [app existsb fst]. rewrite Nat.eqb_refl. cbn [orb].
    match goal with
    | |- context [attemptConnection ?x] => set (m1 := x)
    end.
    assert (U1 : url_ok m1 = url_ok m) by reflexivity.
    assert (A1 : attempts m1 = attempts m + 1) by reflexivity.
    assert (C1 : config m1 = config m) by reflexivity.
    assert (N1 : next_timer m1 = S (next_timer m)) by reflexivity.
    assert (S1 : scheduled m1 = scheduled m ++ [backoff (config m) (attempts m)])
      by reflexivity.
    assert (K1 : socks m1 = socks m) by reflexivity.
    assert (W1 : ws m1 = ws m) by reflexivity.
    assert (T1 : timers m1 = []).
    { unfold m1. cbn. rewrite T. cbn. now rewrite Nat.eqb_refl. }
    clearbody m1.
    destruct (IH m1) as (m' & Hrun & Hs & Ht & Hk & Hw & Ha).
    { now rewrite U1. }
    { exact T1. }
    { rewrite A1, C1. lia. }
    exists m'. rewrite N1 in Hrun.
    split; [exact Hrun|].
    split; [|repeat split; congruence].
    rewrite Hs, S1, C1, A1, <- app_assoc. f_equal. cbn [app map].
    rewrite Z.add_0_r. f_equal.
    rewrite <- seq_shift, map_map. apply map_ext. intros j. f_equal. lia.
Qed.

End ReconnectionMore.

(** X22. Along every run of a manager (calls of [connect] and
    [disconnect], sockets opening and closing, timers firing, in any order),
    the attempt counter stays between 0 and [maxAttempts], and every delay
    handed to [setTimeout] is at most [maxDelay] and at least the smaller of
    [initialDelay] and [maxDelay]. *)
Theorem reconnection_stays_within_bounds (url : string) (url_ok : bool)
    (c : Reconnection.ReconnectionConfig) (lg : Logger) (es : list Reconnection.Event)
    (m : Reconnection.Manager) :
  0 <= Reconnection.maxAttempts c -> 0 <= Reconnection.initialDelay c ->
  Reconnection.run (Reconnection.new url url_ok c lg) es = Some m ->
  0 <= Reconnection.attempts m <= Reconnection.maxAttempts c
  /\ Forall (fun d => Z.min (Reconnection.initialDelay c) (Reconnection.maxDelay c) <= d
                      /\ d <= Reconnection.maxDelay c)
            (Reconnection.scheduled m).
Proof.
  intros Hmax Hi Hrun.
  assert (G : forall es m0, within_bounds c m0 -> Reconnection.run m0 es = Some m ->
                            within_bounds c m).
  { clear Hrun. induction es0 as [|e es0 IH]; intros m0 H0 Hrun.
    - cbn in Hrun. inversion Hrun. now subst.
    - cbn [Reconnection.run] in Hrun.
      destruct (Reconnection.step m0 e) as [m1|] eqn:E; [|discriminate].
      apply (IH m1); [|exact Hrun].
      exact (ReconnectionMore.step_within c m0 m1 e Hi H0 E). }
  destruct (G es (Reconnection.new url url_ok c lg)) as (_ & A & B); [|exact Hrun|].
  - split; [reflexivity|]. split; [cbn; lia|constructor].
  - split; assumption.
Qed.

Lemma reconnection_stays_within_bounds_witness :
  0 <= 5 <= 5
  /\ Forall (fun d => Z.min 1000 30000 <= d /\ d <= 30000) [1000; 2000; 4000; 8000; 16000].
Proof.
  apply (reconnection_stays_within_bounds "ws://localhost:8080" true
           Reconnection.five_attempts {| level := LInfo; console := [] |}
           ([Reconnection.CallConnect; Reconnection.EvOpen 0] ++ Reconnection.retries_fail)
           (match Reconnection.run (Reconnection.connected Reconnection.five_attempts)
                    Reconnection.retries_fail with
            | Some m => m
            | None => Reconnection.connected Reconnection.five_attempts
            end)).
  - cbn. lia.
  - cbn. lia.
  - vm_compute. reflexivity.
Defined.

(** X23. A manager whose url [new WebSocket] rejects.  [connect] does not
    throw: the failure of each attempt is caught and the next attempt is
    scheduled.  With [maxAttempts = n], the manager makes [n] retries, after
    the delays [min(initialDelay * 2^k, maxDelay)] for [k = 0 .. n-1], and
    then gives up: it never created a socket, no timer is pending, and no
    event can reach it any more. *)
Theorem malformed_url_gives_up (url : string) (c : Reconnection.ReconnectionConfig)
    (lg : Logger) (n : nat) :
  Reconnection.maxAttempts c = Z.of_nat n ->
  exists m,
    Reconnection.run (Reconnection.new url false c lg)
      (Reconnection.CallConnect :: map Reconnection.EvTimer (seq 0 n)) = Some m
    /\ Reconnection.scheduled m
       = map (fun k => Z.min (Reconnection.initialDelay c * 2 ^ Z.of_nat k)
                             (Reconnection.maxDelay c)) (seq 0 n)
    /\ Reconnection.attempts m = Z.of_nat n
    /\ Reconnection.timers m = [] /\ Reconnection.socks m = []
    /\ Reconnection.ws m = None
    /\ (forall i, Reconnection.step m (Reconnection.EvOpen i) = None
                  /\ Reconnection.step m (Reconnection.EvClose i) = None
                  /\ Reconnection.step m (Reconnection.EvTimer i) = None).
Proof.
  intros Hn.
  destruct (ReconnectionMore.retry_chain n (Reconnection.new url false c lg))
    as (m & Hrun & Hs & Ht & Hk & Hw & Ha); [reflexivity|reflexivity|cbn; lia|].
  exists m. cbn [Reconnection.run Reconnection.step Reconnection.connect].
  cbn [Reconnection.next_timer Reconnection.new] in Hrun.
  split; [exact Hrun|].
  cbn [Reconnection.scheduled Reconnection.new Reconnection.config Reconnection.attempts
       Reconnection.socks Reconnection.ws app] in Hs, Hk, Hw, Ha.
  split; [rewrite Hs; apply map_ext; intros k; reflexivity|].
  split; [lia|]. split; [exact Ht|]. split; [exact Hk|]. split; [exact Hw|].
  intros i. cbn [Reconnection.step]. rewrite Hk, Ht.
  destruct i; repeat split; reflexivity.
Qed.

Lemma malformed_url_gives_up_witness :
  exists m,
    Reconnection.run
      (Reconnection.new "not a url" false Reconnection.five_attempts
         {| level := LInfo; console := [] |})
      (Reconnection.CallConnect :: map Reconnection.EvTimer (seq 0 5)) = Some m
    /\ Reconnection.scheduled m
       = map (fun k => Z.min (1000 * 2 ^ Z.of_nat k) 30000) (seq 0 5)
    /\ Reconnection.attempts m = Z.of_nat 5
    /\ Reconnection.timers m = [] /\ Reconnection.socks m = []
    /\ Reconnection.ws m = None
    /\ (forall i, Reconnection.step m (Reconnection.EvOpen i) = None
                  /\ Reconnection.step m (Reconnection.EvClose i) = None
                  /\ Reconnection.step m (Reconnection.EvTimer i) = None).
Proof.
  apply (malformed_url_gives_up "not a url" Reconnection.five_attempts
           {| level := LInfo; console := [] |} 5).
  reflexivity.
Defined.
